(** * MT4 report to Pine Script converter: a shallow embedding

    The development follows the two service modules of the repository and
    the component that calls them:

    - [tradeProcessor] : [parseMT4DateToUTC], [convertToPineScriptTimestamp],
      [processReport] and [classifyAndGroupTrades];
    - [pineScriptGenerator] : [generatePineScript] with its local helpers
      [toTimestamp] and [generateLabels];
    - [App] : the state of the component with [handleProcessReport] and
      [handleToleranceChange], and the colour of a profit in [TradeItem].

    JavaScript values are modelled as follows.

    - A [number] is an IEEE 754 binary64 value, taken from the standard
      library's [spec_float] (precision 53, maximal exponent 1024), so that
      [NaN], the infinities and the two zeros are all present and the
      comparisons are the IEEE ones.
    - A string is a [string]; its characters stand for code units below 256.
    - An exception ([TypeError]) is the [Throw] outcome of the [Res] monad.
    - A [Date] is its time value: [Some t] for [t] milliseconds since the
      epoch, [None] for an invalid date (time value [NaN]).
    - The parsed HTML document is a list of tables, each with its text
      content and its rows of cell texts: [DOMParser] itself is a platform
      component and is not modelled. *)

From Stdlib Require Import ZArith List String Ascii Bool Lia Permutation Sorted.
From Stdlib Require Import Floats.SpecFloat DecimalString.
Import ListNotations.

Open Scope string_scope.
Open Scope Z_scope.

(** ** Exceptions *)

Inductive Res (A : Type) : Type :=
| Ok (a : A)
| Throw.
Arguments Ok {A} a.
Arguments Throw {A}.

Definition bind {A B : Type} (r : Res A) (k : A -> Res B) : Res B :=
  match r with
  | Ok a => k a
  | Throw => Throw
  end.

Notation "'let*' x ':=' r 'in' k" := (bind r (fun x => k))
  (at level 10, x pattern, r at level 100, k at level 200).

(** ** Strings *)

Module Str.

(** [WhiteSpace] and [LineTerminator] code units below 256: TAB, LF, VT, FF,
    CR, SP and NBSP. *)
Definition isWhiteSpace (c : ascii) : bool :=
  let n := N_of_ascii c in
  ((9 <=? n) && (n <=? 13) || (n =? 32) || (n =? 160))%N.

Definition isEmpty (s : string) : bool :=
  match s with
  | EmptyString => true
  | String _ _ => false
  end.

Fixpoint trimStart (s : string) : string :=
  match s with
  | EmptyString => EmptyString
  | String c s' => if isWhiteSpace c then trimStart s' else s
  end.

Fixpoint trimEnd (s : string) : string :=
  match s with
  | EmptyString => EmptyString
  | String c s' =>
      let r := trimEnd s' in
      if isWhiteSpace c && isEmpty r then EmptyString else String c r
  end.

(** [String.prototype.trim] *)
Definition trim (s : string) : string := trimEnd (trimStart s).

(** [String.prototype.includes] *)
Fixpoint includes (s sub : string) : bool :=
  prefix sub s ||
  match s with
  | EmptyString => false
  | String _ s' => includes s' sub
  end.

(** [String.prototype.split] with a separator of one character. *)
Fixpoint split (sep : ascii) (s : string) : list string :=
  match s with
  | EmptyString => [EmptyString]
  | String c s' =>
      if Ascii.eqb c sep then EmptyString :: split sep s'
      else match split sep s' with
           | p :: ps => String c p :: ps
           | [] => [String c EmptyString]
           end
  end.

(** [s.replace(/ /g, '')] *)
Fixpoint removeSpaces (s : string) : string :=
  match s with
  | EmptyString => EmptyString
  | String c s' =>
      if Ascii.eqb c " " then removeSpaces s' else String c (removeSpaces s')
  end.

(** The lower case of a code unit below 256: the letters A-Z and the
    letters U+00C0 to U+00DE, the sign U+00D7 apart, have one, 32 above. *)
Definition lowerChar (c : ascii) : ascii :=
  let n := N_of_ascii c in
  if ((65 <=? n) && (n <=? 90) || (192 <=? n) && (n <=? 222) && negb (n =? 215))%N
  then ascii_of_N (n + 32) else c.

(** The upper case of a code unit below 256: the letters a-z and the
    letters U+00E0 to U+00FE, the sign U+00F7 apart, have one, 32 below;
    the upper case of U+00DF is SS.  The upper case of U+00B5 and of
    U+00FF is a code unit above 255, which a [string] does not hold: the
    two are left as they are, so that [toUpperCase] is the one of
    JavaScript on the strings that hold neither. *)
Definition upperChar (c : ascii) : string :=
  let n := N_of_ascii c in
  if (n =? 223)%N then "SS"
  else if ((97 <=? n) && (n <=? 122) || (224 <=? n) && (n <=? 254) && negb (n =? 247))%N
  then String (ascii_of_N (n - 32)) EmptyString
  else String c EmptyString.

(** [String.prototype.toLowerCase] *)
Fixpoint toLowerCase (s : string) : string :=
  match s with
  | EmptyString => EmptyString
  | String c s' => String (lowerChar c) (toLowerCase s')
  end.

(** [String.prototype.toUpperCase] *)
Fixpoint toUpperCase (s : string) : string :=
  match s with
  | EmptyString => EmptyString
  | String c s' => upperChar c ++ toUpperCase s'
  end.

(** [s || d] for a string [s]: the empty string is the only falsy one. *)
Definition orElse (s d : string) : string := if isEmpty s then d else s.

Definition concat (l : list string) : string :=
  fold_right append EmptyString l.

End Str.

(** ** Numbers *)

Module Num.

Definition number : Type := spec_float.

Definition prec : Z := 53.
Definition emax : Z := 1024.

Definition NaN : number := S754_nan.
Definition zero : number := S754_zero false.
Definition ofZ (z : Z) : number := binary_normalize prec emax z 0 false.

(** [a > b], [a >= b], [a <= b], [a < b], [a == b], unary minus and [a - b]. *)
Definition gt (a b : number) : bool := SFltb b a.
Definition ge (a b : number) : bool := SFleb b a.
Definition le (a b : number) : bool := SFleb a b.
Definition lt (a b : number) : bool := SFltb a b.
Definition equal (a b : number) : bool := SFeqb a b.
Definition neg (a : number) : number := SFopp a.
Definition sub (a b : number) : number := SFsub prec emax a b.

Definition isNaN (a : number) : bool :=
  match a with
  | S754_nan => true
  | _ => false
  end.

(** [ToIntegerOrInfinity] restricted to its finite results: the number
    truncated towards zero; [None] for [NaN] and the infinities. *)
Definition truncate (a : number) : option Z :=
  match a with
  | S754_zero _ => Some 0
  | S754_finite s m e =>
      let q := match e with
               | Zneg k => Z.shiftr (Zpos m) (Zpos k)
               | _ => Z.shiftl (Zpos m) e
               end in
      Some (if s then - q else q)
  | _ => None
  end.

(** The result of an operator whose exact value is the integer [z]: the
    Number nearest to [z], ties to even, which is again an integer; [None]
    when it is an infinity. *)
Definition rounded (z : Z) : option Z := truncate (ofZ z).

(** *** Numeric literals in strings *)

Inductive literal : Type :=
| LInfinity (negative : bool)
| LDecimal (negative : bool) (mantissa : Z) (exp10 : Z).

(** The value of a literal, rounded to the nearest binary64 value, ties to
    even: [mantissa * 10 ^ exp10] with the literal's sign. *)
Definition literalValue (l : literal) : number :=
  match l with
  | LInfinity s => S754_infinity s
  | LDecimal s m e =>
      match m with
      | Zpos p =>
          match e with
          | Zneg k => SFdiv prec emax (S754_finite s p 0)
                                      (S754_finite false (Pos.pow 10 k) 0)
          | _ => binary_round prec emax s (p * Z.to_pos (10 ^ e))%positive 0
          end
      | _ => S754_zero s
      end
  end.

Definition isDigit (c : ascii) : bool :=
  let n := N_of_ascii c in ((48 <=? n) && (n <=? 57))%N.

Definition digitValue (c : ascii) : Z := Z.of_N (N_of_ascii c) - 48.

(** The longest run of decimal digits at the start of [s]: its value
    continuing from [acc], the number of digits, and the rest. *)
Fixpoint digits (s : string) (acc : Z) (count : Z) : Z * Z * string :=
  match s with
  | String c s' =>
      if isDigit c then digits s' (acc * 10 + digitValue c) (count + 1)
      else (acc, count, s)
  | EmptyString => (acc, count, s)
  end.

Definition signOf (s : string) : bool * string :=
  match s with
  | String "+" s' => (false, s')
  | String "-" s' => (true, s')
  | _ => (false, s)
  end.

(** [ExponentPart], when one starts [s]; otherwise nothing is consumed. *)
Definition exponentPart (s : string) : Z * string :=
  match s with
  | String c s' =>
      if Ascii.eqb c "e" || Ascii.eqb c "E" then
        let (sg, s1) := signOf s' in
        let '(v, n, s2) := digits s1 0 0 in
        if 0 <? n then (if sg then - v else v, s2) else (0, s)
      else (0, s)
  | EmptyString => (0, s)
  end.

(** The longest prefix of [s] that is a [StrDecimalLiteral], with the rest
    of the string. *)
Definition lexDecimal (s : string) : option (literal * string) :=
  let (sg, s0) := signOf s in
  if prefix "Infinity" s0 then
    Some (LInfinity sg, substring 8 (length s0 - 8) s0)
  else
    let '(m1, n1, s1) := digits s0 0 0 in
    match s1 with
    | String "." s2 =>
        let '(m2, n2, s3) := digits s2 m1 0 in
        if (0 <? n1) || (0 <? n2) then
          let (e, s4) := exponentPart s3 in
          Some (LDecimal sg m2 (e - n2), s4)
        else None
    | _ =>
        if 0 <? n1 then
          let (e, s4) := exponentPart s1 in
          Some (LDecimal sg m1 e, s4)
        else None
    end.

(** The global [parseFloat]. *)
Definition parseFloat (s : string) : number :=
  match lexDecimal (Str.trimStart s) with
  | Some (l, _) => literalValue l
  | None => NaN
  end.

(** [NonDecimalIntegerLiteral]: [0x], [0o] and [0b] literals. *)
Definition radixDigit (radix : Z) (c : ascii) : option Z :=
  let n := Z.of_N (N_of_ascii c) in
  let v := if (48 <=? n) && (n <=? 57) then n - 48
           else if (97 <=? n) && (n <=? 122) then n - 87
           else if (65 <=? n) && (n <=? 90) then n - 55
           else radix in
  if v <? radix then Some v else None.

Fixpoint radixDigits (radix : Z) (s : string) (acc : Z) : option Z :=
  match s with
  | EmptyString => Some acc
  | String c s' =>
      match radixDigit radix c with
      | Some v => radixDigits radix s' (acc * radix + v)
      | None => None
      end
  end.

Definition nonDecimal (s : string) : option Z :=
  match s with
  | String "0" (String c (String d s')) =>
      let body := String d s' in
      if Ascii.eqb c "x" || Ascii.eqb c "X" then radixDigits 16 body 0
      else if Ascii.eqb c "o" || Ascii.eqb c "O" then radixDigits 8 body 0
      else if Ascii.eqb c "b" || Ascii.eqb c "B" then radixDigits 2 body 0
      else None
  | _ => None
  end.

(** [Number(s)] for a string [s] ([StringToNumber]). *)
Definition ofString (s : string) : number :=
  let t := Str.trim s in
  if Str.isEmpty t then zero
  else match lexDecimal t with
       | Some (l, EmptyString) => literalValue l
       | _ => match nonDecimal t with
              | Some v => ofZ v
              | None => NaN
              end
       end.

(** *** Numbers to strings *)

Definition showZ (z : Z) : string := NilZero.string_of_int (Z.to_int z).

Definition zeros (n : Z) : string :=
  Z.iter n (String "0") EmptyString.

(** The magnitude of a finite non-zero number as a fraction. *)
Definition fraction (m : positive) (e : Z) : Z * Z :=
  match e with
  | Zneg k => (Zpos m, 2 ^ Zpos k)
  | _ => (Zpos m * 2 ^ e, 1)
  end.

(** The [n] with [10 ^ (n - 1) <= num / den < 10 ^ n]. *)
Fixpoint magnitudeUp (fuel : nat) (num den : Z) (n : Z) : Z :=
  match fuel with
  | O => n
  | S fuel' => if num <? den * 10 ^ n then n
               else magnitudeUp fuel' num den (n + 1)
  end.

Fixpoint magnitudeDown (fuel : nat) (num den : Z) (n : Z) : Z :=
  match fuel with
  | O => n
  | S fuel' => if den <=? num * 10 ^ (1 - n) then n
               else magnitudeDown fuel' num den (n - 1)
  end.

Definition magnitude (num den : Z) : Z :=
  if den <=? num then magnitudeUp 400 num den 1
  else magnitudeDown 400 num den 0.

(** [floor (num / den * 10 ^ p)] with its doubled remainder compared to the
    divisor: [Lt] when the quotient is nearer than its successor. *)
Definition scaled (num den p : Z) : Z * comparison :=
  let (a, b) := match p with
                | Zneg k => (num, den * 10 ^ Zpos k)
                | _ => (num * 10 ^ p, den)
                end in
  (a / b, (2 * (a mod b)) ?= b).

(** The shortest decimal [s * 10 ^ (n - k)], with [k] digits in [s], that
    reads back as the number; the nearest one when two do. *)
Fixpoint shortest (fuel : nat) (x : number) (num den n k : Z) : Z * Z :=
  let (lo, side) := scaled num den (k - n) in
  let back (c : Z) := SFeqb (literalValue (LDecimal false c (n - k))) x in
  let up := if (lo + 1) =? 10 ^ k then (10 ^ (k - 1), n + 1) else (lo + 1, n) in
  match fuel with
  | O => (lo, n)
  | S fuel' =>
      match back lo, back (lo + 1) with
      | true, true =>
          match side with
          | Lt => (lo, n)
          | Gt => up
          | Eq => if Z.even lo then (lo, n) else up
          end
      | true, false => (lo, n)
      | false, true => up
      | false, false => shortest fuel' x num den n (k + 1)
      end
  end.

(** The digits [s] (there are [k] of them) and the exponent [n] laid out
    as [Number::toString] does. *)
Definition layout (s n : Z) : string :=
  let ds := showZ s in
  let k := Z.of_nat (length ds) in
  if (k <=? n) && (n <=? 21) then ds ++ zeros (n - k)
  else if (0 <? n) && (n <=? 21) then
    substring 0 (Z.to_nat n) ds ++ "." ++ substring (Z.to_nat n) (Z.to_nat (k - n)) ds
  else if (-6 <? n) && (n <=? 0) then "0." ++ zeros (- n) ++ ds
  else
    let e := n - 1 in
    let es := (if e <? 0 then "-" else "+") ++ showZ (Z.abs e) in
    if k =? 1 then ds ++ "e" ++ es
    else substring 0 1 ds ++ "." ++ substring 1 (Z.to_nat (k - 1)) ds ++ "e" ++ es.

(** [Number::toString], radix 10: what a template literal prints. *)
Definition toString (x : number) : string :=
  match x with
  | S754_nan => "NaN"
  | S754_zero _ => "0"
  | S754_infinity s => (if s then "-" else EmptyString) ++ "Infinity"
  | S754_finite s m e =>
      let (num, den) := fraction m e in
      let (d, n) := shortest 17 (S754_finite false m e) num den (magnitude num den) 1 in
      (if s then "-" else EmptyString) ++ layout d n
  end.

(** [x.toFixed(2)] *)
Definition toFixed2 (x : number) : string :=
  match x with
  | S754_zero _ => "0.00"
  | S754_finite s m e =>
      let (num, den) := fraction m e in
      if 10 ^ 21 * den <=? num then toString x
      else
        let n := (200 * num + den) / (2 * den) in
        let ds := showZ n in
        let k := Z.of_nat (length ds) in
        let ds := if k <=? 2 then zeros (3 - k) ++ ds else ds in
        let k := Z.of_nat (length ds) in
        (if s then "-" else EmptyString) ++
        substring 0 (Z.to_nat (k - 2)) ds ++ "." ++ substring (Z.to_nat (k - 2)) 2 ds
  | _ => toString x
  end.

End Num.

(** ** Dates

    The time-value algebra of ECMA-262 (Day, TimeWithinDay, DayFromYear,
    YearFromTime, MakeTime, MakeDay, MakeDate, TimeClip), on integers.  A
    time value is [Some t] or, for [NaN], [None].  The products and sums
    of MakeTime, MakeDay and MakeDate are those of the operators [*] and
    [+] on Numbers, which round: an integral Number is [Some z], and
    [None] stands for [NaN] and the infinities, from which these
    operations never come back to a finite Number. *)

Module JsDate.

Definition timeValue : Type := option Z.

Definition msPerSecond : Z := 1000.
Definition msPerMinute : Z := 60000.
Definition msPerHour : Z := 3600000.
Definition msPerDay : Z := 86400000.
Definition maxTime : Z := 8640000000000000.

Definition Day (t : Z) : Z := t / msPerDay.
Definition TimeWithinDay (t : Z) : Z := t mod msPerDay.

Definition DaysInYear (y : Z) : Z :=
  if negb (y mod 4 =? 0) then 365
  else if negb (y mod 100 =? 0) then 366
  else if negb (y mod 400 =? 0) then 365
  else 366.

Definition DayFromYear (y : Z) : Z :=
  365 * (y - 1970) + (y - 1969) / 4 - (y - 1901) / 100 + (y - 1601) / 400.

Definition TimeFromYear (y : Z) : Z := msPerDay * DayFromYear y.

(** The largest [y] with [DayFromYear y <= d], searched upwards from a
    year that is not after it. *)
Fixpoint yearUp (fuel : nat) (d y : Z) : Z :=
  match fuel with
  | O => y
  | S fuel' => if DayFromYear (y + 1) <=? d then yearUp fuel' d (y + 1) else y
  end.

Definition YearFromTime (t : Z) : Z :=
  let d := Day t in
  yearUp 1000 d (1970 + (if 0 <=? d then d / 366 else d / 365)).

Definition InLeapYear (t : Z) : Z :=
  if DaysInYear (YearFromTime t) =? 366 then 1 else 0.

Definition DayWithinYear (t : Z) : Z := Day t - DayFromYear (YearFromTime t).

(** The day of the year on which month [m] (0 to 11) starts. *)
Definition monthStart (m leap : Z) : Z :=
  match m with
  | 0 => 0
  | 1 => 31
  | 2 => 59 + leap
  | 3 => 90 + leap
  | 4 => 120 + leap
  | 5 => 151 + leap
  | 6 => 181 + leap
  | 7 => 212 + leap
  | 8 => 243 + leap
  | 9 => 273 + leap
  | 10 => 304 + leap
  | _ => 334 + leap
  end.

Fixpoint monthOf (fuel : nat) (d leap m : Z) : Z :=
  match fuel with
  | O => m
  | S fuel' => if monthStart (m + 1) leap <=? d then monthOf fuel' d leap (m + 1) else m
  end.

Definition MonthFromTime (t : Z) : Z :=
  monthOf 11 (DayWithinYear t) (InLeapYear t) 0.

Definition DateFromTime (t : Z) : Z :=
  DayWithinYear t - monthStart (MonthFromTime t) (InLeapYear t) + 1.

Definition HourFromTime (t : Z) : Z := (t / msPerHour) mod 24.
Definition MinFromTime (t : Z) : Z := (t / msPerMinute) mod 60.
Definition SecFromTime (t : Z) : Z := (t / msPerSecond) mod 60.
Definition msFromTime (t : Z) : Z := t mod msPerSecond.

(** [a * b] and [a + b] on integral Numbers. *)
Definition times (a b : option Z) : option Z :=
  match a, b with
  | Some a, Some b => Num.rounded (a * b)
  | _, _ => None
  end.

Definition plus (a b : option Z) : option Z :=
  match a, b with
  | Some a, Some b => Num.rounded (a + b)
  | _, _ => None
  end.

Definition MakeTime (h m s ms : Z) : option Z :=
  plus (plus (plus (times (Some h) (Some msPerHour)) (times (Some m) (Some msPerMinute)))
             (times (Some s) (Some msPerSecond)))
       (Some ms).

(** [MakeDay]: the day number of day [dt] of month [m] of year [y]; [None]
    when no time value falls on the first of that month. *)
Definition MakeDay (y m dt : Z) : option Z :=
  match plus (Some y) (Num.rounded (m / 12)) with
  | Some ym =>
      let mn := m mod 12 in
      let leap := if DaysInYear ym =? 366 then 1 else 0 in
      let d := DayFromYear ym + monthStart mn leap in
      if Z.abs (d * msPerDay) <=? maxTime
      then plus (plus (Some d) (Some dt)) (Some (-1))
      else None
  | None => None
  end.

Definition MakeDate (day time : option Z) : option Z :=
  plus (times day (Some msPerDay)) time.

Definition TimeClip (t : option Z) : timeValue :=
  match t with
  | Some t => if Z.abs t <=? maxTime then Some t else None
  | None => None
  end.

Definition MakeFullYear (y : Z) : Z :=
  if (0 <=? y) && (y <=? 99) then 1900 + y else y.

Definition ap {A B : Type} (f : option (A -> B)) (a : option A) : option B :=
  match f, a with
  | Some f, Some a => Some (f a)
  | _, _ => None
  end.

(** [new Date(Date.UTC(year, month, date, hours, minutes, seconds))] *)
Definition UTC (year month date hours minutes seconds : Num.number) : timeValue :=
  match ap (ap (ap (Some MakeDay) (option_map MakeFullYear (Num.truncate year)))
                (Num.truncate month)) (Num.truncate date),
        ap (ap (ap (Some (fun h m s => MakeTime h m s 0)) (Num.truncate hours))
                (Num.truncate minutes)) (Num.truncate seconds)
  with
  | Some day, Some time => TimeClip (MakeDate day time)
  | _, _ => None
  end.

Definition getTime (d : timeValue) : timeValue := d.
Definition getUTCFullYear : timeValue -> option Z := option_map YearFromTime.
Definition getUTCMonth : timeValue -> option Z := option_map MonthFromTime.
Definition getUTCDate : timeValue -> option Z := option_map DateFromTime.
Definition getUTCHours : timeValue -> option Z := option_map HourFromTime.
Definition getUTCMinutes : timeValue -> option Z := option_map MinFromTime.

(** [d.setUTCHours(h)]: the new time value of [d]. *)
Definition setUTCHours (d : timeValue) (h : option Z) : timeValue :=
  match d, h with
  | Some t, Some h =>
      TimeClip (MakeDate (Some (Day t))
                  (MakeTime h (MinFromTime t) (SecFromTime t) (msFromTime t)))
  | _, _ => None
  end.

End JsDate.

(** ** types.ts *)

Import Num.

Record Trade : Type := mkTrade {
  ticket : string;
  openTimeRaw : string;
  type : string;
  size : number;
  item : string;
  openPrice : number;
  closeTimeRaw : string;
  closePrice : number;
  profit : number
}.

Record Buckets : Type := mkBuckets {
  winners : list Trade;
  breakeven : list Trade;
  losers : list Trade
}.

(** [GroupedTrades] is an object used as a map from instrument to buckets:
    its own properties, in the order of their creation. *)
Definition GroupedTrades : Type := list (string * Buckets).

(** A field of [PineScriptTimestamp] is an integer, or [None] for [NaN]. *)
Record PineScriptTimestamp : Type := mkTimestamp {
  year : option Z;
  month : option Z;
  day : option Z;
  hours : option Z;
  minutes : option Z
}.

(** ** services/tradeProcessor.ts: timestamps *)

Definition MT4_UTC_OFFSET : Z := 3.
Definition TV_UTC_OFFSET : Z := -6.
Definition TV_DISPLAY_CORRECTION_HOURS : Z := 2.

(** [const [a, b, c] = l.map(Number)]: a missing element is [undefined],
    which every use below converts to [NaN]. *)
Definition element (l : list string) (i : nat) : number :=
  nth i (map ofString l) NaN.

(** [parseMT4DateToUTC]: [timePart.split] throws when [dateStr] holds no
    space, since [timePart] is then [undefined]. *)
Definition parseMT4DateToUTC (dateStr : string) : Res JsDate.timeValue :=
  let parts := Str.split " " dateStr in
  let datePart := nth 0 parts EmptyString in
  match nth_error parts 1 with
  | None => Throw
  | Some timePart =>
      let ymd := Str.split "." datePart in
      let hms := Str.split ":" timePart in
      let date := JsDate.UTC (element ymd 0) (sub (element ymd 1) (ofZ 1)) (element ymd 2)
                             (element hms 0) (element hms 1) (element hms 2) in
      Ok (JsDate.setUTCHours date
            (option_map (fun h => h - MT4_UTC_OFFSET) (JsDate.getUTCHours date)))
  end.

Definition convertToPineScriptTimestamp (trueUtcDate : JsDate.timeValue)
  : PineScriptTimestamp :=
  let adjustedDate := JsDate.getTime trueUtcDate in
  let totalOffset := TV_UTC_OFFSET + TV_DISPLAY_CORRECTION_HOURS in
  let adjustedDate :=
    JsDate.setUTCHours adjustedDate
      (option_map (fun h => h + totalOffset) (JsDate.getUTCHours adjustedDate)) in
  {| year := JsDate.getUTCFullYear adjustedDate;
     month := option_map (fun m => m + 1) (JsDate.getUTCMonth adjustedDate);
     day := JsDate.getUTCDate adjustedDate;
     hours := JsDate.getUTCHours adjustedDate;
     minutes := JsDate.getUTCMinutes adjustedDate |}.

(** ** services/tradeProcessor.ts: [classifyAndGroupTrades] *)

(** *** The object [grouped] *)

(** The property names every object inherits from [Object.prototype]; the
    value found there is a function or an object, hence truthy. *)
Definition prototypeKeys : list string :=
  ["constructor"; "__proto__"; "hasOwnProperty"; "isPrototypeOf";
   "propertyIsEnumerable"; "toLocaleString"; "toString"; "valueOf";
   "__defineGetter__"; "__defineSetter__"; "__lookupGetter__";
   "__lookupSetter__"].

Definition inherited (k : string) : bool := existsb (String.eqb k) prototypeKeys.
Arguments inherited : simpl never.

Fixpoint getOwn (g : GroupedTrades) (k : string) : option Buckets :=
  match g with
  | [] => None
  | (k', b) :: g' => if String.eqb k' k then Some b else getOwn g' k
  end.

Fixpoint setOwn (g : GroupedTrades) (k : string) (b : Buckets) : GroupedTrades :=
  match g with
  | [] => [(k, b)]
  | (k', b') :: g' =>
      if String.eqb k' k then (k, b) :: g' else (k', b') :: setOwn g' k b
  end.

(** [if (!grouped[k]) grouped[k] = { winners: [], breakeven: [], losers: [] }] *)
Definition ensureGroup (g : GroupedTrades) (k : string) : GroupedTrades :=
  match getOwn g k with
  | Some _ => g
  | None => if inherited k then g else setOwn g k (mkBuckets [] [] [])
  end.

Inductive bucketName : Type := Winners | Breakeven | Losers.

Definition pushTo (n : bucketName) (b : Buckets) (t : Trade) : Buckets :=
  match n with
  | Winners => mkBuckets (winners b ++ [t]) (breakeven b) (losers b)
  | Breakeven => mkBuckets (winners b) (breakeven b ++ [t]) (losers b)
  | Losers => mkBuckets (winners b) (breakeven b) (losers b ++ [t])
  end.

(** [grouped[k].bucket.push(t)]: a [TypeError] unless [grouped[k]] is one of
    the groups, since neither [undefined] nor a member of
    [Object.prototype] has the bucket. *)
Definition push (n : bucketName) (g : GroupedTrades) (k : string) (t : Trade)
  : Res GroupedTrades :=
  match getOwn g k with
  | Some b => Ok (setOwn g k (pushTo n b t))
  | None => Throw
  end.

(** *** The map [winnersMap], in insertion order *)

Definition WinnersMap : Type := list (string * Trade).

Fixpoint mapGet (m : WinnersMap) (k : string) : option Trade :=
  match m with
  | [] => None
  | (k', v) :: m' => if String.eqb k' k then Some v else mapGet m' k
  end.

Fixpoint mapSet (m : WinnersMap) (k : string) (v : Trade) : WinnersMap :=
  match m with
  | [] => [(k, v)]
  | (k', v') :: m' =>
      if String.eqb k' k then (k, v) :: m' else (k', v') :: mapSet m' k v
  end.

Definition mapValues (m : WinnersMap) : list Trade := map snd m.

(** The template literal [`${trade.openTimeRaw}_${trade.openPrice}`] *)
Definition dedupKey (trade : Trade) : string :=
  openTimeRaw trade ++ "_" ++ toString (openPrice trade).

(** *** [Array.prototype.sort]

    The result is fixed by the language for a consistent comparator: the
    elements in ascending order, equal ones in their original order.  The
    algorithm is left open; this one inserts from the right.  A comparator
    result of [NaN] counts as zero. *)
Section Sort.
Context {A : Type} (comparefn : A -> A -> Res (option Z)).

Definition isAfter (x y : A) : Res bool :=
  let* v := comparefn x y in
  Ok (match v with
      | Some v => 0 <? v
      | None => false
      end).

Fixpoint insert (x : A) (l : list A) : Res (list A) :=
  match l with
  | [] => Ok [x]
  | y :: l' =>
      let* c := isAfter x y in
      if c then let* r := insert x l' in Ok (y :: r) else Ok (x :: l)
  end.

Fixpoint sort (l : list A) : Res (list A) :=
  match l with
  | [] => Ok []
  | x :: l' => let* s := sort l' in insert x s
  end.
End Sort.

(** *** The three passes *)

Fixpoint forEach {A S : Type} (body : S -> A -> Res S) (l : list A) (s : S) : Res S :=
  match l with
  | [] => Ok s
  | x :: l' => let* s' := body s x in forEach body l' s'
  end.

(** The body of the first loop, on the state [(grouped, winnersMap)]. *)
Definition firstPass (beTolerance : number) (st : GroupedTrades * WinnersMap)
  (trade : Trade) : Res (GroupedTrades * WinnersMap) :=
  let (grouped, winnersMap) := st in
  let grouped := ensureGroup grouped (item trade) in
  if gt (profit trade) beTolerance then
    let key := dedupKey trade in
    match mapGet winnersMap key with
    | Some existingWinner =>
        if gt (profit trade) (profit existingWinner)
        then Ok (grouped, mapSet winnersMap key trade)
        else Ok (grouped, winnersMap)
    | None => Ok (grouped, mapSet winnersMap key trade)
    end
  else if ge (profit trade) (neg beTolerance) && le (profit trade) beTolerance then
    let* grouped := push Breakeven grouped (item trade) trade in
    Ok (grouped, winnersMap)
  else
    let* grouped := push Losers grouped (item trade) trade in
    Ok (grouped, winnersMap).

Definition secondPass (grouped : GroupedTrades) (winner : Trade) : Res GroupedTrades :=
  push Winners grouped (item winner) winner.

(** The comparator of the three [sort] calls.  The difference of two time
    values is rounded to a Number; [sort] reads its sign only, which is
    the sign of the exact difference. *)
Definition byOpenTime (a b : Trade) : Res (option Z) :=
  let* da := parseMT4DateToUTC (openTimeRaw a) in
  let* db := parseMT4DateToUTC (openTimeRaw b) in
  Ok (match JsDate.getTime da, JsDate.getTime db with
      | Some x, Some y => Some (x - y)
      | _, _ => None
      end).

Fixpoint thirdPass (grouped : GroupedTrades) : Res GroupedTrades :=
  match grouped with
  | [] => Ok []
  | (k, b) :: rest =>
      let* w := sort byOpenTime (winners b) in
      let* e := sort byOpenTime (breakeven b) in
      let* l := sort byOpenTime (losers b) in
      let* rest' := thirdPass rest in
      Ok ((k, mkBuckets w e l) :: rest')
  end.

Definition classifyAndGroupTrades (allTrades : list Trade) (beTolerance : number)
  : Res GroupedTrades :=
  let* (grouped, winnersMap) := forEach (firstPass beTolerance) allTrades (([] : GroupedTrades), ([] : WinnersMap)) in
  let* grouped := forEach secondPass (mapValues winnersMap) grouped in
  thirdPass grouped.

(** ** services/tradeProcessor.ts: [processReport] *)

(** A table of the parsed document: its text content and, for each of its
    rows, the text content of the cells. *)
Record Table : Type := mkTable {
  textContent : string;
  rows : list (list string)
}.

Definition Document : Type := list Table.

(** The three rejections, told apart by their message. *)
Inductive ReportError : Type :=
| MissingSectionError
| EmptyReportError
| MalformedInputError.

Definition message (e : ReportError) : string :=
  match e with
  | MissingSectionError =>
      "Could not find the 'Closed Transactions' table in the report."
  | EmptyReportError =>
      "No closed trades found in the report. Please check the file content."
  | MalformedInputError =>
      "Failed to parse the HTML file. It might be corrupted or in an unexpected format."
  end.

Inductive Settled : Type :=
| Resolved (groupedTrades : GroupedTrades)
| Rejected (error : ReportError).

Definition cell (cells : list string) (i : nat) : string := nth i cells EmptyString.

Definition isHeaderRow (cells : list string) : bool :=
  match cells with
  | [] => false
  | c :: _ => String.eqb (Str.trim c) "Closed Transactions:"
  end.

Definition isNextSection (cells : list string) : bool :=
  match cells with
  | [] => false
  | c :: _ => Str.includes c "Open Trades:" || Str.includes c "Closed P/L:"
  end.

Definition isTradeRow (cells : list string) : bool :=
  (List.length cells =? 14)%nat && negb (isNaN (parseFloat (Str.orElse (cell cells 0) EmptyString))).

Definition tradeOfRow (cells : list string) : Trade :=
  let profit := parseFloat (Str.removeSpaces (Str.orElse (cell cells 13) "0")) in
  {| ticket := Str.orElse (Str.trim (cell cells 0)) EmptyString;
     openTimeRaw := Str.orElse (Str.trim (cell cells 1)) EmptyString;
     type := Str.orElse (Str.trim (cell cells 2)) "unknown";
     size := parseFloat (Str.orElse (Str.trim (cell cells 3)) "0");
     item := Str.toLowerCase (Str.orElse (Str.trim (cell cells 4)) "unknown");
     openPrice := parseFloat (Str.orElse (Str.trim (cell cells 5)) "0");
     closeTimeRaw := Str.orElse (Str.trim (cell cells 8)) EmptyString;
     closePrice := parseFloat (Str.orElse (Str.trim (cell cells 9)) "0");
     profit := profit |}.

(** The loop over the rows of the table, from row number [i] on: the rows
    that are pushed as trades, each with its position in the table. *)
Fixpoint closedRows (rows : list (list string)) (i : nat) (isProcessing : bool)
  : list (nat * list string) :=
  match rows with
  | [] => []
  | cells :: rest =>
      if isHeaderRow cells then closedRows rest (S i) true
      else if negb isProcessing then closedRows rest (S i) isProcessing
      else if isNextSection cells then []
      else if isTradeRow cells then (i, cells) :: closedRows rest (S i) isProcessing
      else closedRows rest (S i) isProcessing
  end.

Definition findTable (doc : Document) : option Table :=
  find (fun t => Str.includes (Str.orElse (textContent t) EmptyString) "Closed Transactions:") doc.

Definition processReport (doc : Document) (beTolerance : number) : Settled :=
  match findTable doc with
  | None => Rejected MissingSectionError
  | Some closedTransactionsTable =>
      let allTrades :=
        map (fun r => tradeOfRow (snd r)) (closedRows (rows closedTransactionsTable) 0 false) in
      if (List.length allTrades =? 0)%nat then Rejected EmptyReportError
      else match classifyAndGroupTrades allTrades beTolerance with
           | Ok groupedTrades => Resolved groupedTrades
           | Throw => Rejected MalformedInputError
           end
  end.

(** ** services/pineScriptGenerator.ts

    A template literal is kept as its pieces: the text of the template
    and the substituted values.  The script is their concatenation. *)

Inductive piece : Type :=
| Text (s : string)
| Value (s : string).

Definition template : Type := list piece.

Definition pieceString (p : piece) : string :=
  match p with
  | Text s => s
  | Value s => s
  end.

Definition render (t : template) : string := Str.concat (map pieceString t).

Definition nl : string := String "010" EmptyString.
Definition quoted (s : string) : string := String "034" (s ++ String "034" EmptyString).

Inductive labelType : Type := winner | breakevenType | loser.

Definition toTimestamp (dateStr : string) : Res PineScriptTimestamp :=
  let* utcDate := parseMT4DateToUTC dateStr in
  Ok (convertToPineScriptTimestamp utcDate).

(** A timestamp field in a template literal. *)
Definition field (v : option Z) : piece :=
  Value (match v with
         | Some z => showZ z
         | None => "NaN"
         end).

(** [${t.year}, ${t.month}, ${t.day}, ${t.hours}, ${t.minutes}] *)
Definition fields (t : PineScriptTimestamp) : template :=
  [field (year t); Text ", "; field (month t); Text ", "; field (day t); Text ", ";
   field (hours t); Text ", "; field (minutes t)].

Definition labelTail : string := "', xloc=xloc.bar_time, yloc=yloc.price)" ++ nl.

Definition tooltipText (trade : Trade) (what when : string) (price : number) : string :=
  "Ticket: " ++ ticket trade ++ "\n" ++ what ++ ": " ++ when ++ " @ " ++ toString price
  ++ "\nProfit: " ++ toFixed2 (profit trade).

(** The statements [generateLabels] emits for one trade, one template for
    each [script += ...]. *)
Definition labelsOf (type_ : labelType) (trade : Trade) : Res (list template) :=
  let* openTimestamp := toTimestamp (openTimeRaw trade) in
  match type_ with
  | winner =>
      let* closeTimestamp := toTimestamp (closeTimeRaw trade) in
      let tooltipOpen := tooltipText trade "Open" (openTimeRaw trade) (openPrice trade) in
      let tooltipClose := tooltipText trade "Close" (closeTimeRaw trade) (closePrice trade) in
      Ok [ ([Text "    label.new(timestamp("] ++ fields openTimestamp ++
            [Text "), "; Value (toString (openPrice trade));
             Text ", style=label.style_diamond, color=color.new(color.green, 20), textcolor=color.green, size=iconSize, tooltip='";
             Value tooltipOpen; Text labelTail])%list;
           ([Text "    label.new(timestamp("] ++ fields closeTimestamp ++
            [Text "), "; Value (toString (closePrice trade));
             Text ", style=label.style_diamond, color=color.new(color.green, 20), textcolor=color.green, size=iconSize, tooltip='";
             Value tooltipClose; Text labelTail])%list;
           ([Text "    line.new(timestamp("] ++ fields openTimestamp ++
            [Text "), "; Value (toString (openPrice trade)); Text ", timestamp("] ++
            fields closeTimestamp ++
            [Text "), "; Value (toString (closePrice trade));
             Text (", color=color.new(color.white, 20), style=line.style_dotted, width=1, xloc=xloc.bar_time)" ++ nl)])%list ]
  | breakevenType =>
      let tooltip := tooltipText trade "Time" (openTimeRaw trade) (openPrice trade) in
      Ok [ ([Text "    label.new(timestamp("] ++ fields openTimestamp ++
            [Text "), "; Value (toString (openPrice trade));
             Text ", style=label.style_circle, color=color.new(color.blue, 20), textcolor=color.blue, size=iconSize, tooltip='";
             Value tooltip; Text labelTail])%list ]
  | loser =>
      let tooltip := tooltipText trade "Time" (openTimeRaw trade) (openPrice trade) in
      let style := if String.eqb (type trade) "buy"
                   then "label.style_triangleup" else "label.style_triangledown" in
      Ok [ ([Text "    label.new(timestamp("] ++ fields openTimestamp ++
            [Text "), "; Value (toString (openPrice trade)); Text ", style="; Value style;
             Text ", color=color.new(color.red, 20), textcolor=color.red, size=iconSize, tooltip='";
             Value tooltip; Text labelTail])%list ]
  end.

(** [trades.map(...).join('')], statement by statement. *)
Fixpoint generateLabels (trades : list Trade) (type_ : labelType) : Res (list template) :=
  match trades with
  | [] => Ok []
  | trade :: rest =>
      let* script := labelsOf type_ trade in
      let* more := generateLabels rest type_ in
      Ok (script ++ more)%list
  end.

(** The text of the script before the statements of the winners. *)
Definition preamble (title : string) : template :=
  [Text ("//@version=5" ++ nl ++ "indicator(" ++ String "034" "MT4 Trades: ");
   Value title;
   Text (String "034" ", overlay=true, scale = scale.right)" ++ nl ++ nl
     ++ "// --- Inputs ---" ++ nl
     ++ "var tamanoIconosStr = input.string(" ++ quoted "normal" ++ ", title="
     ++ quoted "Tamano de Iconos" ++ ", options=[" ++ quoted "tiny" ++ ", "
     ++ quoted "small" ++ ", " ++ quoted "normal" ++ ", " ++ quoted "large" ++ ", "
     ++ quoted "huge" ++ "])" ++ nl ++ nl
     ++ "// --- Functions ---" ++ nl
     ++ "getIconSize(sizeStr) =>" ++ nl
     ++ "    sizeResult = size.normal" ++ nl
     ++ "    if sizeStr == " ++ quoted "tiny" ++ nl
     ++ "        sizeResult := size.tiny" ++ nl
     ++ "    else if sizeStr == " ++ quoted "small" ++ nl
     ++ "        sizeResult := size.small" ++ nl
     ++ "    else if sizeStr == " ++ quoted "normal" ++ nl
     ++ "        sizeResult := size.normal" ++ nl
     ++ "    else if sizeStr == " ++ quoted "large" ++ nl
     ++ "        sizeResult := size.large" ++ nl
     ++ "    else if sizeStr == " ++ quoted "huge" ++ nl
     ++ "        sizeResult := size.huge" ++ nl
     ++ "    sizeResult" ++ nl ++ nl
     ++ "var iconSize = getIconSize(tamanoIconosStr)" ++ nl
     ++ "var drawn = false" ++ nl ++ nl
     ++ "// --- Drawing Logic ---" ++ nl
     ++ "if barstate.islast and not drawn" ++ nl
     ++ "    drawn := true" ++ nl
     ++ "    // Winners" ++ nl)].

(** The template literal that [generatePineScript] returns, in pieces. *)
Definition scriptTemplate (item_ : string) (data : Buckets) : Res template :=
  let title := Str.toUpperCase item_ in
  let* w := generateLabels (winners data) winner in
  let* e := generateLabels (breakeven data) breakevenType in
  let* l := generateLabels (losers data) loser in
  Ok (preamble title ++ List.concat w ++
      [Text (nl ++ "    // Break Even" ++ nl)] ++ List.concat e ++
      [Text (nl ++ "    // Losers" ++ nl)] ++ List.concat l ++ [Text nl])%list.

Definition generatePineScript (item_ : string) (data : Buckets) : Res string :=
  let* t := scriptTemplate item_ data in
  Ok (render t).

(** ** App.tsx

    The state of the component that the handlers of the report and of the
    tolerance read and write, and these handlers.  Each one runs to its
    end before the next event: the promise of [processReport] is settled
    when it is returned, so that what follows the [await] runs before any
    other event is handled.  Only the reading of the file takes its time,
    and [reader.onload] is an event of its own. *)

Module App.

(** [x || 0] for a number [x]: [NaN] and the two zeros are falsy. *)
Definition orZero (x : number) : number :=
  match x with
  | S754_nan | S754_zero _ => zero
  | _ => x
  end.

(** The class of the profit in [TradeItem]. *)
Definition profitClass (trade : Trade) : string :=
  if gt (profit trade) zero then "text-green-400"
  else if lt (profit trade) zero then "text-red-400"
  else "text-blue-400".

(** The state of [useState] and the reference [lastProcessedContent]. *)
Record State : Type := mkState {
  groupedTrades : option GroupedTrades;
  fileName : option string;
  beTolerance : number;
  isLoading : bool;
  error : option string;
  lastProcessedContent : option string
}.

Definition initial : State :=
  {| groupedTrades := None; fileName := None; beTolerance := zero;
     isLoading := false; error := None; lastProcessedContent := None |}.

Definition setGroupedTrades (v : option GroupedTrades) (st : State) : State :=
  mkState v (fileName st) (beTolerance st) (isLoading st) (error st)
          (lastProcessedContent st).

Definition setFileName (v : option string) (st : State) : State :=
  mkState (groupedTrades st) v (beTolerance st) (isLoading st) (error st)
          (lastProcessedContent st).

Definition setBeTolerance (v : number) (st : State) : State :=
  mkState (groupedTrades st) (fileName st) v (isLoading st) (error st)
          (lastProcessedContent st).

Definition setIsLoading (v : bool) (st : State) : State :=
  mkState (groupedTrades st) (fileName st) (beTolerance st) v (error st)
          (lastProcessedContent st).

Definition setError (v : option string) (st : State) : State :=
  mkState (groupedTrades st) (fileName st) (beTolerance st) (isLoading st) v
          (lastProcessedContent st).

Definition setLastProcessedContent (v : option string) (st : State) : State :=
  mkState (groupedTrades st) (fileName st) (beTolerance st) (isLoading st) (error st) v.

Section Handlers.

(** [DOMParser.parseFromString], a component of the platform: the tables
    of the document that a text holds. *)
Variable parseFromString : string -> Document.

Definition handleProcessReport (content : string) (tolerance : number) (st : State)
  : State :=
  if Str.isEmpty content then st
  else
    let st := setIsLoading true st in
    let st := setError None st in
    let st := setGroupedTrades None st in
    let st :=
      match processReport (parseFromString content) tolerance with
      | Resolved result =>
          setLastProcessedContent (Some content) (setGroupedTrades (Some result) st)
      | Rejected err => setError (Some (message err)) st
      end in
    setIsLoading false st.

Definition handleToleranceChange (value : string) (st : State) : State :=
  let newTolerance := orZero (parseFloat value) in
  let st := setBeTolerance newTolerance st in
  match lastProcessedContent st with
  | Some content => handleProcessReport content newTolerance st
  | None => st
  end.

(** The events: a file is chosen ([handleFileChange], which shows its
    name and starts reading it); the text of a chosen file has been read
    ([reader.onload], which processes it with the tolerance of the render
    in which the file was chosen); a tolerance is typed. *)
Inductive Event : Type :=
| FileChosen (name : string)
| FileLoaded (content : string) (tolerance : number)
| ToleranceTyped (value : string).

Definition step (st : State) (e : Event) : State :=
  match e with
  | FileChosen name => setFileName (Some name) st
  | FileLoaded content tolerance => handleProcessReport content tolerance st
  | ToleranceTyped value => handleToleranceChange value st
  end.

Definition run (events : list Event) (st : State) : State := fold_left step events st.

End Handlers.

End App.

(** * Reference definitions

    What the properties of the last part are stated with.  Nothing here is
    run by the program: these are the rules of the specification, the
    quantities that the loops maintain and the examples on which the
    properties are tried. *)

(** ** The order of the numbers *)

(** A number that is not [NaN], placed in the lexicographic order of
    triples of integers: the sign class, then the exponent, then the
    mantissa, the last two reversed below zero. *)
Definition rank (x : number) : Z * Z * Z :=
  match x with
  | S754_infinity true => (-2, 0, 0)
  | S754_finite true m e => (-1, - e, - Zpos m)
  | S754_finite false m e => (1, e, Zpos m)
  | S754_infinity false => (2, 0, 0)
  | _ => (0, 0, 0)
  end.

Definition below (a b : Z * Z * Z) : Prop :=
  let '(a1, a2, a3) := a in
  let '(b1, b2, b3) := b in
  a1 < b1 \/ (a1 = b1 /\ (a2 < b2 \/ (a2 = b2 /\ a3 < b3))).

(** ** Classification *)

(** The bucket that the three branches of the first loop choose. *)
Definition bucketOf (beTolerance : number) (t : Trade) : bucketName :=
  if gt (profit t) beTolerance then Winners
  else if ge (profit t) (neg beTolerance) && le (profit t) beTolerance then Breakeven
  else Losers.

Definition sameBucket (a b : bucketName) : bool :=
  match a, b with
  | Winners, Winners | Breakeven, Breakeven | Losers, Losers => true
  | _, _ => false
  end.

(** The trade belongs to bucket [n] of the group of instrument [k]. *)
Definition placed (beTolerance : number) (n : bucketName) (k : string) (t : Trade) : bool :=
  String.eqb (item t) k && sameBucket (bucketOf beTolerance t) n.

Definition hasItem (k : string) (t : Trade) : bool := String.eqb (item t) k.

Definition isWinner (beTolerance : number) (t : Trade) : bool := gt (profit t) beTolerance.

(** ** Deduplication of the winner candidates *)

(** What the first loop does to [winnersMap] on a winner candidate. *)
Definition keepBest (m : WinnersMap) (t : Trade) : WinnersMap :=
  match mapGet m (dedupKey t) with
  | Some existing => if gt (profit t) (profit existing) then mapSet m (dedupKey t) t else m
  | None => mapSet m (dedupKey t) t
  end.

(** [winnersMap] after the first loop has run over [ts], starting from [m]. *)
Definition dedupFrom (beTolerance : number) (ts : list Trade) (m : WinnersMap) : WinnersMap :=
  fold_left (fun m t => if gt (profit t) beTolerance then keepBest m t else m) ts m.

(** The winners that the second loop pushes, in its order. *)
Definition survivors (beTolerance : number) (ts : list Trade) : list Trade :=
  mapValues (dedupFrom beTolerance ts []).

(** The winner candidates of key [k]. *)
Definition candidate (beTolerance : number) (k : string) (t : Trade) : bool :=
  gt (profit t) beTolerance && String.eqb (dedupKey t) k.

Definition hasKey (k : string) (t : Trade) : bool := String.eqb (dedupKey t) k.

(** The rule of the specification: keep the strictly greater profit, the
    one seen first on a tie. *)
Definition better (kept : option Trade) (t : Trade) : option Trade :=
  match kept with
  | Some b => if gt (profit t) (profit b) then Some t else Some b
  | None => Some t
  end.

Definition bestFrom (l : list Trade) (kept : option Trade) : option Trade :=
  fold_left better l kept.

(** [w] is the first of the trades of greatest profit in [l]: those before
    it have a smaller profit, those after it none greater. *)
Definition firstBest (l : list Trade) (w : Trade) : Prop :=
  exists pre post,
    l = (pre ++ w :: post)%list /\
    Forall (fun c => gt (profit w) (profit c) = true) pre /\
    Forall (fun c => le (profit c) (profit w) = true) post.

(** The invariant of [winnersMap]: distinct keys, each entry a winner
    candidate filed under its own key that occurs in the list [ts]. *)
Definition wellKeyed (beTolerance : number) (ts : list Trade) (m : WinnersMap) : Prop :=
  NoDup (map fst m) /\
  forall k v, In (k, v) m -> dedupKey v = k /\ gt (profit v) beTolerance = true /\ In v ts.

(** ** The object [grouped] along the three loops *)

(** The group of [k] after the first loop has run over [ts], from the
    group [b] that it had before, if any. *)
Definition grow (beTolerance : number) (ts : list Trade) (k : string) (b : option Buckets)
  : option Buckets :=
  match b with
  | Some b => Some (mkBuckets (winners b)
                      (breakeven b ++ filter (placed beTolerance Breakeven k) ts)
                      (losers b ++ filter (placed beTolerance Losers k) ts))
  | None => if existsb (fun t => String.eqb (item t) k) ts && negb (inherited k)
            then Some (mkBuckets [] (filter (placed beTolerance Breakeven k) ts)
                                 (filter (placed beTolerance Losers k) ts))
            else None
  end.

(** The group of [k] after the second loop has pushed the winners [ws]. *)
Definition addWinners (ws : list Trade) (k : string) (b : Buckets) : Buckets :=
  mkBuckets (winners b ++ filter (hasItem k) ws) (breakeven b) (losers b).

(** The third loop turns the group [b] into [b']. *)
Definition sortedFrom (b b' : Buckets) : Prop :=
  sort byOpenTime (winners b) = Ok (winners b') /\
  sort byOpenTime (breakeven b) = Ok (breakeven b') /\
  sort byOpenTime (losers b) = Ok (losers b').

(** No own property of [grouped] shadows a member of [Object.prototype]. *)
Definition cleanKeys (g : GroupedTrades) : Prop :=
  forall k, getOwn g k <> None -> inherited k = false.

(** ** The trades of the result *)

Definition bucketsOf (b : Buckets) : list Trade :=
  (winners b ++ breakeven b ++ losers b)%list.

(** All the trades of the result, and all its winners. *)
Definition allTrades (g : GroupedTrades) : list Trade :=
  flat_map (fun e => bucketsOf (snd e)) g.

Definition allWinners (g : GroupedTrades) : list Trade :=
  flat_map (fun e => winners (snd e)) g.

(** What is kept of the input: the surviving winners and every trade that
    is not a winner candidate. *)
Definition kept (beTolerance : number) (ts : list Trade) : list Trade :=
  (survivors beTolerance ts ++ filter (fun t => negb (isWinner beTolerance t)) ts)%list.

(** A winner candidate superseded by a kept winner of its key. *)
Definition supersededIn (beTolerance : number) (g : GroupedTrades) (d : Trade) : Prop :=
  isWinner beTolerance d = true /\
  exists w, In w (allWinners g) /\ dedupKey w = dedupKey d /\ le (profit d) (profit w) = true.

(** ** Open times *)

(** The true open time of a trade, when its [openTimeRaw] names one. *)
Definition openTime (t : Trade) : option Z :=
  match parseMT4DateToUTC (openTimeRaw t) with
  | Ok (Some z) => Some z
  | _ => None
  end.

Definition timed (t : Trade) : Prop := exists z, openTime t = Some z.

(** [a] opens no later than [b], both open times being dates. *)
Definition opensNoLater (a b : Trade) : Prop :=
  match openTime a, openTime b with
  | Some x, Some y => x <= y
  | _, _ => False
  end.

(** The trades whose open time is the instant [v]. *)
Definition opensAtTime (v : Z) (t : Trade) : bool :=
  match openTime t with
  | Some z => z =? v
  | None => false
  end.

(** The same on the open time made total, for the lemmas on [sort]. *)
Definition timeOf (t : Trade) : Z :=
  match openTime t with
  | Some z => z
  | None => 0
  end.

Definition notAfter (a b : Trade) : Prop := timeOf a <= timeOf b.

Definition opensAt (v : Z) (t : Trade) : bool := timeOf t =? v.

(** ** The rows of the report *)

Definition Rows : Type := list (list string).

(** The table is the one of the closed transactions. *)
Definition hasMarker (t : Table) : bool :=
  Str.includes (textContent t) "Closed Transactions:".

(** The trades that [processReport] reads from a table. *)
Definition tradesOf (t : Table) : list Trade :=
  map (fun r => tradeOfRow (snd r)) (closedRows (rows t) 0 false).

(** A header row stands before row [i]. *)
Definition headerBefore (rs : Rows) (i : nat) : Prop :=
  exists s r, (s < i)%nat /\ nth_error rs s = Some r /\ isHeaderRow r = true.

(** The loop has started at row [i]: [isProcessing] was true from the
    beginning, or a header row stands before. *)
Definition started (isProcessing : bool) (rs : Rows) (i : nat) : Prop :=
  isProcessing = true \/ headerBefore rs i.

(** Row [j] ends the section: it is met after the loop has started, it is
    no header row and its first cell names the next section. *)
Definition endsSection (isProcessing : bool) (rs : Rows) (j : nat) : Prop :=
  exists r, nth_error rs j = Some r /\ isHeaderRow r = false /\
            isNextSection r = true /\ started isProcessing rs j.

(** The rule by which row [i], of cells [cells], becomes a trade. *)
Definition tradeRowRule (isProcessing : bool) (rs : Rows) (i : nat) (cells : list string)
  : Prop :=
  nth_error rs i = Some cells /\
  started isProcessing rs i /\
  (forall j, (j <= i)%nat -> ~ endsSection isProcessing rs j) /\
  isHeaderRow cells = false /\
  isTradeRow cells = true.

(** The rule as the specification words it: after a row that holds the
    marker, before every row that names the next section. *)
Definition holdsMarker (cells : list string) : bool :=
  existsb (fun c => Str.includes c "Closed Transactions:") cells.

Definition statedRowRule (rs : Rows) (i : nat) (cells : list string) : Prop :=
  nth_error rs i = Some cells /\
  (exists s r, (s < i)%nat /\ nth_error rs s = Some r /\ holdsMarker r = true) /\
  (forall j r, nth_error rs j = Some r -> isNextSection r = true -> (i < j)%nat) /\
  List.length cells = 14%nat /\
  isNaN (parseFloat (cell cells 0)) = false.

(** ** Well-formed MT4 dates and the instants they name *)

Definition digitChar (d : Z) : ascii := ascii_of_N (Z.to_N (48 + d)).

Definition pad2 (n : Z) : string :=
  String (digitChar (n / 10)) (String (digitChar (n mod 10)) EmptyString).

Definition pad4 (n : Z) : string :=
  String (digitChar (n / 1000)) (String (digitChar (n / 100 mod 10)) (pad2 (n mod 100))).

(** The string [YYYY.MM.DD HH:MM:SS] of the six fields. *)
Definition dateText (Y M D : Z) : string :=
  (pad4 Y ++ String "." (pad2 M ++ String "." (pad2 D)))%string.

Definition timeText (h m s : Z) : string :=
  (pad2 h ++ String ":" (pad2 m ++ String ":" (pad2 s)))%string.

Definition mt4Date (Y M D h m s : Z) : string :=
  (dateText Y M D ++ String " " (timeText h m s))%string.

(** The day number, counted from 1970-01-01, of a date of the proleptic
    Gregorian calendar, by the usual era arithmetic: years from March,
    eras of 400 years. *)
Definition daysFromCivil (y m d : Z) : Z :=
  let y := if m <=? 2 then y - 1 else y in
  let era := y / 400 in
  let yoe := y - era * 400 in
  let mp := (m + 9) mod 12 in
  let doy := (153 * mp + 2) / 5 + d - 1 in
  let doe := yoe * 365 + yoe / 4 - yoe / 100 + doy in
  era * 146097 + doe - 719468.

(** The instant, in milliseconds from the epoch, that the six fields name
    when read as UTC. *)
Definition instant (Y M D h m s : Z) : Z :=
  daysFromCivil Y M D * 86400000 + h * 3600000 + m * 60000 + s * 1000.

(** The calendar fields of an instant. *)
Definition fieldsOf (t : Z) : PineScriptTimestamp :=
  {| year := Some (JsDate.YearFromTime t);
     month := Some (JsDate.MonthFromTime t + 1);
     day := Some (JsDate.DateFromTime t);
     hours := Some (JsDate.HourFromTime t);
     minutes := Some (JsDate.MinFromTime t) |}.

(** The leap day of a year, and the number of days of month [M] (1 to 12)
    in a year with that leap day. *)
Definition leapDay (y : Z) : Z := if JsDate.DaysInYear y =? 366 then 1 else 0.

Definition daysInMonth (M leap : Z) : Z :=
  (if M =? 12 then 365 + leap else JsDate.monthStart M leap) - JsDate.monthStart (M - 1) leap.

(** The two quantities of [daysFromCivil] that depend on the month. *)
Definition beforeMarch (m : Z) : Z := if m <=? 2 then 1 else 0.

Definition marchDays (m : Z) : Z := (153 * ((m + 9) mod 12) + 2) / 5.

(** [f] holds of the [n] integers from [z] on. *)
Fixpoint allFrom (f : Z -> bool) (z : Z) (n : nat) : bool :=
  match n with
  | O => true
  | S k => f z && allFrom f (z + 1) k
  end.

(** No space, dot or colon is in [s]: [split] leaves it whole. *)
Definition plain (s : string) : bool :=
  match Str.split " " s, Str.split "." s, Str.split ":" s with
  | [x], [y], [z] => String.eqb x s && String.eqb y s && String.eqb z s
  | _, _, _ => false
  end.

(** [Number] reads the four digits of [n] as [n]. *)
Definition readsAs4 (n : Z) : bool :=
  plain (pad4 n) &&
  match truncate (ofString (pad4 n)) with Some v => v =? n | None => false end.

(** [Number] reads the two digits of [n] as [n], and the month before it
    as [n - 1]. *)
Definition readsAs2 (n : Z) : bool :=
  plain (pad2 n) &&
  match truncate (ofString (pad2 n)), truncate (sub (ofString (pad2 n)) (ofZ 1)) with
  | Some v, Some w => (v =? n) && (w =? n - 1)
  | _, _ => false
  end.

(** ** The text of a script *)

(** The number of places of [s] at which [needle] starts. *)
Fixpoint occurrences (needle s : string) : nat :=
  (if prefix needle s then 1 else 0) +
  match s with
  | EmptyString => 0
  | String _ s' => occurrences needle s'
  end.

(** The occurrences of [needle] in the text of a template, the substituted
    values left aside. *)
Fixpoint written (needle : string) (t : template) : nat :=
  match t with
  | [] => 0
  | Text s :: t' => occurrences needle s + written needle t'
  | Value _ :: t' => written needle t'
  end.

(** The value substituted just after the text [before]. *)
Fixpoint valueAfter (before : string) (t : template) : option string :=
  match t with
  | Text s :: ((Value v :: _) as t') =>
      if String.eqb s before then Some v else valueAfter before t'
  | _ :: t' => valueAfter before t'
  | [] => None
  end.

(** The colour tokens of a statement: how often green, blue and red are
    written in it. *)
Definition colours (t : template) : nat * nat * nat :=
  (written "color.green" t, written "color.blue" t, written "color.red" t).

(** The occurrences of [needle] in the substituted values. *)
Fixpoint substituted (needle : string) (t : template) : nat :=
  match t with
  | [] => 0
  | Text _ :: t' => substituted needle t'
  | Value v :: t' => occurrences needle v + substituted needle t'
  end.

(** Some end of [s] begins [needle] without holding it whole: an
    occurrence could start in [s] and end in what follows. *)
Fixpoint hangs (needle s : string) : bool :=
  match s with
  | EmptyString => false
  | String _ s' => (prefix s needle && negb (prefix needle s)) || hangs needle s'
  end.

(** The ends of [s], the whole string apart. *)
Fixpoint tails (s : string) : list string :=
  match s with
  | EmptyString => []
  | String _ s' => s' :: tails s'
  end.

(** No end of [needle] begins with [b] or begins [b]: no occurrence that
    starts before [b] runs into it. *)
Definition blocks (needle b : string) : bool :=
  forallb (fun u => Str.isEmpty u || (negb (prefix u b) && negb (prefix b u))) (tails needle).

(** No occurrence of [needle] lies across two pieces of the template,
    whatever the values are: no text ends with a beginning of [needle],
    and a text follows each value that is not the last piece and blocks
    [needle]. *)
Fixpoint tight (needle : string) (t : template) : bool :=
  match t with
  | [] => true
  | Text a :: t' => negb (hangs needle a) && tight needle t'
  | Value _ :: t' =>
      match t' with
      | [] => true
      | Text b :: _ => blocks needle b
      | Value _ :: _ => false
      end && tight needle t'
  end.

(** Every character of [s] is one of [P]. *)
Fixpoint uses (P : ascii -> bool) (s : string) : bool :=
  match s with
  | EmptyString => true
  | String c s' => P c && uses P s'
  end.

(** The characters of a printed number: the digits, the signs, the point,
    the exponent mark and the letters of [Infinity] and [NaN]. *)
Definition numeral (c : ascii) : bool :=
  isDigit c ||
  existsb (Ascii.eqb c) ["-"; "+"; "."; "e"; "I"; "n"; "f"; "i"; "t"; "y"; "N"; "a"]%char.

(** The characters other than the letters a-z. *)
Definition notLower (c : ascii) : bool :=
  let n := N_of_ascii c in negb ((97 <=? n) && (n <=? 122))%N.

(** The tokens of the markers: the two calls, the three colours and the
    two styles of a loser. *)
Definition markerTokens : list string :=
  ["label.new("; "line.new("; "color.green"; "color.blue"; "color.red";
   "label.style_triangleup"; "label.style_triangledown"].

(** [s] holds none of the tokens. *)
Definition tokenFree (s : string) : bool :=
  forallb (fun token => (occurrences token s =? 0)%nat) markerTokens.

(** The texts of the report that the tooltips of a trade quote. *)
Definition quotedTexts (type_ : labelType) (t : Trade) : list string :=
  match type_ with
  | winner => [ticket t; openTimeRaw t; closeTimeRaw t]
  | _ => [ticket t; openTimeRaw t]
  end.

(** How often green, blue and red occur in a string. *)
Definition seen (s : string) : nat * nat * nat :=
  (occurrences "color.green" s, occurrences "color.blue" s, occurrences "color.red" s).

(** The template literal of a tooltip, in pieces. *)
Definition tooltipPieces (trade : Trade) (what when : string) (price : number) : template :=
  [Text "Ticket: "; Value (ticket trade); Text ("\n" ++ what ++ ": "); Value when;
   Text " @ "; Value (toString price); Text "\nProfit: "; Value (toFixed2 (profit trade))].

(** ** Examples *)

(** A closed trade on [item_] with the given ticket and profit, opened on
    2025.06.25 at 16:09:01 at the price 1.1. *)
Definition sampleTrade (ticket_ item_ : string) (profit_ : Z) : Trade :=
  {| ticket := ticket_;
     openTimeRaw := "2025.06.25 16:09:01";
     type := "buy";
     size := parseFloat "0.10";
     item := item_;
     openPrice := parseFloat "1.1000";
     closeTimeRaw := "2025.06.25 17:09:01";
     closePrice := parseFloat "1.1050";
     profit := ofZ profit_ |}.

(** A breakeven trade on one instrument, opened at [openTimeRaw_]. *)
Definition timedTrade (ticket_ openTimeRaw_ : string) : Trade :=
  {| ticket := ticket_;
     openTimeRaw := openTimeRaw_;
     type := "sell";
     size := parseFloat "1";
     item := "xauusd";
     openPrice := parseFloat "2350.5";
     closeTimeRaw := "2025.07.01 12:00:00";
     closePrice := parseFloat "2350.5";
     profit := zero |}.

(** A row of fourteen cells with the nine cells that [processReport] reads. *)
Definition reportRow (ticket_ openTime_ type_ size_ item_ openPrice_ closeTime_
                      closePrice_ profit_ : string) : list string :=
  [ticket_; openTime_; type_; size_; item_; openPrice_; "0.00000"; "0.00000";
   closeTime_; closePrice_; "0.00"; "0.00"; "0.00"; profit_].

(** A report of three trades on one instrument, opened and closed
    together: a winner whose ticket cell is [ticket_], a trade at zero and
    a loser. *)
Definition reportOfThree (ticket_ : string) : Document :=
  [mkTable "Closed Transactions: Ticket Open Time Type Size Item Price"
     [["Closed Transactions:"];
      ["Ticket"; "Open Time"; "Type"; "Size"; "Item"; "Price"; "S / L"; "T / P";
       "Close Time"; "Price"; "Commission"; "Taxes"; "Swap"; "Profit"];
      reportRow ticket_ "2025.06.25 16:09:01" "buy" "0.10" "EURUSD" "1.1000"
                "2025.06.25 17:09:01" "1.1050" "50.00";
      reportRow "77002" "2025.06.25 16:09:01" "sell" "0.10" "EURUSD" "1.1000"
                "2025.06.25 17:09:01" "1.1000" "0.00";
      reportRow "77003" "2025.06.25 16:09:01" "buy" "0.10" "EURUSD" "1.1000"
                "2025.06.25 17:09:01" "1.0980" "-20.00"]].

(** A report whose one trade row has the size cell [size_] and the profit
    cell [profit_]. *)
Definition reportWith (size_ profit_ : string) : Document :=
  [mkTable "Closed Transactions: Ticket Open Time Type Size Item Price"
     [["Closed Transactions:"];
      ["Ticket"; "Open Time"; "Type"; "Size"; "Item"; "Price"; "S / L"; "T / P";
       "Close Time"; "Price"; "Commission"; "Taxes"; "Swap"; "Profit"];
      reportRow "77001" "2025.06.25 16:09:01" "buy" size_ "EURUSD" "1.1000"
                "2025.06.25 17:09:01" "1.1050" profit_]].

(** ** Strings that [parseMT4DateToUTC] can split *)

(** The string holds a space: [split(' ')] gives a second part. *)
Definition spaced (s : string) : bool := Str.includes s " ".

(** The open times that [sort] reads: none in an array of fewer than two
    elements, on which the comparator is never called; all of them in a
    longer one. *)
Definition sortable (l : list Trade) : Prop :=
  (List.length l <= 1)%nat \/ Forall (fun t => spaced (openTimeRaw t) = true) l.

(** ** The wall clock seven hours earlier *)

(** The calendar day before the day [D] of month [M] of year [Y]. *)
Definition dayBefore (Y M D : Z) : Z * Z * Z :=
  if 2 <=? D then (Y, M, D - 1)
  else if 2 <=? M then (Y, M - 1, daysInMonth (M - 1) (leapDay Y))
  else (Y - 1, 12, 31).

(** The minute [h:m] of the day [Y.M.D], seven hours earlier. *)
Definition sevenHoursEarlier (Y M D h m : Z) : PineScriptTimestamp :=
  if 7 <=? h then mkTimestamp (Some Y) (Some M) (Some D) (Some (h - 7)) (Some m)
  else
    let '(Y', M', D') := dayBefore Y M D in
    mkTimestamp (Some Y') (Some M') (Some D') (Some (h + 17)) (Some m).

(** ** The parts of a dedup key *)

(** No underscore is in [s]. *)
Fixpoint plainKey (s : string) : bool :=
  match s with
  | EmptyString => true
  | String c s' => negb (Ascii.eqb c "_") && plainKey s'
  end.

(** ** The tokens of the statements *)

(** How often a template writes [label.new(], [line.new(] and the three
    colours. *)
Definition tokens (t : template) : nat * nat * (nat * nat * nat) :=
  (written "label.new(" t, written "line.new(" t, colours t).

(** The tokens of the statements for one trade. *)
Definition tokensOf (type_ : labelType) : nat * nat * (nat * nat * nat) :=
  match type_ with
  | winner => (2, 1, (4, 0, 0))
  | breakevenType => (1, 0, (0, 2, 0))
  | loser => (1, 0, (0, 0, 2))
  end%nat.

(** ** The state of the component between two events *)

(** The spinner is off, the tolerance is a number, the error and the
    results are not both shown, the error is one of the three messages,
    and the results, when shown, hold a trade and are what [processReport]
    resolved to on the content that was processed last. *)
Definition settled (parseFromString : string -> Document) (st : App.State) : Prop :=
  App.isLoading st = false /\
  isNaN (App.beTolerance st) = false /\
  (App.error st = None \/ App.groupedTrades st = None) /\
  (forall m, App.error st = Some m -> exists e, m = message e) /\
  (forall g, App.groupedTrades st = Some g ->
     allTrades g <> [] /\
     exists content tolerance,
       App.lastProcessedContent st = Some content /\
       processReport (parseFromString content) tolerance = Resolved g).

(** A parser for the examples: one text holds the report of one trade,
    every other text holds no table. *)
Definition sampleParser (content : string) : Document :=
  if String.eqb content "report" then reportWith "0.10" "12.50" else [].

(** * Properties *)

Open Scope list_scope.

(** ** The order of the numbers *)

Module NumOrder.

Lemma compare_rank (a b : number) :
  isNaN a = false -> isNaN b = false ->
  match SFcompare a b with
  | Some Lt => below (rank a) (rank b)
  | Some Eq => rank a = rank b
  | Some Gt => below (rank b) (rank a)
  | None => False
  end.
Proof.
  destruct a as [sa|sa| |sa ma ea], b as [sb|sb| |sb mb eb];
    cbn; try discriminate; intros _ _;
    try (destruct sa); try (destruct sb); cbn; try lia; try reflexivity.
  - destruct (Z.compare_spec ea eb); cbn; try lia.
    change (Pos.compare_cont Eq ma mb) with (Pos.compare ma mb).
    destruct (Pos.compare_spec ma mb); cbn; subst; try lia. reflexivity.
  - destruct (Z.compare_spec ea eb); cbn; try lia.
    change (Pos.compare_cont Eq ma mb) with (Pos.compare ma mb).
    destruct (Pos.compare_spec ma mb); cbn; subst; try lia. reflexivity.
Qed.

Lemma below_irrefl a : ~ below a a.
Proof. destruct a as [[a1 a2] a3]; cbn; lia. Qed.

Lemma below_trans a b c : below a b -> below b c -> below a c.
Proof.
  destruct a as [[a1 a2] a3], b as [[b1 b2] b3], c as [[c1 c2] c3]; cbn; lia.
Qed.

Lemma below_asym a b : below a b -> ~ below b a.
Proof. intros H1 H2. exact (below_irrefl a (below_trans _ _ _ H1 H2)). Qed.

Lemma gt_notNaN (a b : number) :
  gt a b = true -> isNaN a = false /\ isNaN b = false.
Proof.
  unfold gt, SFltb. destruct a, b; cbn; try discriminate; auto.
Qed.

Lemma gt_below (a b : number) : gt a b = true -> below (rank b) (rank a).
Proof.
  intros H. destruct (gt_notNaN _ _ H) as [Ha Hb].
  pose proof (compare_rank b a Hb Ha) as C.
  unfold gt, SFltb in H. destruct (SFcompare b a) as [[]|]; try discriminate. exact C.
Qed.

Lemma below_gt (a b : number) :
  isNaN a = false -> isNaN b = false -> below (rank b) (rank a) -> gt a b = true.
Proof.
  intros Ha Hb H. pose proof (compare_rank b a Hb Ha) as C.
  unfold gt, SFltb. destruct (SFcompare b a) as [[]|]; try reflexivity.
  - rewrite C in H. elim (below_irrefl _ H).
  - elim (below_asym _ _ H C).
  - contradiction.
Qed.

Lemma le_cases (a b : number) :
  le a b = true <->
  isNaN a = false /\ isNaN b = false /\ (below (rank a) (rank b) \/ rank a = rank b).
Proof.
  unfold le, SFleb. split.
  - intros H.
    assert (isNaN a = false /\ isNaN b = false) as [Ha Hb]
      by (destruct a, b; cbn in *; try discriminate; auto).
    pose proof (compare_rank a b Ha Hb) as C.
    destruct (SFcompare a b) as [[]|]; try discriminate; auto.
  - intros (Ha & Hb & H). pose proof (compare_rank a b Ha Hb) as C.
    destruct (SFcompare a b) as [[]|]; try reflexivity; try contradiction.
    destruct H as [H|H].
    + elim (below_asym _ _ H C).
    + rewrite H in C. elim (below_irrefl _ C).
Qed.

(** Two numbers, neither [NaN], are comparable. *)
Lemma not_gt_le (a b : number) :
  isNaN a = false -> isNaN b = false -> gt a b = false -> le a b = true.
Proof.
  intros Ha Hb H. apply le_cases. repeat split; auto.
  pose proof (compare_rank b a Hb Ha) as C.
  unfold gt, SFltb in H. destruct (SFcompare b a) as [[]|]; try discriminate; auto.
  contradiction.
Qed.

Lemma le_not_gt (a b : number) : le a b = true -> gt a b = false.
Proof.
  intros H. apply le_cases in H. destruct H as (Ha & Hb & H).
  destruct (gt a b) eqn:G; auto. apply gt_below in G.
  destruct H as [H|H].
  - elim (below_asym _ _ H G).
  - rewrite H in G. elim (below_irrefl _ G).
Qed.

Lemma le_gt_trans (a b c : number) : le a b = true -> gt c b = true -> gt c a = true.
Proof.
  intros H G. apply le_cases in H. destruct H as (Ha & Hb & H).
  destruct (gt_notNaN _ _ G) as [Hc _]. apply gt_below in G.
  apply below_gt; auto. destruct H as [H|H].
  - eapply below_trans; eauto.
  - rewrite H. exact G.
Qed.

Lemma gt_trans (a b c : number) : gt a b = true -> gt b c = true -> gt a c = true.
Proof.
  intros G1 G2. destruct (gt_notNaN _ _ G1) as [Ha _], (gt_notNaN _ _ G2) as [_ Hc].
  apply below_gt; auto. eapply below_trans; eapply gt_below; eauto.
Qed.

Lemma gt_le (a b : number) : gt a b = true -> le b a = true.
Proof.
  intros G. destruct (gt_notNaN _ _ G) as [Ha Hb].
  apply le_cases. repeat split; auto. left. apply gt_below; auto.
Qed.

Lemma le_refl (a : number) : isNaN a = false -> le a a = true.
Proof. intros H. apply le_cases. auto. Qed.

End NumOrder.
Import NumOrder.

(** ** The passes of [classifyAndGroupTrades] *)

Lemma bind_Ok {A B} (r : Res A) (k : A -> Res B) (b : B) :
  bind r k = Ok b -> exists a, r = Ok a /\ k a = Ok b.
Proof. destruct r; cbn; [eauto | discriminate]. Qed.

Lemma getOwn_setOwn g k b k' :
  getOwn (setOwn g k b) k' = if String.eqb k k' then Some b else getOwn g k'.
Proof.
  induction g as [|[k0 b0] g IH]; cbn.
  - reflexivity.
  - destruct (String.eqb_spec k0 k) as [->|N]; cbn.
    + destruct (String.eqb k k'); reflexivity.
    + rewrite IH. destruct (String.eqb_spec k k') as [->|N']; auto.
      destruct (String.eqb_spec k0 k'); congruence.
Qed.

Lemma keys_setOwn g k b :
  map fst (setOwn g k b) =
  match getOwn g k with Some _ => map fst g | None => (map fst g ++ [k])%list end.
Proof.
  induction g as [|[k0 b0] g IH]; cbn; auto.
  destruct (String.eqb_spec k0 k) as [->|N]; cbn; auto.
  rewrite IH. destruct (getOwn g k); reflexivity.
Qed.

Lemma getOwn_None_keys g k : getOwn g k = None <-> ~ In k (map fst g).
Proof.
  induction g as [|[k0 b0] g IH]; cbn.
  - tauto.
  - destruct (String.eqb_spec k0 k) as [->|N].
    + split; [discriminate | intros H; elim H; auto].
    + rewrite IH. tauto.
Qed.

Lemma NoDup_setOwn g k b : NoDup (map fst g) -> NoDup (map fst (setOwn g k b)).
Proof.
  intros H. rewrite keys_setOwn. destruct (getOwn g k) eqn:E; auto.
  apply getOwn_None_keys in E.
  apply NoDup_rev in H. rewrite <- (rev_involutive (_ ++ _)). apply NoDup_rev.
  rewrite rev_app_distr. cbn. constructor; auto. now rewrite <- in_rev.
Qed.

Lemma getOwn_In g k b : NoDup (map fst g) -> (getOwn g k = Some b <-> In (k, b) g).
Proof.
  induction g as [|[k0 b0] g IH]; cbn; intros H.
  - split; [discriminate | tauto].
  - inversion H as [|? ? Hn Hd]; subst.
    destruct (String.eqb_spec k0 k) as [->|N].
    + split.
      * intros [= ->]; auto.
      * intros [[= ->]|Hin]; auto. elim Hn. apply (in_map fst) in Hin. exact Hin.
    + rewrite (IH Hd). split; auto. intros [[= -> ->]|Hin]; [congruence | auto].
Qed.

Lemma grow_cons beTolerance t ts k b :
  grow beTolerance (t :: ts) k b = grow beTolerance ts k (grow beTolerance [t] k b).
Proof.
  unfold grow, placed. cbn [filter existsb].
  destruct b as [b|], (String.eqb (item t) k), (inherited k),
    (sameBucket (bucketOf beTolerance t) Breakeven) eqn:E1,
    (sameBucket (bucketOf beTolerance t) Losers) eqn:E2;
    cbn; rewrite <- ?app_assoc, ?andb_false_r; try reflexivity;
    destruct (bucketOf beTolerance t); discriminate.
Qed.

Lemma getOwn_ensureGroup g k k' :
  getOwn (ensureGroup g k) k' =
  match getOwn g k' with
  | Some b => Some b
  | None => if String.eqb k k' && negb (inherited k') then Some (mkBuckets [] [] []) else None
  end.
Proof.
  unfold ensureGroup.
  destruct (getOwn g k) eqn:E; [|destruct (inherited k) eqn:I];
    rewrite ?getOwn_setOwn;
    (destruct (String.eqb_spec k k') as [Q|N];
     [subst k'; rewrite ?E, ?I; reflexivity | cbn; destruct (getOwn g k'); reflexivity]).
Qed.

Lemma NoDup_ensureGroup g k : NoDup (map fst g) -> NoDup (map fst (ensureGroup g k)).
Proof.
  intros H. unfold ensureGroup. destruct (getOwn g k); auto.
  destruct (inherited k); auto. now apply NoDup_setOwn.
Qed.

Lemma push_Ok n g k t g' :
  push n g k t = Ok g' ->
  exists b, getOwn g k = Some b /\ g' = setOwn g k (pushTo n b t).
Proof.
  unfold push. destruct (getOwn g k) as [b|]; [|discriminate].
  intros [= <-]. eauto.
Qed.

Lemma firstPass_step beTolerance g m t g' m' :
  firstPass beTolerance (g, m) t = Ok (g', m') ->
  m' = (if gt (profit t) beTolerance then keepBest m t else m) /\
  (NoDup (map fst g) -> NoDup (map fst g')) /\
  forall k, getOwn g' k = grow beTolerance [t] k (getOwn g k).
Proof.
  unfold firstPass, keepBest, grow, placed, bucketOf. cbn [filter existsb].
  destruct (gt (profit t) beTolerance) eqn:W.
  - intros H.
    assert (g' = ensureGroup g (item t) /\
            m' = match mapGet m (dedupKey t) with
                 | Some existing =>
                     if gt (profit t) (profit existing) then mapSet m (dedupKey t) t else m
                 | None => mapSet m (dedupKey t) t
                 end) as [-> ->].
    { destruct (mapGet m (dedupKey t)) as [ex|];
        [destruct (gt (profit t) (profit ex))|]; inversion H; auto. }
    split; [reflexivity|]. split; [apply NoDup_ensureGroup|].
    intros k. rewrite getOwn_ensureGroup.
    destruct (getOwn g k) as [b|], (String.eqb (item t) k), (inherited k);
      cbn; rewrite ?app_nil_r; try reflexivity; destruct b; reflexivity.
  - destruct (ge (profit t) (neg beTolerance) && le (profit t) beTolerance) eqn:B;
      intros H; apply bind_Ok in H; destruct H as (g1 & P & [= <- <-]);
      apply push_Ok in P; destruct P as (b & Hb & ->);
      (split; [reflexivity|]); (split; [intros; apply NoDup_setOwn, NoDup_ensureGroup; auto|]);
      intros k; rewrite getOwn_setOwn; rewrite getOwn_ensureGroup in Hb;
      rewrite String.eqb_refl in Hb; cbn in Hb;
      (destruct (String.eqb_spec (item t) k) as [Q|N];
       [ subst k; destruct (getOwn g (item t)) as [b0|];
         [ injection Hb as <- | destruct (inherited (item t)); [discriminate|];
           injection Hb as <- ]
       | rewrite getOwn_ensureGroup;
         destruct (String.eqb_spec (item t) k) as [Q|_]; [contradiction|];
         destruct (getOwn g k) as [[]|] ];
       cbn; rewrite ?app_nil_r; reflexivity).
Qed.

Lemma firstPass_run beTolerance ts : forall g m g' m',
  forEach (firstPass beTolerance) ts (g, m) = Ok (g', m') ->
  m' = dedupFrom beTolerance ts m /\
  (NoDup (map fst g) -> NoDup (map fst g')) /\
  forall k, getOwn g' k = grow beTolerance ts k (getOwn g k).
Proof.
  induction ts as [|t ts IH]; intros g m g' m' H.
  - injection H as <- <-. split; [reflexivity|]. split; [auto|].
    intros k. cbn. destruct (getOwn g k) as [[]|]; cbn; rewrite ?app_nil_r; reflexivity.
  - cbn [forEach] in H. apply bind_Ok in H. destruct H as ([g1 m1] & S1 & H).
    apply firstPass_step in S1. destruct S1 as (-> & N1 & G1).
    apply IH in H. destruct H as (-> & N2 & G2).
    split; [reflexivity|]. split; [auto|].
    intros k. rewrite G2, G1. symmetry. apply grow_cons.
Qed.

Lemma secondPass_run ws : forall g g',
  forEach secondPass ws g = Ok g' ->
  (NoDup (map fst g) -> NoDup (map fst g')) /\
  forall k, getOwn g' k = option_map (addWinners ws k) (getOwn g k).
Proof.
  induction ws as [|w ws IH]; intros g g' H.
  - injection H as <-. split; auto. intros k.
    destruct (getOwn g k) as [[]|]; cbn; unfold addWinners; cbn; rewrite ?app_nil_r; reflexivity.
  - cbn [forEach] in H. apply bind_Ok in H. destruct H as (g1 & P & H).
    apply push_Ok in P. destruct P as (b & Hb & ->).
    apply IH in H. destruct H as (N & G). split.
    + intros D. apply N, NoDup_setOwn, D.
    + intros k. rewrite G, getOwn_setOwn. unfold addWinners, hasItem. cbn [filter].
      destruct (String.eqb_spec (item w) k) as [Q|Q].
      * subst k. rewrite Hb. cbn. rewrite <- app_assoc. reflexivity.
      * destruct (getOwn g k); reflexivity.
Qed.

Lemma thirdPass_run g : forall g',
  thirdPass g = Ok g' ->
  map fst g' = map fst g /\
  forall k, match getOwn g k with
            | Some b => exists b', getOwn g' k = Some b' /\ sortedFrom b b'
            | None => getOwn g' k = None
            end.
Proof.
  induction g as [|[k0 b0] g IH]; intros g' H.
  - injection H as <-. split; [reflexivity | intros k; reflexivity].
  - cbn [thirdPass] in H.
    apply bind_Ok in H. destruct H as (w & Hw & H).
    apply bind_Ok in H. destruct H as (e & He & H).
    apply bind_Ok in H. destruct H as (l & Hl & H).
    apply bind_Ok in H. destruct H as (r & Hr & [= <-]).
    destruct (IH _ Hr) as (K & G). split.
    + cbn. now rewrite K.
    + intros k. cbn. destruct (String.eqb k0 k).
      * eexists. split; [reflexivity|]. repeat split; assumption.
      * apply G.
Qed.

Theorem classify_spec ts beTolerance g :
  classifyAndGroupTrades ts beTolerance = Ok g ->
  NoDup (map fst g) /\
  forall k,
    match getOwn g k with
    | Some b =>
        existsb (hasItem k) ts = true /\ inherited k = false /\
        sortedFrom (mkBuckets (filter (hasItem k) (survivors beTolerance ts))
                              (filter (placed beTolerance Breakeven k) ts)
                              (filter (placed beTolerance Losers k) ts)) b
    | None => existsb (hasItem k) ts && negb (inherited k) = false
    end.
Proof.
  unfold classifyAndGroupTrades. intros H.
  apply bind_Ok in H. destruct H as ([g1 m1] & H1 & H).
  apply bind_Ok in H. destruct H as (g2 & H2 & H3).
  apply firstPass_run in H1. destruct H1 as (-> & N1 & G1).
  apply secondPass_run in H2. destruct H2 as (N2 & G2).
  apply thirdPass_run in H3. destruct H3 as (K3 & G3).
  split.
  - rewrite K3. apply N2, N1. constructor.
  - intros k. specialize (G3 k). rewrite G2, G1 in G3. cbn in G3.
    fold (hasItem k) in G3.
    destruct (existsb (hasItem k) ts && negb (inherited k)) eqn:E; cbn in G3.
    + destruct G3 as (b' & -> & S). apply andb_true_iff in E. destruct E as [E1 E2].
      apply negb_true_iff in E2. auto.
    + rewrite G3. reflexivity.
Qed.

(** ** [Array.prototype.sort] with the comparator of the open times *)

Lemma insert_perm {A} (cmp : A -> A -> Res (option Z)) x l : forall l',
  insert cmp x l = Ok l' -> Permutation (x :: l) l'.
Proof.
  induction l as [|y l IH]; cbn; intros l' H.
  - injection H as <-. apply Permutation_refl.
  - apply bind_Ok in H. destruct H as (c & _ & H). destruct c.
    + apply bind_Ok in H. destruct H as (r & Hr & [= <-]).
      rewrite perm_swap. apply perm_skip. auto.
    + injection H as <-. apply Permutation_refl.
Qed.

Lemma sort_perm {A} (cmp : A -> A -> Res (option Z)) l : forall l',
  sort cmp l = Ok l' -> Permutation l l'.
Proof.
  induction l as [|x l IH]; cbn; intros l' H.
  - injection H as <-. constructor.
  - apply bind_Ok in H. destruct H as (s & Hs & H).
    apply insert_perm in H. rewrite <- H. apply perm_skip. auto.
Qed.

Lemma isAfter_timed x y :
  timed x -> timed y -> isAfter byOpenTime x y = Ok (timeOf y <? timeOf x).
Proof.
  intros [a Ha] [b Hb]. unfold isAfter, byOpenTime, timeOf. rewrite Ha, Hb.
  unfold openTime in Ha, Hb.
  destruct (parseMT4DateToUTC (openTimeRaw x)) as [[a'|]|]; try discriminate.
  destruct (parseMT4DateToUTC (openTimeRaw y)) as [[b'|]|]; try discriminate.
  injection Ha as ->. injection Hb as ->. cbn. f_equal.
  destruct (Z.ltb_spec 0 (a - b)), (Z.ltb_spec b a); auto; lia.
Qed.

Lemma insert_timed x l :
  timed x -> Forall timed l -> Sorted notAfter l ->
  exists l', insert byOpenTime x l = Ok l' /\ Sorted notAfter l' /\
             (forall y, HdRel notAfter y l -> notAfter y x -> HdRel notAfter y l') /\
             forall v, filter (opensAt v) l' = filter (opensAt v) (x :: l).
Proof.
  intros Tx. induction l as [|y l IH]; intros Tl Sl.
  - exists [x]. cbn. repeat split; auto.
  - inversion Tl as [|? ? Ty Tl']; subst. inversion Sl as [|? ? Sl' Hd]; subst.
    cbn [insert]. rewrite (isAfter_timed x y Tx Ty). cbn [bind].
    destruct (Z.ltb_spec (timeOf y) (timeOf x)) as [L|L].
    + destruct (IH Tl' Sl') as (r & -> & Sr & Hr & Fr). cbn [bind].
      exists (y :: r). split; [reflexivity|]. split; [|split].
      * constructor; auto. apply Hr; auto; unfold notAfter; lia.
      * intros z Hz _. inversion Hz; subst. constructor. auto.
      * intros v. cbn [filter]. rewrite Fr. cbn [filter]. unfold opensAt.
        destruct (Z.eqb_spec (timeOf y) v), (Z.eqb_spec (timeOf x) v); auto. lia.
    + exists (x :: y :: l). split; [reflexivity|]. split; [|split].
      * constructor; [exact Sl | constructor; exact L].
      * intros z _ Hz. constructor. exact Hz.
      * reflexivity.
Qed.

Lemma sort_timed l :
  Forall timed l ->
  exists l', sort byOpenTime l = Ok l' /\ Sorted notAfter l' /\
             forall v, filter (opensAt v) l' = filter (opensAt v) l.
Proof.
  induction l as [|x l IH]; intros T.
  - exists []. cbn. auto.
  - inversion T as [|? ? Tx Tl]; subst.
    destruct (IH Tl) as (s & Hs & Ss & Fs). cbn [sort]. rewrite Hs. cbn [bind].
    assert (Forall timed s) as Ts.
    { apply sort_perm in Hs. eapply Permutation_Forall; eauto. }
    destruct (insert_timed x s Tx Ts Ss) as (l' & Hl & Sl & _ & Fl).
    exists l'. split; [exact Hl|]. split; [exact Sl|].
    intros v. rewrite Fl. cbn [filter]. rewrite Fs. reflexivity.
Qed.

(** ** [winnersMap]: what deduplication keeps *)

Lemma mapGet_mapSet m k v k' :
  mapGet (mapSet m k v) k' = if String.eqb k k' then Some v else mapGet m k'.
Proof.
  induction m as [|[k0 v0] m IH]; cbn.
  - reflexivity.
  - destruct (String.eqb_spec k0 k) as [->|N]; cbn.
    + destruct (String.eqb k k'); reflexivity.
    + rewrite IH. destruct (String.eqb_spec k k') as [->|N']; auto.
      destruct (String.eqb_spec k0 k'); congruence.
Qed.

Lemma mapGet_keepBest m t k :
  mapGet (keepBest m t) k =
  if String.eqb (dedupKey t) k then better (mapGet m k) t else mapGet m k.
Proof.
  unfold keepBest, better.
  destruct (String.eqb_spec (dedupKey t) k) as [<-|N].
  - destruct (mapGet m (dedupKey t)) as [ex|] eqn:E.
    + destruct (gt (profit t) (profit ex)).
      * now rewrite mapGet_mapSet, String.eqb_refl.
      * exact E.
    + now rewrite mapGet_mapSet, String.eqb_refl.
  - destruct (mapGet m (dedupKey t)) as [ex|];
      [destruct (gt (profit t) (profit ex))|]; rewrite ?mapGet_mapSet;
      try reflexivity; destruct (String.eqb_spec (dedupKey t) k); congruence.
Qed.

Lemma mapGet_dedupFrom beTolerance ts k : forall m,
  mapGet (dedupFrom beTolerance ts m) k =
  bestFrom (filter (candidate beTolerance k) ts) (mapGet m k).
Proof.
  unfold dedupFrom, bestFrom, candidate.
  induction ts as [|t ts IH]; intros m; cbn [fold_left filter].
  - reflexivity.
  - rewrite IH. destruct (gt (profit t) beTolerance); cbn.
    + rewrite mapGet_keepBest. destruct (String.eqb (dedupKey t) k); reflexivity.
    + reflexivity.
Qed.

Lemma keys_mapSet m k v :
  map fst (mapSet m k v) =
  match mapGet m k with Some _ => map fst m | None => (map fst m ++ [k])%list end.
Proof.
  induction m as [|[k0 b0] m IH]; cbn; auto.
  destruct (String.eqb_spec k0 k) as [->|N]; cbn; auto.
  rewrite IH. destruct (mapGet m k); reflexivity.
Qed.

Lemma mapGet_None_keys m k : mapGet m k = None <-> ~ In k (map fst m).
Proof.
  induction m as [|[k0 b0] m IH]; cbn.
  - tauto.
  - destruct (String.eqb_spec k0 k) as [->|N].
    + split; [discriminate | intros H; elim H; auto].
    + rewrite IH. tauto.
Qed.

Lemma In_mapSet m k v k' v' :
  In (k', v') (mapSet m k v) -> (k' = k /\ v' = v) \/ In (k', v') m.
Proof.
  induction m as [|[k0 v0] m IH]; cbn.
  - intros [[= <- <-]|[]]. auto.
  - destruct (String.eqb_spec k0 k) as [->|N]; cbn.
    + intros [[= <- <-]|H]; auto.
    + intros [H|H]; auto. destruct (IH H); auto.
Qed.

Lemma NoDup_snoc {A} (l : list A) x : NoDup l -> ~ In x l -> NoDup (l ++ [x]).
Proof.
  intros D N. apply NoDup_rev in D. rewrite <- (rev_involutive (_ ++ _)).
  apply NoDup_rev. rewrite rev_app_distr. cbn. constructor; auto. now rewrite <- in_rev.
Qed.

Lemma wellKeyed_mapSet beTolerance ts m t :
  wellKeyed beTolerance ts m -> gt (profit t) beTolerance = true -> In t ts ->
  wellKeyed beTolerance ts (mapSet m (dedupKey t) t).
Proof.
  intros [D I] W T. split.
  - rewrite keys_mapSet. destruct (mapGet m (dedupKey t)) eqn:E; auto.
    apply NoDup_snoc; auto. now apply mapGet_None_keys.
  - intros k v H. apply In_mapSet in H. destruct H as [[-> ->]|H]; auto.
Qed.

Lemma wellKeyed_weaken beTolerance ts ts' m :
  incl ts ts' -> wellKeyed beTolerance ts m -> wellKeyed beTolerance ts' m.
Proof.
  intros S [D I]. split; auto. intros k v H. destruct (I k v H) as (? & ? & ?). auto.
Qed.

Lemma wellKeyed_dedupFrom beTolerance ts : forall pre m,
  wellKeyed beTolerance pre m ->
  wellKeyed beTolerance (pre ++ ts) (dedupFrom beTolerance ts m).
Proof.
  unfold dedupFrom. induction ts as [|t ts IH]; intros pre m H; cbn [fold_left].
  - now rewrite app_nil_r.
  - replace (pre ++ t :: ts)%list with ((pre ++ [t]) ++ ts)%list
      by (rewrite <- app_assoc; reflexivity).
    apply IH.
    assert (wellKeyed beTolerance (pre ++ [t]) m) as H'
      by (eapply wellKeyed_weaken; [|exact H]; apply incl_appl, incl_refl).
    destruct (gt (profit t) beTolerance) eqn:W; auto.
    unfold keepBest.
    destruct (mapGet m (dedupKey t)) as [ex|]; [destruct (gt (profit t) (profit ex))|]; auto;
      apply wellKeyed_mapSet; auto; apply in_or_app; right; left; reflexivity.
Qed.

Lemma mapGet_In m k v : NoDup (map fst m) -> (mapGet m k = Some v <-> In (k, v) m).
Proof.
  induction m as [|[k0 b0] m IH]; cbn; intros H.
  - split; [discriminate | tauto].
  - inversion H as [|? ? Hn Hd]; subst.
    destruct (String.eqb_spec k0 k) as [->|N].
    + split.
      * intros [= ->]; auto.
      * intros [[= ->]|Hin]; auto. elim Hn. apply (in_map fst) in Hin. exact Hin.
    + rewrite (IH Hd). split; auto. intros [[= -> ->]|Hin]; [congruence | auto].
Qed.

(** Among the values of a well-keyed map, the trades of key [k] are the
    entry of [k] alone. *)
Lemma filter_hasKey beTolerance ts m k :
  wellKeyed beTolerance ts m ->
  filter (hasKey k) (mapValues m) = match mapGet m k with Some w => [w] | None => [] end.
Proof.
  intros [D I]. unfold mapValues, hasKey.
  induction m as [|[k0 v0] m IH]; cbn; auto.
  inversion D as [|? ? Hn Hd]; subst.
  assert (forall k v, In (k, v) m ->
          dedupKey v = k /\ gt (profit v) beTolerance = true /\ In v ts) as I'
    by (intros; apply I; right; auto).
  destruct (I k0 v0 (or_introl eq_refl)) as (Kv & _). rewrite Kv.
  destruct (String.eqb_spec k0 k) as [->|N].
  - rewrite (IH Hd I'). apply mapGet_None_keys in Hn. rewrite Hn. reflexivity.
  - apply (IH Hd I').
Qed.

Lemma bestFrom_kept l : forall b,
  isNaN (profit b) = false ->
  Forall (fun c => isNaN (profit c) = false) l ->
  (bestFrom l (Some b) = Some b /\ Forall (fun c => le (profit c) (profit b) = true) l) \/
  (exists w, bestFrom l (Some b) = Some w /\ gt (profit w) (profit b) = true /\ firstBest l w).
Proof.
  unfold bestFrom.
  induction l as [|t l IH]; intros b Nb Nl; cbn [fold_left better].
  - left. auto.
  - inversion Nl as [|? ? Nt Nl']; subst.
    destruct (gt (profit t) (profit b)) eqn:G.
    + right. destruct (IH t Nt Nl') as [[E F]|(w & E & Gw & pre & post & -> & Fp & Fq)].
      * exists t. split; [exact E|]. split; [exact G|].
        exists [], l. cbn. auto.
      * exists w. split; [exact E|]. split; [eapply gt_trans; eauto|].
        exists (t :: pre), post. cbn. auto.
    + destruct (IH b Nb Nl') as [[E F]|(w & E & Gw & pre & post & -> & Fp & Fq)].
      * left. split; [exact E|]. constructor; auto. apply not_gt_le; auto.
      * right. exists w. split; [exact E|]. split; [exact Gw|].
        exists (t :: pre), post. cbn. repeat split; auto. constructor; auto.
        eapply le_gt_trans; [|exact Gw]. apply not_gt_le; auto.
Qed.

Lemma bestFrom_firstBest l :
  l <> [] -> Forall (fun c => isNaN (profit c) = false) l ->
  exists w, bestFrom l None = Some w /\ firstBest l w.
Proof.
  destruct l as [|t l]; [congruence|]. intros _ N.
  inversion N as [|? ? Nt Nl]; subst.
  change (bestFrom (t :: l) None) with (bestFrom l (Some t)).
  destruct (bestFrom_kept l t Nt Nl) as [[E F]|(w & E & Gw & pre & post & -> & Fp & Fq)].
  - exists t. split; [exact E|]. exists [], l. cbn. auto.
  - exists w. split; [exact E|]. exists (t :: pre), post. cbn. auto.
Qed.

Lemma values_mapSet_new m k v :
  mapGet m k = None -> mapValues (mapSet m k v) = (mapValues m ++ [v])%list.
Proof.
  unfold mapValues. induction m as [|[k0 v0] m IH]; cbn; auto.
  destruct (String.eqb k0 k); [discriminate|]. intros H. cbn. now rewrite IH.
Qed.

Lemma values_mapSet_old m k v ex :
  mapGet m k = Some ex ->
  Permutation (v :: mapValues m) (ex :: mapValues (mapSet m k v)).
Proof.
  unfold mapValues. induction m as [|[k0 v0] m IH]; cbn; [discriminate|].
  destruct (String.eqb k0 k).
  - intros [= ->]. cbn. apply perm_swap.
  - intros H. cbn. rewrite perm_swap. rewrite (IH H). apply perm_swap.
Qed.

Lemma keepBest_accounts m t :
  exists dropped,
    Permutation (mapValues m ++ [t]) (mapValues (keepBest m t) ++ dropped).
Proof.
  unfold keepBest. destruct (mapGet m (dedupKey t)) as [ex|] eqn:E;
    [destruct (gt (profit t) (profit ex))|].
  - exists [ex]. rewrite <- !Permutation_cons_append. now apply values_mapSet_old.
  - exists [t]. apply Permutation_refl.
  - exists []. rewrite app_nil_r, (values_mapSet_new _ _ _ E). apply Permutation_refl.
Qed.

Lemma dedupFrom_accounts beTolerance ts : forall m,
  exists dropped,
    Permutation (mapValues m ++ filter (isWinner beTolerance) ts)
                (mapValues (dedupFrom beTolerance ts m) ++ dropped).
Proof.
  unfold dedupFrom, isWinner.
  induction ts as [|t ts IH]; intros m; cbn [fold_left filter].
  - exists []. apply Permutation_refl.
  - destruct (gt (profit t) beTolerance) eqn:W; [|apply IH].
    destruct (keepBest_accounts m t) as (d0 & P0).
    destruct (IH (keepBest m t)) as (d1 & P1).
    exists (d1 ++ d0)%list.
    change (t :: filter (fun t0 => gt (profit t0) beTolerance) ts)
      with ([t] ++ filter (fun t0 => gt (profit t0) beTolerance) ts)%list.
    rewrite !app_assoc. rewrite <- P1. rewrite P0.
    rewrite <- !app_assoc. apply Permutation_app_head. apply Permutation_app_comm.
Qed.

Lemma candidate_kept beTolerance ts d :
  In d ts -> isWinner beTolerance d = true ->
  exists w, mapGet (dedupFrom beTolerance ts []) (dedupKey d) = Some w /\
            firstBest (filter (candidate beTolerance (dedupKey d)) ts) w /\
            le (profit d) (profit w) = true.
Proof.
  intros I W. rewrite mapGet_dedupFrom. cbn [mapGet].
  set (l := filter (candidate beTolerance (dedupKey d)) ts).
  assert (In d l) as Il.
  { apply filter_In. split; auto. unfold candidate. unfold isWinner in W.
    now rewrite W, String.eqb_refl. }
  assert (Forall (fun c => isNaN (profit c) = false) l) as Nl.
  { apply Forall_forall. intros c Hc. apply filter_In in Hc. destruct Hc as [_ Hc].
    unfold candidate in Hc. apply andb_true_iff in Hc. destruct Hc as [Hc _].
    now apply gt_notNaN in Hc. }
  destruct (bestFrom_firstBest l) as (w & E & F); auto.
  { intros Q. rewrite Q in Il. destruct Il. }
  exists w. split; [exact E|]. split; [exact F|].
  destruct F as (pre & post & Q & Fp & Fq). rewrite Q in Il, Nl.
  apply in_app_or in Il. destruct Il as [Il|[<-|Il]].
  - apply gt_le. rewrite Forall_forall in Fp. auto.
  - apply le_refl. rewrite Forall_forall in Nl. apply Nl. apply in_or_app. right. left. auto.
  - rewrite Forall_forall in Fq. auto.
Qed.

(** ** When [classifyAndGroupTrades] returns *)

Lemma cleanKeys_ensureGroup g k : cleanKeys g -> cleanKeys (ensureGroup g k).
Proof.
  intros C k'. rewrite getOwn_ensureGroup. specialize (C k').
  destruct (getOwn g k'); auto. destruct (inherited k'); auto.
  rewrite andb_false_r. congruence.
Qed.

Lemma cleanKeys_push n g k t g' : cleanKeys g -> push n g k t = Ok g' -> cleanKeys g'.
Proof.
  intros C H. apply push_Ok in H. destruct H as (b & Hb & ->).
  intros k'. rewrite getOwn_setOwn. destruct (String.eqb_spec k k') as [<-|N].
  - intros _. apply C. congruence.
  - apply C.
Qed.

Lemma push_present n g k t g' : push n g k t = Ok g' -> getOwn g k <> None.
Proof. intros H. apply push_Ok in H. destruct H as (b & Hb & _). congruence. Qed.

Lemma firstPass_clean beTolerance g m t g' m' :
  cleanKeys g -> firstPass beTolerance (g, m) t = Ok (g', m') ->
  cleanKeys g' /\ (isWinner beTolerance t = false -> inherited (item t) = false).
Proof.
  unfold firstPass, isWinner. intros C.
  pose proof (cleanKeys_ensureGroup g (item t) C) as C1.
  destruct (gt (profit t) beTolerance).
  - intros H. split; [|discriminate].
    destruct (mapGet m (dedupKey t)) as [ex|];
      [destruct (gt (profit t) (profit ex))|]; injection H as <- _; exact C1.
  - destruct (ge (profit t) (neg beTolerance) && le (profit t) beTolerance);
      intros H; apply bind_Ok in H; destruct H as (g1 & P & [= <- _]);
      (split; [eapply cleanKeys_push; eauto | intros _; apply C1; eapply push_present; eauto]).
Qed.

Lemma firstPass_run_clean beTolerance ts : forall g m g' m',
  cleanKeys g -> forEach (firstPass beTolerance) ts (g, m) = Ok (g', m') ->
  cleanKeys g' /\
  forall t, In t ts -> isWinner beTolerance t = false -> inherited (item t) = false.
Proof.
  induction ts as [|t ts IH]; intros g m g' m' C H.
  - injection H as <- _. split; [exact C | intros t []].
  - cbn [forEach] in H. apply bind_Ok in H. destruct H as ([g1 m1] & S1 & H).
    destruct (firstPass_clean _ _ _ _ _ _ C S1) as (C1 & I1).
    destruct (IH _ _ _ _ C1 H) as (C2 & I2). split; auto.
    intros t' [<-|T]; auto.
Qed.

Lemma secondPass_run_clean ws : forall g g',
  cleanKeys g -> forEach secondPass ws g = Ok g' ->
  cleanKeys g' /\ forall w, In w ws -> inherited (item w) = false.
Proof.
  induction ws as [|w ws IH]; intros g g' C H.
  - injection H as <-. split; [exact C | intros w []].
  - cbn [forEach] in H. apply bind_Ok in H. destruct H as (g1 & P & H).
    pose proof (cleanKeys_push _ _ _ _ _ C P) as C1.
    destruct (IH _ _ C1 H) as (C2 & I2). split; auto.
    intros w' [<-|T]; auto. apply C. eapply push_present; eauto.
Qed.

(** Every trade that is kept has a group. *)
Lemma classify_groups ts beTolerance g :
  classifyAndGroupTrades ts beTolerance = Ok g ->
  forall t, In t ts ->
    isWinner beTolerance t = false \/ In t (survivors beTolerance ts) ->
    exists b, getOwn g (item t) = Some b.
Proof.
  intros H t T K.
  assert (inherited (item t) = false) as I.
  { unfold classifyAndGroupTrades in H.
    apply bind_Ok in H. destruct H as ([g1 m1] & H1 & H).
    apply bind_Ok in H. destruct H as (g2 & H2 & H3).
    assert (cleanKeys []) as C0 by (intros k; cbn; congruence).
    destruct (firstPass_run_clean _ _ _ _ _ _ C0 H1) as (C1 & I1).
    destruct (secondPass_run_clean _ _ _ C1 H2) as (C2 & I2).
    apply firstPass_run in H1. destruct H1 as (-> & _).
    destruct K as [K|K]; auto. }
  destruct (classify_spec _ _ _ H) as (_ & S). specialize (S (item t)).
  destruct (getOwn g (item t)) as [b|]; eauto.
  rewrite I in S. cbn in S. rewrite andb_true_r in S.
  assert (existsb (hasItem (item t)) ts = true) as E; [|congruence].
  apply existsb_exists. exists t. split; auto. apply String.eqb_refl.
Qed.

Lemma getOwn_ensured g k : inherited k = false -> getOwn (ensureGroup g k) k <> None.
Proof.
  intros I. rewrite getOwn_ensureGroup, String.eqb_refl, I.
  destruct (getOwn g k); discriminate.
Qed.

Lemma push_total n g k t : getOwn g k <> None -> exists g', push n g k t = Ok g'.
Proof. unfold push. destruct (getOwn g k); [eauto | congruence]. Qed.

Lemma firstPass_total beTolerance ts : forall g m,
  (forall t, In t ts -> inherited (item t) = false) ->
  exists g' m', forEach (firstPass beTolerance) ts (g, m) = Ok (g', m').
Proof.
  induction ts as [|t ts IH]; intros g m I.
  - cbn. eauto.
  - cbn [forEach].
    assert (exists g1 m1, firstPass beTolerance (g, m) t = Ok (g1, m1)) as (g1 & m1 & ->).
    { unfold firstPass.
      pose proof (getOwn_ensured g (item t) (I t (or_introl eq_refl))) as P.
      destruct (gt (profit t) beTolerance).
      - destruct (mapGet m (dedupKey t)) as [ex|];
          [destruct (gt (profit t) (profit ex))|]; eauto.
      - destruct (ge (profit t) (neg beTolerance) && le (profit t) beTolerance);
          [destruct (push_total Breakeven _ _ t P) as (g1 & ->)
          |destruct (push_total Losers _ _ t P) as (g1 & ->)]; cbn; eauto. }
    cbn [bind]. apply IH. intros; apply I; right; auto.
Qed.

Lemma secondPass_total ws : forall g,
  (forall w, In w ws -> getOwn g (item w) <> None) ->
  exists g', forEach secondPass ws g = Ok g'.
Proof.
  induction ws as [|w ws IH]; intros g I.
  - cbn. eauto.
  - cbn [forEach]. unfold secondPass at 1.
    destruct (push_total Winners g (item w) w (I w (or_introl eq_refl))) as (g1 & P).
    rewrite P. cbn [bind]. apply IH. intros w' T.
    apply push_Ok in P. destruct P as (b & Hb & ->). rewrite getOwn_setOwn.
    destruct (String.eqb (item w) (item w')); [discriminate|]. apply I. right. auto.
Qed.

Lemma thirdPass_total g :
  (forall k b, In (k, b) g -> Forall timed (bucketsOf b)) ->
  exists g', thirdPass g = Ok g'.
Proof.
  induction g as [|[k b] g IH]; intros T.
  - cbn. eauto.
  - cbn [thirdPass].
    pose proof (T k b (or_introl eq_refl)) as Tb. unfold bucketsOf in Tb.
    apply Forall_app in Tb. destruct Tb as [Tw Tb].
    apply Forall_app in Tb. destruct Tb as [Te Tl].
    destruct (sort_timed _ Tw) as (w & -> & _).
    destruct (sort_timed _ Te) as (e & -> & _).
    destruct (sort_timed _ Tl) as (l & -> & _).
    destruct IH as (g' & ->); [intros; eapply T; right; eauto|].
    cbn. eauto.
Qed.

Lemma survivors_incl beTolerance ts : incl (survivors beTolerance ts) ts.
Proof.
  intros w H. unfold survivors, mapValues in H. apply in_map_iff in H.
  destruct H as ([k v] & <- & H).
  destruct (wellKeyed_dedupFrom beTolerance ts [] []) as (_ & I).
  - split; [constructor | intros ? ? []].
  - apply (I k v H).
Qed.

(** [classifyAndGroupTrades] returns a result when no instrument is named
    like a member of [Object.prototype] and every open time is a date. *)
Theorem classify_total ts beTolerance :
  (forall t, In t ts -> inherited (item t) = false) ->
  Forall timed ts ->
  exists g, classifyAndGroupTrades ts beTolerance = Ok g.
Proof.
  intros I T. unfold classifyAndGroupTrades.
  destruct (firstPass_total beTolerance ts [] [] I) as (g1 & m1 & H1).
  rewrite H1. cbn [bind].
  pose proof (firstPass_run _ _ _ _ _ _ H1) as (-> & N1 & G1).
  destruct (secondPass_total (mapValues (dedupFrom beTolerance ts [])) g1) as (g2 & H2).
  { intros w W. apply (survivors_incl beTolerance ts) in W.
    rewrite G1. cbn. rewrite (I w W), andb_true_r.
    assert (existsb (fun t => String.eqb (item t) (item w)) ts = true) as ->; [|discriminate].
    apply existsb_exists. exists w. split; auto. apply String.eqb_refl. }
  rewrite H2. cbn [bind].
  pose proof (secondPass_run _ _ _ H2) as (N2 & G2).
  apply thirdPass_total. intros k b H.
  apply getOwn_In in H; [|apply N2, N1; constructor].
  rewrite G2, G1 in H. cbn in H.
  rewrite Forall_forall in T.
  destruct (existsb _ ts && negb (inherited k)); [|discriminate].
  injection H as <-. unfold bucketsOf, addWinners. cbn.
  apply Forall_forall. intros t Ht.
  apply in_app_or in Ht. destruct Ht as [Ht|Ht];
    [|apply in_app_or in Ht; destruct Ht as [Ht|Ht]];
    apply filter_In in Ht; destruct Ht as [Ht _]; auto.
  apply T. now apply (survivors_incl beTolerance ts).
Qed.

(** ** The result as a rearrangement of the input *)

Lemma filter_split {A} (f : A -> bool) l :
  Permutation l (filter f l ++ filter (fun x => negb (f x)) l).
Proof.
  induction l as [|x l IH]; cbn; auto.
  destruct (f x); cbn.
  - now apply perm_skip.
  - rewrite <- Permutation_middle. now apply perm_skip.
Qed.

Lemma flat_map_app_perm {A B} (f h : A -> list B) l :
  Permutation (flat_map (fun x => f x ++ h x) l) (flat_map f l ++ flat_map h l).
Proof.
  induction l as [|x l IH]; cbn; auto.
  rewrite IH, <- !app_assoc. apply Permutation_app_head.
  rewrite !app_assoc. apply Permutation_app_tail. apply Permutation_app_comm.
Qed.

Lemma flat_map_perm_ext {A B} (f h : A -> list B) l :
  (forall x, In x l -> Permutation (f x) (h x)) ->
  Permutation (flat_map f l) (flat_map h l).
Proof.
  induction l as [|x l IH]; cbn; intros H; auto.
  apply Permutation_app; auto.
Qed.

Lemma flat_map_single ks (t : Trade) :
  NoDup ks -> In (item t) ks ->
  flat_map (fun k => if hasItem k t then [t] else []) ks = [t].
Proof.
  unfold hasItem. induction ks as [|k ks IH]; cbn; intros D I; [destruct I|].
  inversion D as [|? ? Hn Hd]; subst.
  destruct (String.eqb_spec (item t) k) as [Q|Q].
  - subst k. cbn. f_equal.
    clear -Hn. induction ks as [|k ks IH]; cbn; auto.
    destruct (String.eqb_spec (item t) k) as [Q|Q].
    + elim Hn. left. auto.
    + apply IH. intros H. apply Hn. right. auto.
  - destruct I as [I|I]; [congruence|]. cbn. apply IH; auto.
Qed.

Lemma by_key ks (l : list Trade) :
  NoDup ks -> (forall t, In t l -> In (item t) ks) ->
  Permutation (flat_map (fun k => filter (hasItem k) l) ks) l.
Proof.
  intros D. induction l as [|t l IH]; intros I.
  - cbn. clear. induction ks as [|k ks IH]; cbn; [constructor | exact IH].
  - cbn [filter].
    transitivity (flat_map (fun k => (if hasItem k t then [t] else []) ++ filter (hasItem k) l) ks)%list.
    + apply flat_map_perm_ext. intros k _. destruct (hasItem k t); apply Permutation_refl.
    + rewrite flat_map_app_perm, flat_map_single; auto; [|apply I; left; auto].
      cbn. apply perm_skip. apply IH. intros; apply I; right; auto.
Qed.

Lemma nonWinners_split beTolerance k ts :
  Permutation (filter (hasItem k) (filter (fun t => negb (isWinner beTolerance t)) ts))
              (filter (placed beTolerance Breakeven k) ts ++
               filter (placed beTolerance Losers k) ts).
Proof.
  unfold placed, hasItem, isWinner, bucketOf.
  induction ts as [|t ts IH]; cbn; auto.
  destruct (gt (profit t) beTolerance); cbn.
  - now rewrite !andb_false_r.
  - destruct (String.eqb (item t) k); cbn; auto.
    destruct (ge (profit t) (neg beTolerance) && le (profit t) beTolerance); cbn.
    + now apply perm_skip.
    + rewrite <- Permutation_middle. now apply perm_skip.
Qed.

Lemma sortedFrom_perm b b' : sortedFrom b b' -> Permutation (bucketsOf b) (bucketsOf b').
Proof.
  intros (W & E & L). unfold bucketsOf.
  repeat apply Permutation_app; eapply sort_perm; eauto.
Qed.

Lemma classify_entries ts beTolerance g :
  classifyAndGroupTrades ts beTolerance = Ok g ->
  forall k b, In (k, b) g ->
    sortedFrom (mkBuckets (filter (hasItem k) (survivors beTolerance ts))
                          (filter (placed beTolerance Breakeven k) ts)
                          (filter (placed beTolerance Losers k) ts)) b.
Proof.
  intros H k b I. destruct (classify_spec _ _ _ H) as (D & S).
  apply getOwn_In in I; auto. specialize (S k). rewrite I in S. apply S.
Qed.

Lemma classify_keys ts beTolerance g :
  classifyAndGroupTrades ts beTolerance = Ok g ->
  forall t, In t (kept beTolerance ts) -> In (item t) (map fst g).
Proof.
  intros H t K. destruct (classify_spec _ _ _ H) as (D & _).
  destruct (classify_groups _ _ _ H t) as (b & Hb).
  - unfold kept in K. apply in_app_or in K. destruct K as [K|K].
    + now apply survivors_incl in K.
    + now apply filter_In in K.
  - unfold kept in K. apply in_app_or in K. destruct K as [K|K]; auto.
    apply filter_In in K. left. now apply negb_true_iff.
  - apply getOwn_In in Hb; auto. apply (in_map fst) in Hb. exact Hb.
Qed.

Lemma flat_map_keys {B} (h : string -> list B) (g : GroupedTrades) :
  flat_map h (map fst g) = flat_map (fun e => h (fst e)) g.
Proof. induction g as [|[k b] g IH]; cbn; auto. now rewrite IH. Qed.

(** The result holds the kept trades, each once. *)
Lemma allTrades_kept ts beTolerance g :
  classifyAndGroupTrades ts beTolerance = Ok g ->
  Permutation (allTrades g) (kept beTolerance ts).
Proof.
  intros H. destruct (classify_spec _ _ _ H) as (D & _).
  rewrite <- (by_key (map fst g) (kept beTolerance ts) D (classify_keys _ _ _ H)).
  rewrite flat_map_keys. unfold allTrades. apply flat_map_perm_ext.
  intros [k b] I. cbn [fst snd].
  rewrite <- (sortedFrom_perm _ _ (classify_entries _ _ _ H k b I)).
  unfold bucketsOf, kept. cbn. rewrite filter_app.
  apply Permutation_app_head. symmetry. apply nonWinners_split.
Qed.

Lemma allWinners_survivors ts beTolerance g :
  classifyAndGroupTrades ts beTolerance = Ok g ->
  Permutation (allWinners g) (survivors beTolerance ts).
Proof.
  intros H. destruct (classify_spec _ _ _ H) as (D & _).
  rewrite <- (by_key (map fst g) (survivors beTolerance ts) D).
  - rewrite flat_map_keys. unfold allWinners. apply flat_map_perm_ext.
    intros [k b] I. cbn [fst snd].
    destruct (classify_entries _ _ _ H k b I) as (W & _). cbn in W.
    symmetry. eapply sort_perm; eauto.
  - intros t T. apply (classify_keys _ _ _ H). unfold kept. apply in_or_app. auto.
Qed.

(** ** The partition of the trades (C1) *)

Lemma placed_filter beTolerance n k l l' :
  Permutation (filter (placed beTolerance n k) l) l' ->
  Forall (fun t => placed beTolerance n k t = true) l'.
Proof.
  intros P. eapply Permutation_Forall; [exact P|].
  apply Forall_forall. intros t H. now apply filter_In in H.
Qed.

Lemma survivors_winners beTolerance ts w :
  In w (survivors beTolerance ts) -> isWinner beTolerance w = true.
Proof.
  intros H. unfold survivors, mapValues in H. apply in_map_iff in H.
  destruct H as ([k v] & <- & H).
  destruct (wellKeyed_dedupFrom beTolerance ts [] []) as (_ & I).
  - split; [constructor | intros ? ? []].
  - apply (I k v H).
Qed.

Lemma winners_placed beTolerance ts k l' :
  Permutation (filter (hasItem k) (survivors beTolerance ts)) l' ->
  Forall (fun t => placed beTolerance Winners k t = true) l'.
Proof.
  intros P. eapply Permutation_Forall; [exact P|].
  apply Forall_forall. intros t H. apply filter_In in H. destruct H as [S I].
  apply survivors_winners in S. unfold placed, bucketOf, isWinner, hasItem in *.
  now rewrite I, S.
Qed.

(** Each bucket holds trades of its group's instrument and of its class. *)
Lemma buckets_placed ts beTolerance g :
  classifyAndGroupTrades ts beTolerance = Ok g ->
  forall k b, In (k, b) g ->
    Forall (fun t => placed beTolerance Winners k t = true) (winners b) /\
    Forall (fun t => placed beTolerance Breakeven k t = true) (breakeven b) /\
    Forall (fun t => placed beTolerance Losers k t = true) (losers b).
Proof.
  intros H k b I. destruct (classify_entries _ _ _ H k b I) as (W & E & L). cbn in W, E, L.
  apply sort_perm in W, E, L.
  split; [|split]; [eapply winners_placed | eapply placed_filter | eapply placed_filter]; eauto.
Qed.

Lemma wellKeyed_final beTolerance ts :
  wellKeyed beTolerance ts (dedupFrom beTolerance ts []).
Proof.
  apply (wellKeyed_dedupFrom beTolerance ts [] []).
  split; [constructor | intros ? ? []].
Qed.

(** The input is the result together with the superseded candidates. *)
Lemma input_accounted ts beTolerance g :
  classifyAndGroupTrades ts beTolerance = Ok g ->
  exists dropped,
    Permutation ts (allTrades g ++ dropped) /\
    Forall (supersededIn beTolerance g) dropped.
Proof.
  intros H.
  destruct (dedupFrom_accounts beTolerance ts []) as (dropped & P). cbn [mapValues map app] in P.
  exists dropped. split.
  - rewrite (allTrades_kept _ _ _ H). unfold kept.
    rewrite (filter_split (isWinner beTolerance) ts) at 1.
    rewrite P. unfold survivors, mapValues.
    rewrite <- !app_assoc. apply Permutation_app_head. apply Permutation_app_comm.
  - apply Forall_forall. intros d Hd.
    assert (In d (filter (isWinner beTolerance) ts)) as Hf.
    { eapply Permutation_in; [symmetry; exact P|]. apply in_or_app. right. exact Hd. }
    apply filter_In in Hf. destruct Hf as [Hi Hw].
    split; [exact Hw|].
    destruct (candidate_kept _ _ _ Hi Hw) as (w & G & _ & L).
    destruct (wellKeyed_final beTolerance ts) as (N & I).
    apply mapGet_In in G; auto.
    exists w. split; [|split; [|exact L]].
    + eapply Permutation_in; [symmetry; apply (allWinners_survivors _ _ _ H)|].
      unfold survivors, mapValues. apply in_map_iff. exists (dedupKey d, w). split; auto.
    + apply (I _ _ G).
Qed.




(** ** One winner for each dedup key (C4, C2) *)

Lemma filter_perm {A} (f : A -> bool) l l' :
  Permutation l l' -> Permutation (filter f l) (filter f l').
Proof.
  induction 1 as [|x l l' P IH|x y l|l l' l'' P IH P' IH']; cbn.
  - constructor.
  - destruct (f x); auto.
  - destruct (f x), (f y); auto. apply perm_swap.
  - etransitivity; eauto.
Qed.

(** Over all groups, the kept winners of key [k] are the entry of [k] in
    [winnersMap]. *)
Lemma winners_of_key ts beTolerance g k :
  classifyAndGroupTrades ts beTolerance = Ok g ->
  forall w, mapGet (dedupFrom beTolerance ts []) k = Some w ->
  filter (hasKey k) (allWinners g) = [w] /\
  exists b, In (item w, b) g /\ In w (winners b).
Proof.
  intros H w G.
  pose proof (allWinners_survivors _ _ _ H) as P.
  assert (filter (hasKey k) (allWinners g) = [w]) as F.
  { apply Permutation_length_1_inv. symmetry.
    rewrite (filter_perm (hasKey k) _ _ P). unfold survivors.
    rewrite (filter_hasKey _ _ _ k (wellKeyed_final beTolerance ts)), G.
    apply Permutation_refl. }
  split; [exact F|].
  assert (In w (allWinners g)) as I.
  { assert (In w (filter (hasKey k) (allWinners g))) as I by (rewrite F; left; auto).
    now apply filter_In in I. }
  unfold allWinners in I. apply in_flat_map in I. destruct I as ([k' b] & I & Iw).
  cbn in Iw. exists b. split; auto.
  pose proof (buckets_placed _ _ _ H) as Pl.
  destruct (Pl k' b I) as (Fw & _). rewrite Forall_forall in Fw.
  specialize (Fw w Iw). unfold placed in Fw. apply andb_true_iff in Fw.
  destruct Fw as [Fw _]. apply String.eqb_eq in Fw. now rewrite Fw.
Qed.

(** C4: among the winner candidates of one dedup key, one is kept over all
    winners buckets: the first, in the order of the input, of those with
    the greatest profit; it is in the winners bucket of its instrument. *)
Theorem winner_dedup ts beTolerance g k :
  classifyAndGroupTrades ts beTolerance = Ok g ->
  (exists c, In c ts /\ candidate beTolerance k c = true) ->
  exists w,
    firstBest (filter (candidate beTolerance k) ts) w /\
    filter (hasKey k) (allWinners g) = [w] /\
    exists b, In (item w, b) g /\ In w (winners b).
Proof.
  intros H (c & I & C). unfold candidate in C. apply andb_true_iff in C.
  destruct C as [W K]. apply String.eqb_eq in K. subst k.
  destruct (candidate_kept beTolerance ts c I W) as (w & G & F & _).
  exists w. split; [exact F|]. apply (winners_of_key _ _ _ _ H w G).
Qed.

Lemma winner_dedup_witness :
  let t50 := sampleTrade "1" "eurusd" 50 in
  let t80 := sampleTrade "2" "eurusd" 80 in
  exists g, classifyAndGroupTrades [t50; t80] zero = Ok g /\
  exists w, firstBest (filter (candidate zero (dedupKey t50)) [t50; t80]) w /\
            filter (hasKey (dedupKey t50)) (allWinners g) = [w] /\
            exists b, In (item w, b) g /\ In w (winners b).
Proof.
  eexists. split; [vm_compute; reflexivity|].
  apply (winner_dedup [sampleTrade "1" "eurusd" 50; sampleTrade "2" "eurusd" 80] zero).
  - vm_compute. reflexivity.
  - exists (sampleTrade "1" "eurusd" 50). split; [left; reflexivity | vm_compute; reflexivity].
Defined.

(** The example of the specification: profits 50 and 80 under one key, in
    either order, leave the trade of profit 80. *)
Example dedup_50_80 :
  let t50 := sampleTrade "1" "eurusd" 50 in
  let t80 := sampleTrade "2" "eurusd" 80 in
  option_map allWinners
    (match classifyAndGroupTrades [t50; t80] zero with Ok g => Some g | Throw => None end)
  = Some [t80] /\
  option_map allWinners
    (match classifyAndGroupTrades [t80; t50] zero with Ok g => Some g | Throw => None end)
  = Some [t80].
Proof. split; vm_compute; reflexivity. Qed.

(** C2 (amended): two winner candidates with one dedup key and different
    instruments are merged like any others: over all groups one winner of
    that key is kept, in the winners bucket of its own instrument, and the
    two candidates are never both in the result. *)
Theorem dedup_across_instruments ts beTolerance g t1 t2 :
  classifyAndGroupTrades ts beTolerance = Ok g ->
  In t1 ts -> In t2 ts ->
  isWinner beTolerance t1 = true -> isWinner beTolerance t2 = true ->
  dedupKey t1 = dedupKey t2 -> item t1 <> item t2 ->
  (exists w, filter (hasKey (dedupKey t1)) (allWinners g) = [w] /\
             exists b, In (item w, b) g /\ In w (winners b)) /\
  ~ (In t1 (allTrades g) /\ In t2 (allTrades g)).
Proof.
  intros H I1 I2 W1 W2 K N.
  destruct (candidate_kept beTolerance ts t1 I1 W1) as (w & G & _ & _).
  destruct (winners_of_key _ _ _ _ H w G) as (F & B).
  split; [exists w; auto|].
  assert (forall t, isWinner beTolerance t = true -> dedupKey t = dedupKey t1 ->
                    In t (allTrades g) -> t = w) as U.
  { intros t Wt Kt It.
    assert (In t (filter (hasKey (dedupKey t1)) (allWinners g))) as J.
    { apply filter_In. split; [|unfold hasKey; rewrite Kt; apply String.eqb_refl].
      unfold allTrades in It. apply in_flat_map in It. destruct It as ([k b] & Ib & It).
      unfold allWinners. apply in_flat_map. exists (k, b). split; auto.
      pose proof (buckets_placed _ _ _ H) as Pl.
      destruct (Pl k b Ib) as (_ & Fe & Fl). rewrite Forall_forall in Fe, Fl.
      cbn in It. unfold bucketsOf in It.
      apply in_app_or in It. destruct It as [It|It]; auto.
      apply in_app_or in It. destruct It as [It|It];
        [specialize (Fe t It) | specialize (Fl t It)];
        unfold placed, bucketOf in *; unfold isWinner in Wt; rewrite Wt in *;
        cbn in *; rewrite andb_false_r in *; discriminate. }
    rewrite F in J. destruct J as [J|[]]; auto. }
  intros [J1 J2]. apply N.
  rewrite (U t1 W1 eq_refl J1), (U t2 W2 (eq_sym K) J2). reflexivity.
Qed.

Lemma dedup_across_instruments_witness :
  let e50 := sampleTrade "1" "eurusd" 50 in
  let g80 := sampleTrade "2" "gbpusd" 80 in
  exists g, classifyAndGroupTrades [e50; g80] zero = Ok g /\
            ~ (In e50 (allTrades g) /\ In g80 (allTrades g)).
Proof.
  eexists. split; [vm_compute; reflexivity|].
  apply (dedup_across_instruments [sampleTrade "1" "eurusd" 50; sampleTrade "2" "gbpusd" 80] zero).
  - vm_compute. reflexivity.
  - left. reflexivity.
  - right. left. reflexivity.
  - vm_compute. reflexivity.
  - vm_compute. reflexivity.
  - vm_compute. reflexivity.
  - discriminate.
Defined.

(** C2 as stated fails: the candidate on eurusd shares its key with a
    candidate on gbpusd of greater profit, and the winners bucket of eurusd
    is empty in the result. *)
Lemma across_instruments_counterexample :
  let e50 := sampleTrade "1" "eurusd" 50 in
  let g80 := sampleTrade "2" "gbpusd" 80 in
  isWinner zero e50 = true /\ isWinner zero g80 = true /\
  dedupKey e50 = dedupKey g80 /\ item e50 <> item g80 /\
  classifyAndGroupTrades [e50; g80] zero =
    Ok [("eurusd", mkBuckets [] [] []); ("gbpusd", mkBuckets [g80] [] [])].
Proof.
  repeat split; try (vm_compute; reflexivity). discriminate.
Qed.

(** ** The order within the buckets (C9) *)

Lemma Sorted_timed l : Forall timed l -> Sorted notAfter l -> Sorted opensNoLater l.
Proof.
  intros T S. induction S as [|x l S IH Hd]; [constructor|].
  inversion T as [|? ? Tx Tl]; subst. constructor; auto.
  destruct Hd as [|y l Hxy]; constructor.
  inversion Tl as [|? ? Ty _]; subst.
  destruct Tx as [a Ha], Ty as [b Hb].
  unfold notAfter, timeOf in Hxy. unfold opensNoLater. now rewrite Ha, Hb in *.
Qed.

Lemma opensAtTime_timed v l :
  Forall timed l -> filter (opensAtTime v) l = filter (opensAt v) l.
Proof.
  intros T. apply filter_ext_in. intros t I. rewrite Forall_forall in T.
  destruct (T t I) as [a Ha]. unfold opensAtTime, opensAt, timeOf. now rewrite Ha.
Qed.

Lemma sorted_bucket l l' :
  Forall timed l -> sort byOpenTime l = Ok l' ->
  Sorted opensNoLater l' /\
  forall v, filter (opensAtTime v) l' = filter (opensAtTime v) l.
Proof.
  intros T H. destruct (sort_timed l T) as (s & Hs & Ss & Fs).
  rewrite H in Hs. injection Hs as <-.
  assert (Forall timed l') as T' by (eapply Permutation_Forall; [eapply sort_perm; eauto | exact T]).
  split; [now apply Sorted_timed|].
  intros v. now rewrite !opensAtTime_timed, Fs.
Qed.

(** C9 (amended): when every open time of the input is a date, each bucket
    of each group of the result is in ascending order of the true open
    time, pair by adjacent pair, and the trades of one open time are in
    the order in which the grouping passes met them: the order of the
    input for breakeven and losers, the order of [winnersMap] for the
    winners. *)
Theorem buckets_sorted ts beTolerance g :
  classifyAndGroupTrades ts beTolerance = Ok g ->
  Forall timed ts ->
  forall k b, In (k, b) g ->
    (Sorted opensNoLater (winners b) /\
     Sorted opensNoLater (breakeven b) /\
     Sorted opensNoLater (losers b)) /\
    forall v,
      filter (opensAtTime v) (winners b) =
        filter (opensAtTime v) (filter (hasItem k) (survivors beTolerance ts)) /\
      filter (opensAtTime v) (breakeven b) =
        filter (opensAtTime v) (filter (placed beTolerance Breakeven k) ts) /\
      filter (opensAtTime v) (losers b) =
        filter (opensAtTime v) (filter (placed beTolerance Losers k) ts).
Proof.
  intros H T k b I.
  destruct (classify_entries _ _ _ H k b I) as (W & E & L). cbn in W, E, L.
  assert (forall f, Forall timed (filter f ts)) as Tf.
  { intros f. apply Forall_forall. intros t Ht. apply filter_In in Ht.
    rewrite Forall_forall in T. now apply T. }
  assert (Forall timed (filter (hasItem k) (survivors beTolerance ts))) as Tw.
  { apply Forall_forall. intros t Ht. apply filter_In in Ht. destruct Ht as [Ht _].
    apply survivors_incl in Ht. rewrite Forall_forall in T. now apply T. }
  destruct (sorted_bucket _ _ Tw W) as (Sw & Fw).
  destruct (sorted_bucket _ _ (Tf _) E) as (Se & Fe).
  destruct (sorted_bucket _ _ (Tf _) L) as (Sl & Fl).
  split; [auto|]. intros v. auto.
Qed.

Lemma buckets_sorted_witness :
  let ts := [timedTrade "1" "2025.06.25 16:09:01"; timedTrade "2" "2025.06.24 08:00:00";
             timedTrade "3" "2025.06.25 16:09:01"] in
  exists g, classifyAndGroupTrades ts zero = Ok g /\
            Forall timed ts /\
            map (fun e => map ticket (breakeven (snd e))) g = [["2"; "1"; "3"]] /\
            forall k b, In (k, b) g -> Sorted opensNoLater (breakeven b).
Proof.
  intros ts. eexists. split; [vm_compute; reflexivity|].
  assert (Forall timed ts) as T
    by (repeat constructor; eexists; vm_compute; reflexivity).
  split; [exact T|]. split; [vm_compute; reflexivity|].
  intros k b I.
  refine (proj1 (proj2 (proj1 (buckets_sorted ts zero _ _ T k b I)))).
  vm_compute. reflexivity.
Defined.

(** C9 as stated fails when an open time is no date: the comparator gives
    [NaN] for the trade without seconds against both others, no trade is
    moved, and the trade of 25 June stays ahead of the one of 24 June. *)
Lemma buckets_sorted_counterexample :
  let late := timedTrade "1" "2025.06.25 16:09:01" in
  let undated := timedTrade "2" "2025.06.25 16:09" in
  let early := timedTrade "3" "2025.06.24 08:00:00" in
  classifyAndGroupTrades [late; undated; early] zero
    = Ok [("xauusd", mkBuckets [] [late; undated; early] [])] /\
  openTime late = Some (instant 2025 6 25 13 9 1) /\
  openTime undated = None /\
  openTime early = Some (instant 2025 6 24 5 0 0) /\
  instant 2025 6 24 5 0 0 < instant 2025 6 25 13 9 1 /\
  ~ Sorted opensNoLater [late; undated; early].
Proof.
  split; [vm_compute; reflexivity|]. split; [vm_compute; reflexivity|].
  split; [vm_compute; reflexivity|]. split; [vm_compute; reflexivity|].
  split; [vm_compute; reflexivity|].
  intros S. inversion S as [|? ? _ Hd]. inversion Hd as [|? ? R].
  vm_compute in R. exact R.
Qed.

(** ** The classification rule (C3) *)

Lemma lt_gt a b : lt a b = gt b a.
Proof. reflexivity. Qed.

Lemma ge_le a b : ge a b = le b a.
Proof. reflexivity. Qed.

Lemma isNaN_neg a : isNaN (neg a) = isNaN a.
Proof. destruct a; reflexivity. Qed.

Lemma neg_le_self a : ge a zero = true -> le (neg a) a = true.
Proof.
  destruct a as [s|s| |s m e]; try destruct s; cbn; try discriminate; reflexivity.
Qed.

Lemma le_trans a b c : le a b = true -> le b c = true -> le a c = true.
Proof.
  intros H1 H2. apply le_cases in H1, H2. apply le_cases.
  destruct H1 as (Na & Nb & H1), H2 as (_ & Nc & H2). repeat split; auto.
  destruct H1 as [H1|H1], H2 as [H2|H2].
  - left. eapply below_trans; eauto.
  - left. now rewrite <- H2.
  - left. now rewrite H1.
  - right. congruence.
Qed.

(** The classification rule, for a profit that is a number: winner iff
    above the tolerance, breakeven iff within it, both ends included, loser
    iff below its opposite. *)
Lemma bucket_rule beTolerance t :
  ge beTolerance zero = true -> isNaN (profit t) = false ->
  (bucketOf beTolerance t = Winners <-> gt (profit t) beTolerance = true) /\
  (bucketOf beTolerance t = Breakeven <->
     ge (profit t) (neg beTolerance) = true /\ le (profit t) beTolerance = true) /\
  (bucketOf beTolerance t = Losers <-> lt (profit t) (neg beTolerance) = true).
Proof.
  intros T N. unfold bucketOf.
  assert (isNaN beTolerance = false) as Nt
    by (destruct beTolerance; try reflexivity; discriminate).
  pose proof (neg_le_self _ T) as S.
  destruct (gt (profit t) beTolerance) eqn:W.
  - split; [tauto|]. split; split; try discriminate.
    + intros [_ L]. apply le_not_gt in L. congruence.
    + rewrite lt_gt. intros L. apply gt_le in L.
      pose proof (le_trans _ _ _ L S) as L'. apply le_not_gt in L'. congruence.
  - pose proof (not_gt_le _ _ N Nt W) as L. rewrite L, andb_true_r.
    destruct (ge (profit t) (neg beTolerance)) eqn:G.
    + split; [split; discriminate|]. split; [tauto|]. split; [discriminate|].
      rewrite lt_gt. intros L'. rewrite ge_le in G. apply le_not_gt in G. congruence.
    + split; [split; discriminate|]. split; [split; [discriminate | intros [? _]; discriminate]|].
      split; [intros _|reflexivity]. rewrite lt_gt.
      destruct (gt (neg beTolerance) (profit t)) eqn:G'; auto.
      apply not_gt_le in G'; rewrite ?isNaN_neg; auto. rewrite ge_le in G. congruence.
Qed.

(** A profit equal to the tolerance or to its opposite is breakeven. *)
Lemma boundary_breakeven beTolerance t :
  ge beTolerance zero = true ->
  equal (profit t) beTolerance = true \/ equal (profit t) (neg beTolerance) = true ->
  bucketOf beTolerance t = Breakeven.
Proof.
  intros T E. pose proof (neg_le_self _ T) as S.
  assert (forall a b, equal a b = true -> le a b = true /\ le b a = true) as Q.
  { intros a b H. unfold equal, SpecFloat.SFeqb in H.
    assert (isNaN a = false /\ isNaN b = false) as [Na Nb]
      by (destruct a, b; cbn in *; try discriminate; auto).
    pose proof (compare_rank a b Na Nb) as C.
    destruct (SpecFloat.SFcompare a b) as [[]|]; try discriminate.
    split; apply le_cases; auto. }
  assert (isNaN (profit t) = false) as N.
  { destruct E as [E|E]; apply Q in E; destruct E as [E _]; apply le_cases in E; tauto. }
  apply (bucket_rule beTolerance t T N). rewrite ge_le.
  destruct E as [E|E]; apply Q in E; destruct E as [E1 E2]; split; auto.
  - eapply le_trans; eauto.
  - eapply le_trans; eauto.
Qed.

(** C3, at a profit that is not a number: the code files the trade under
    the losers, though its profit is not below the opposite of the
    tolerance.  Such a trade comes out of [processReport] itself, from a
    profit cell that holds no number. *)
Theorem nan_profit_filed_as_loser :
  exists t,
    processReport (reportWith "0.10" "n/a") zero
      = Resolved [("eurusd", mkBuckets [] [] [t])] /\
    profit t = NaN /\
    classifyAndGroupTrades [t] zero = Ok [("eurusd", mkBuckets [] [] [t])] /\
    ge zero zero = true /\
    lt (profit t) (neg zero) = false.
Proof.
  eexists. split; [vm_compute; reflexivity|]. repeat split.
Qed.

(** ** The outcomes of [processReport] (C6) *)

Lemma orElse_empty s : Str.orElse s EmptyString = s.
Proof. destruct s; reflexivity. Qed.

Lemma findTable_None doc :
  findTable doc = None <-> forall t, In t doc -> hasMarker t = false.
Proof.
  unfold findTable, hasMarker. split.
  - intros H t I. pose proof (find_none _ _ H t I) as N. cbn in N.
    now rewrite orElse_empty in N.
  - intros H. induction doc as [|t doc IH]; cbn; auto.
    rewrite orElse_empty, (H t (or_introl eq_refl)). apply IH. intros; apply H; right; auto.
Qed.

(** The first table with the marker, when [findTable] finds one. *)
Lemma findTable_Some doc t :
  findTable doc = Some t ->
  exists before after, doc = before ++ t :: after /\
    hasMarker t = true /\ forall t', In t' before -> hasMarker t' = false.
Proof.
  unfold findTable, hasMarker. induction doc as [|t0 doc IH]; cbn; [discriminate|].
  rewrite orElse_empty. destruct (Str.includes (textContent t0) _) eqn:E.
  - intros [= <-]. exists [], doc. repeat split; auto. intros ? [].
  - intros H. destruct (IH H) as (before & after & -> & M & N).
    exists (t0 :: before), after. repeat split; auto.
    intros t' [<-|I]; auto.
Qed.

(** C6: [processReport] settles in exactly one of four ways, decided as
    follows: rejected with the missing-section error iff no table holds the
    marker; with the empty-report error iff the first such table yields no
    trade; with the malformed-input error iff it yields trades on which the
    classification throws; resolved with the whole result of the
    classification otherwise. *)
Theorem processReport_outcomes doc beTolerance :
  (processReport doc beTolerance = Rejected MissingSectionError <->
     forall t, In t doc -> hasMarker t = false) /\
  (processReport doc beTolerance = Rejected EmptyReportError <->
     exists t, findTable doc = Some t /\ tradesOf t = []) /\
  (processReport doc beTolerance = Rejected MalformedInputError <->
     exists t, findTable doc = Some t /\ tradesOf t <> [] /\
               classifyAndGroupTrades (tradesOf t) beTolerance = Throw) /\
  (forall g, processReport doc beTolerance = Resolved g <->
     exists t, findTable doc = Some t /\ tradesOf t <> [] /\
               classifyAndGroupTrades (tradesOf t) beTolerance = Ok g) /\
  (message MissingSectionError <> message EmptyReportError /\
   message MissingSectionError <> message MalformedInputError /\
   message EmptyReportError <> message MalformedInputError).
Proof.
  rewrite <- findTable_None. unfold processReport. fold (tradesOf).
  destruct (findTable doc) as [t|] eqn:F.
  2: { repeat split; try discriminate; auto;
       try (intros (t & Q & _); discriminate); try (intros; discriminate). }
  change (map (fun r => tradeOfRow (snd r)) (closedRows (rows t) 0 false)) with (tradesOf t).
  destruct (tradesOf t) as [|x l] eqn:T; cbn [List.length Nat.eqb].
  - repeat split; try discriminate; auto.
    + intros _. exists t. rewrite T. auto.
    + intros (t' & [= <-] & N & _). rewrite T in N. congruence.
    + intros (t' & [= <-] & N & _). rewrite T in N. congruence.
  - destruct (classifyAndGroupTrades (x :: l) beTolerance) as [g|] eqn:C.
    + repeat split; try discriminate.
      * intros (t' & [= <-] & N). rewrite T in N. discriminate.
      * intros (t' & [= <-] & _ & N). rewrite T in N. congruence.
      * intros [= <-]. exists t. rewrite T. repeat split; auto. discriminate.
      * intros (t' & [= <-] & _ & N). rewrite T in N. congruence.
    + repeat split; try discriminate.
      * intros (t' & [= <-] & N). rewrite T in N. discriminate.
      * intros _. exists t. rewrite T. repeat split; auto. discriminate.
      * intros (t' & [= <-] & _ & N). rewrite T in N. congruence.
Qed.

(** The four outcomes of [processReport], each on a report. *)
Example processReport_examples :
  processReport [mkTable "Summary" []] zero = Rejected MissingSectionError /\
  processReport [mkTable "Closed Transactions:" [["Closed Transactions:"]]] zero
    = Rejected EmptyReportError /\
  processReport
    [mkTable "Closed Transactions:"
       [["Closed Transactions:"];
        reportRow "1" EmptyString "buy" "0.10" "EURUSD" "1.1000" EmptyString "1.1000" "0.00";
        reportRow "2" EmptyString "buy" "0.10" "EURUSD" "1.1000" EmptyString "1.1000" "0.00"]] zero
    = Rejected MalformedInputError /\
  processReport (reportWith "0.10" "12.50") zero
    = Resolved [("eurusd",
                 mkBuckets [mkTrade "77001" "2025.06.25 16:09:01" "buy" (parseFloat "0.1")
                              "eurusd" (parseFloat "1.1") "2025.06.25 17:09:01"
                              (parseFloat "1.105") (parseFloat "12.5")] [] [])].
Proof. repeat split; vm_compute; reflexivity. Qed.

(** ** The fields of a trade (C7) *)

(** The cells of an accepted row that are empty, once trimmed, give the
    defaults: zero for the numbers, the empty string or [unknown] for the
    strings. *)
Lemma missing_cells_default cells :
  (Str.trim (cell cells 0) = EmptyString -> ticket (tradeOfRow cells) = EmptyString) /\
  (Str.trim (cell cells 1) = EmptyString -> openTimeRaw (tradeOfRow cells) = EmptyString) /\
  (Str.trim (cell cells 2) = EmptyString -> type (tradeOfRow cells) = "unknown") /\
  (Str.trim (cell cells 3) = EmptyString -> size (tradeOfRow cells) = zero) /\
  (Str.trim (cell cells 4) = EmptyString -> item (tradeOfRow cells) = "unknown") /\
  (Str.trim (cell cells 5) = EmptyString -> openPrice (tradeOfRow cells) = zero) /\
  (Str.trim (cell cells 8) = EmptyString -> closeTimeRaw (tradeOfRow cells) = EmptyString) /\
  (Str.trim (cell cells 9) = EmptyString -> closePrice (tradeOfRow cells) = zero) /\
  (cell cells 13 = EmptyString -> profit (tradeOfRow cells) = zero).
Proof.
  unfold tradeOfRow; cbn [ticket openTimeRaw type size item openPrice closeTimeRaw
                          closePrice profit].
  repeat split; intros ->; reflexivity.
Qed.

(** C7, at cells that hold no number: a size cell with the text n/a gives
    the size [NaN], not zero, in the trade that [processReport] returns;
    and a profit cell of one space gives the profit [NaN], where the same
    cell gives the size zero. *)
Theorem unparsed_cell_is_NaN :
  (exists t, processReport (reportWith "n/a" "12.50") zero
               = Resolved [("eurusd", mkBuckets [t] [] [])] /\
             size t = NaN /\ size t <> zero) /\
  (exists t, processReport (reportWith " " " ") zero
               = Resolved [("eurusd", mkBuckets [] [] [t])] /\
             size t = zero /\ profit t = NaN).
Proof.
  split; eexists; (split; [vm_compute; reflexivity|]); split; try reflexivity.
  discriminate.
Qed.

(** ** The rows that become trades (C8) *)

Lemma headerBefore_0 rs : ~ headerBefore rs 0.
Proof. intros (s & r & L & _). lia. Qed.

Lemma headerBefore_S r rs i :
  headerBefore (r :: rs) (S i) <-> isHeaderRow r = true \/ headerBefore rs i.
Proof.
  split.
  - intros ([|s] & r' & L & N & H); cbn in N.
    + injection N as <-. auto.
    + right. exists s, r'. repeat split; auto. lia.
  - intros [H|(s & r' & L & N & H)].
    + exists 0%nat, r. repeat split; auto. lia.
    + exists (S s), r'. repeat split; auto. lia.
Qed.

Lemma started_S p r rs i :
  started p (r :: rs) (S i) <-> started (p || isHeaderRow r) rs i.
Proof.
  unfold started. rewrite headerBefore_S, orb_true_iff. tauto.
Qed.

Lemma endsSection_S p r rs j :
  endsSection p (r :: rs) (S j) <-> endsSection (p || isHeaderRow r) rs j.
Proof.
  unfold endsSection. cbn [nth_error]. split; intros (r' & N & H & T & S);
    exists r'; repeat split; auto; now apply started_S.
Qed.

Lemma endsSection_0 p r rs :
  endsSection p (r :: rs) 0 <-> isHeaderRow r = false /\ isNextSection r = true /\ p = true.
Proof.
  unfold endsSection, started. cbn [nth_error]. split.
  - intros (r' & [= <-] & H & T & [S|S]); auto. elim (headerBefore_0 _ S).
  - intros (H & T & S). exists r. auto.
Qed.

Lemma rule_S p r rs i cells :
  tradeRowRule p (r :: rs) (S i) cells <->
  ~ (isHeaderRow r = false /\ isNextSection r = true /\ p = true) /\
  tradeRowRule (p || isHeaderRow r) rs i cells.
Proof.
  unfold tradeRowRule. cbn [nth_error]. rewrite started_S, <- endsSection_0. split.
  - intros (N & S & E & H & T). split; [apply (E 0%nat); lia|].
    repeat split; auto. intros j L. rewrite <- endsSection_S. apply E. lia.
  - intros (E0 & N & S & E & H & T). repeat split; auto.
    intros [|j] L; auto. rewrite endsSection_S. apply E. lia.
Qed.

Lemma rule_0 p r rs cells :
  tradeRowRule p (r :: rs) 0 cells <->
  r = cells /\ p = true /\ isHeaderRow r = false /\ isNextSection r = false /\
  isTradeRow r = true.
Proof.
  unfold tradeRowRule. cbn [nth_error]. split.
  - intros ([= <-] & [S|S] & E & H & T); [|elim (headerBefore_0 _ S)].
    repeat split; auto. destruct (isNextSection r) eqn:X; auto.
    elim (E 0%nat (le_n 0)). apply endsSection_0. auto.
  - intros (<- & -> & H & X & T). repeat split; auto.
    + left. reflexivity.
    + intros j L E. assert (j = 0%nat) as -> by lia.
      apply endsSection_0 in E. destruct E as (_ & E & _). congruence.
Qed.

Lemma closedRows_rule rs : forall n p i cells,
  In (i, cells) (closedRows rs n p) <->
  exists j, i = (n + j)%nat /\ tradeRowRule p rs j cells.
Proof.
  induction rs as [|r rs IH]; intros n p i cells; cbn [closedRows].
  - split; [intros [] | intros (j & _ & N & _)]. destruct j; discriminate.
  - assert (forall q,
      (exists j, i = (S n + j)%nat /\ tradeRowRule q rs j cells) <->
      (exists j, i = (n + S j)%nat /\ tradeRowRule q rs j cells)) as Shift.
    { intros q; split; intros (j & -> & R); exists j; split; auto; lia. }
    destruct (isHeaderRow r) eqn:H.
    + rewrite IH, Shift. split.
      * intros (j & -> & R). exists (S j). split; auto. apply rule_S.
        rewrite H, orb_true_r. split; auto. intros (X & _). discriminate.
      * intros ([|j] & -> & R).
        -- apply rule_0 in R. destruct R as (_ & _ & X & _). congruence.
        -- apply rule_S in R. rewrite H, orb_true_r in R. exists j. tauto.
    + destruct p; cbn [negb].
      * destruct (isNextSection r) eqn:X.
        -- split; [intros []|]. intros ([|j] & -> & R).
           ++ apply rule_0 in R. destruct R as (_ & _ & _ & X' & _). congruence.
           ++ apply rule_S in R. destruct R as (R & _). elim R. auto.
        -- assert (In (i, cells) (closedRows rs (S n) true) <->
                   exists j, i = (n + S j)%nat /\ tradeRowRule true (r :: rs) (S j) cells) as Tail.
           { rewrite IH, Shift. split; intros (j & -> & R); exists j; split; auto.
             - apply rule_S. rewrite H. cbn. split; auto. intros (_ & X' & _). congruence.
             - apply rule_S in R. rewrite H in R. cbn in R. tauto. }
           destruct (isTradeRow r) eqn:T.
           ++ cbn [In]. rewrite Tail. split.
              ** intros [[= <- <-]|(j & -> & R)].
                 --- exists 0%nat. split; [lia|]. apply rule_0. auto.
                 --- exists (S j). auto.
              ** intros ([|j] & -> & R).
                 --- left. apply rule_0 in R. destruct R as (-> & _). f_equal. lia.
                 --- right. exists j. auto.
           ++ rewrite Tail. split.
              ** intros (j & -> & R). exists (S j). auto.
              ** intros ([|j] & -> & R).
                 --- apply rule_0 in R. destruct R as (-> & _ & _ & _ & T'). congruence.
                 --- exists j. auto.
      * rewrite IH, Shift. split.
        -- intros (j & -> & R). exists (S j). split; auto. apply rule_S.
           rewrite H. cbn. split; auto. intros (_ & _ & X). discriminate.
        -- intros ([|j] & -> & R).
           ++ apply rule_0 in R. destruct R as (_ & X & _). discriminate.
           ++ apply rule_S in R. rewrite H in R. cbn in R. exists j. tauto.
Qed.

(** C8 (amended): a row of the located table becomes a trade exactly when
    a header row, one whose first cell once trimmed is the marker itself,
    stands before it; no row up to it, itself included, ends the section,
    that is, comes after a header row, is no header row and names the next
    section in its first cell; it is no header row; it has fourteen cells
    and its first cell parses as a number. *)
Theorem trade_rows rs i cells :
  In (i, cells) (closedRows rs 0 false) <->
  nth_error rs i = Some cells /\
  headerBefore rs i /\
  (forall j, (j <= i)%nat -> ~ endsSection false rs j) /\
  isHeaderRow cells = false /\
  List.length cells = 14%nat /\
  isNaN (parseFloat (cell cells 0)) = false.
Proof.
  rewrite closedRows_rule. unfold tradeRowRule, started, isTradeRow.
  rewrite orElse_empty. split.
  - intros (j & -> & N & [S|S] & E & H & T); [discriminate|].
    apply andb_true_iff in T. destruct T as [L T].
    apply Nat.eqb_eq in L. apply negb_true_iff in T. cbn. auto 10.
  - intros (N & S & E & H & L & T). exists i. split; auto.
    repeat split; auto. rewrite L, T. reflexivity.
Qed.

(** C8 as stated fails in both directions.  A row after a row that holds
    the marker with more text in its first cell is not accepted; a row
    after the header row is accepted though a row naming the next section
    stands before the header row. *)
Lemma trade_rows_counterexample :
  let row := reportRow "77001" "2025.06.25 16:09:01" "buy" "0.10" "EURUSD" "1.1000"
                       "2025.06.25 17:09:01" "1.1050" "12.50" in
  let first := [["Closed Transactions: June 2025"]; row] in
  let second := [["Open Trades:"]; ["Closed Transactions:"]; row] in
  (statedRowRule first 1 row /\ ~ In (1%nat, row) (closedRows first 0 false)) /\
  (In (2%nat, row) (closedRows second 0 false) /\ ~ statedRowRule second 2 row).
Proof.
  intros row first second. split; split.
  - split; [reflexivity|]. split; [|split; [|split; reflexivity]].
    + exists 0%nat, ["Closed Transactions: June 2025"]. repeat split. lia.
    + intros [|[|[|j]]] r; cbn; intros [= <-]; vm_compute; discriminate.
  - vm_compute. tauto.
  - vm_compute. left. reflexivity.
  - intros (_ & _ & E & _). specialize (E 0%nat ["Open Trades:"] eq_refl eq_refl). lia.
Qed.

(** ** Timestamps (C5) *)

Lemma allFrom_true f n : forall z,
  allFrom f z n = true -> forall x, z <= x < z + Z.of_nat n -> f x = true.
Proof.
  induction n as [|n IH]; intros z H x R; [lia|].
  cbn [allFrom] in H. apply andb_true_iff in H. destruct H as [H0 H].
  destruct (Z.eq_dec x z) as [->|N]; auto. apply (IH (z + 1) H). lia.
Qed.

Lemma checked (f : Z -> bool) (n : Z) :
  allFrom f 0 (Z.to_nat n) = true -> forall z, 0 <= z < n -> f z = true.
Proof. intros H z R. apply (allFrom_true f _ 0 H). lia. Qed.

Lemma pad4_reads : forall n, 0 <= n < 10000 -> readsAs4 n = true.
Proof. apply (checked readsAs4 10000). vm_cast_no_check (eq_refl true). Qed.

Lemma pad2_reads : forall n, 0 <= n < 100 -> readsAs2 n = true.
Proof. apply (checked readsAs2 100). vm_cast_no_check (eq_refl true). Qed.

Lemma daysFromCivil_eq y m d :
  daysFromCivil y m d =
  let y' := y - beforeMarch m in
  y' / 400 * 146097 +
  ((y' - y' / 400 * 400) * 365 + (y' - y' / 400 * 400) / 4 - (y' - y' / 400 * 400) / 100
   + (marchDays m + d - 1)) - 719468.
Proof.
  unfold daysFromCivil, beforeMarch, marchDays. destruct (m <=? 2); cbv zeta; rewrite ?Z.sub_0_r; reflexivity.
Qed.

Ltac evalClosed f :=
  match goal with
  | |- context [f ?a] => let v := eval vm_compute in (f a) in change (f a) with v
  end.

Ltac leapCases y :=
  destruct (Z.eqb_spec (y mod 4) 0); cbn [negb];
  [destruct (Z.eqb_spec (y mod 100) 0); cbn [negb];
   [destruct (Z.eqb_spec (y mod 400) 0); cbn [negb]|]|].

Ltac monthCase y :=
  match goal with
  | |- context [JsDate.monthStart ?a ?l] =>
      let a' := eval vm_compute in a in
      change (JsDate.monthStart a l) with (JsDate.monthStart a' l)
  end;
  evalClosed beforeMarch; evalClosed marchDays;
  cbv beta iota zeta delta [JsDate.monthStart];
  leapCases y;
  try match goal with
      | |- context [(?a =? ?b)] =>
          let v := eval vm_compute in (a =? b) in change (a =? b) with v
      end; cbv iota;
  (Z.div_mod_to_equations; lia).

Lemma calendar_agrees y m d :
  1 <= m <= 12 ->
  JsDate.DayFromYear y + JsDate.monthStart (m - 1) (leapDay y) + d - 1 = daysFromCivil y m d.
Proof.
  intros Hm. rewrite daysFromCivil_eq.
  assert (m = 1 \/ m = 2 \/ m = 3 \/ m = 4 \/ m = 5 \/ m = 6 \/ m = 7 \/ m = 8 \/ m = 9
          \/ m = 10 \/ m = 11 \/ m = 12) as C by lia.
  unfold leapDay, JsDate.DaysInYear, JsDate.DayFromYear.
  repeat (destruct C as [->|C]); try subst m; monthCase y.
Qed.

Lemma split_nonempty sep s : Str.split sep s <> [].
Proof.
  destruct s as [|c s]; cbn; [discriminate|].
  destruct (Ascii.eqb c sep); [discriminate|]. destruct (Str.split sep s); discriminate.
Qed.

Lemma split_one sep c s :
  Str.split sep (String c s) = [String c s] -> Ascii.eqb c sep = false /\ Str.split sep s = [s].
Proof.
  cbn [Str.split]. pose proof (split_nonempty sep s) as N.
  destruct (Ascii.eqb c sep); [discriminate|].
  destruct (Str.split sep s) as [|p [|q ps]]; [congruence| |discriminate].
  intros H. injection H as H. subst. auto.
Qed.

Lemma split_app sep a b :
  Str.split sep a = [a] ->
  Str.split sep (a ++ String sep b)%string = a :: Str.split sep b.
Proof.
  induction a as [|c a IH]; intros H.
  - cbn. now rewrite Ascii.eqb_refl.
  - apply split_one in H. destruct H as [N H]. cbn [append Str.split].
    now rewrite N, (IH H).
Qed.

Lemma split_cat sep a b :
  Str.split sep a = [a] -> Str.split sep b = [b] ->
  Str.split sep (a ++ b)%string = [(a ++ b)%string].
Proof.
  induction a as [|c a IH]; intros Ha Hb; [exact Hb|].
  apply split_one in Ha. destruct Ha as [N Ha]. cbn [append Str.split].
  now rewrite N, (IH Ha Hb).
Qed.

Lemma plain_split s :
  plain s = true ->
  Str.split " " s = [s] /\ Str.split "." s = [s] /\ Str.split ":" s = [s].
Proof.
  unfold plain.
  destruct (Str.split " " s) as [|x [|? ?]]; try discriminate.
  destruct (Str.split "." s) as [|y [|? ?]]; try (rewrite ?andb_false_r; discriminate).
  destruct (Str.split ":" s) as [|z [|? ?]]; try (rewrite ?andb_false_r; discriminate).
  intros H. apply andb_true_iff in H. destruct H as [H Hz].
  apply andb_true_iff in H. destruct H as [Hx Hy].
  apply String.eqb_eq in Hx, Hy, Hz. now subst.
Qed.

(** The integers below [2 ^ 53] are Numbers: no operator rounds them. *)
Lemma digits_size p : digits2_pos p = Pos.size p.
Proof. induction p; cbn; congruence. Qed.

Lemma shift_digits p k : digits2_pos (Pos.iter xO p k) = (digits2_pos p + k)%positive.
Proof.
  induction k as [|k IH] using Pos.peano_ind.
  - cbn. lia.
  - rewrite Pos.iter_succ. cbn. rewrite IH. lia.
Qed.

Lemma shift_value p k : Zpos (Pos.iter xO p k) = Zpos p * 2 ^ Zpos k.
Proof.
  induction k as [|k IH] using Pos.peano_ind.
  - cbn. lia.
  - rewrite Pos.iter_succ, Pos2Z.inj_succ, Z.pow_succ_r by lia.
    rewrite Pos2Z.inj_xO, IH. lia.
Qed.

Lemma size_bound p : Zpos p < 2 ^ 53 -> (Pos.size p <= 53)%positive.
Proof.
  intros H. destruct (Pos.leb_spec (Pos.size p) 53) as [L|L]; [exact L|]. exfalso.
  pose proof (Pos.size_le p) as S.
  assert (2 ^ 54 <= 2 ^ Zpos (Pos.size p)) as P by (apply Z.pow_le_mono_r; lia).
  assert (Zpos (2 ^ Pos.size p) = 2 ^ Zpos (Pos.size p)) as E by (apply Pos2Z.inj_pow).
  assert (Zpos (2 ^ Pos.size p) <= Zpos p~0) as S' by exact S.
  rewrite E in S'. rewrite Pos2Z.inj_xO in S'. lia.
Qed.

Lemma round_aux_exact s m e :
  digits2_pos m = 53%positive -> -1074 <= e <= 971 ->
  binary_round_aux 53 1024 s (Zpos m) e loc_Exact = S754_finite s m e.
Proof.
  intros D E. unfold binary_round_aux, shr_fexp, fexp, emin.
  cbn [Zdigits2 shr_record_of_loc]. rewrite D.
  replace (Z.max (53 + e - 53) (3 - 1024 - 53) - e) with 0 by lia.
  cbn [shr shr_m loc_of_shr_record round_nearest_even Zdigits2]. rewrite D.
  replace (Z.max (53 + e - 53) (3 - 1024 - 53) - e) with 0 by lia.
  cbn [shr shr_m].
  replace (e <=? 1024 - 53) with true by (symmetry; apply Z.leb_le; lia).
  reflexivity.
Qed.

Lemma round_small s p :
  Zpos p < 2 ^ 53 ->
  truncate (binary_round prec emax s p 0) = Some (if s then - Zpos p else Zpos p).
Proof.
  intros H. pose proof (size_bound p H) as B. rewrite <- digits_size in B.
  unfold binary_round, shl_align, fexp, emin.
  unfold prec, emax. rewrite Z.add_0_r, Z.sub_0_r.
  remember (digits2_pos p) as d eqn:D.
  replace (Z.max (Zpos d - 53) (3 - 1024 - 53)) with (Zpos d - 53) by lia.
  destruct (Pos.eq_dec d 53) as [->|N].
  - change (53 - 53) with 0. cbv iota.
    rewrite round_aux_exact by (auto; lia). reflexivity.
  - assert (Zpos d - 53 = Zneg (53 - d)) as E by lia. rewrite E.
    rewrite round_aux_exact.
    + cbn [truncate]. rewrite Z.shiftr_div_pow2 by lia. rewrite shift_value.
      rewrite Z.div_mul by (apply Z.pow_nonzero; lia). reflexivity.
    + rewrite shift_digits, <- D. lia.
    + lia.
Qed.

Lemma rounded_exact z : Z.abs z < 2 ^ 53 -> rounded z = Some z.
Proof.
  intros H. unfold rounded, ofZ, binary_normalize. destruct z as [|p|p].
  - reflexivity.
  - apply (round_small false). lia.
  - apply (round_small true). lia.
Qed.

Lemma times_exact a b :
  Z.abs (a * b) < 2 ^ 53 -> JsDate.times (Some a) (Some b) = Some (a * b).
Proof. apply rounded_exact. Qed.

Lemma plus_exact a b :
  Z.abs (a + b) < 2 ^ 53 -> JsDate.plus (Some a) (Some b) = Some (a + b).
Proof. apply rounded_exact. Qed.

(** [MakeTime] and [MakeDate] on the times of day and the days of the
    time values. *)
Lemma MakeTime_exact h m s ms :
  Z.abs h <= 1000 -> Z.abs m <= 1000 -> Z.abs s <= 1000 -> Z.abs ms <= 1000 ->
  JsDate.MakeTime h m s ms =
    Some (h * JsDate.msPerHour + m * JsDate.msPerMinute + s * JsDate.msPerSecond + ms).
Proof.
  intros Hh Hm Hs Hms. unfold JsDate.MakeTime.
  unfold JsDate.msPerHour, JsDate.msPerMinute, JsDate.msPerSecond.
  assert (2 ^ 53 = 9007199254740992) as P by reflexivity.
  repeat (rewrite times_exact by lia). repeat (rewrite plus_exact by lia). reflexivity.
Qed.

Lemma MakeDate_exact day time :
  Z.abs day <= 100000000 -> Z.abs time <= 100000000000000 ->
  JsDate.MakeDate (Some day) (Some time) = Some (day * JsDate.msPerDay + time).
Proof.
  intros Hd Ht. unfold JsDate.MakeDate, JsDate.msPerDay.
  assert (2 ^ 53 = 9007199254740992) as P by reflexivity.
  rewrite times_exact by lia. rewrite plus_exact by lia. reflexivity.
Qed.

Lemma UTC_fields y mo d h mi s Y Mo D H Mi S :
  truncate y = Some Y -> truncate mo = Some Mo -> truncate d = Some D ->
  truncate h = Some H -> truncate mi = Some Mi -> truncate s = Some S ->
  JsDate.UTC y mo d h mi s =
  JsDate.TimeClip (JsDate.MakeDate (JsDate.MakeDay (JsDate.MakeFullYear Y) Mo D)
                                   (JsDate.MakeTime H Mi S 0)).
Proof.
  intros H1 H2 H3 H4 H5 H6. unfold JsDate.UTC.
  rewrite H1, H2, H3, H4, H5, H6. reflexivity.
Qed.

(** Setting the hours to the current ones plus [k] moves the time value by
    [k] hours. *)
Lemma setUTCHours_shift t k :
  - JsDate.maxTime <= t <= JsDate.maxTime -> -24 <= k <= 24 ->
  JsDate.setUTCHours (Some t) (option_map (fun h => h + k) (JsDate.getUTCHours (Some t)))
  = JsDate.TimeClip (Some (t + k * JsDate.msPerHour)).
Proof.
  intros Ht Hk.
  cbn [JsDate.getUTCHours option_map JsDate.setUTCHours]. f_equal.
  unfold JsDate.maxTime in Ht.
  rewrite MakeTime_exact, MakeDate_exact.
  - f_equal.
    unfold JsDate.Day, JsDate.HourFromTime,
      JsDate.MinFromTime, JsDate.SecFromTime, JsDate.msFromTime,
      JsDate.msPerDay, JsDate.msPerHour, JsDate.msPerMinute, JsDate.msPerSecond.
    Z.div_mod_to_equations. lia.
  - unfold JsDate.Day, JsDate.msPerDay. Z.div_mod_to_equations. lia.
  - unfold JsDate.HourFromTime,
      JsDate.MinFromTime, JsDate.SecFromTime, JsDate.msFromTime,
      JsDate.msPerHour, JsDate.msPerMinute, JsDate.msPerSecond.
    Z.div_mod_to_equations. lia.
  - unfold JsDate.HourFromTime, JsDate.msPerHour. Z.div_mod_to_equations. lia.
  - unfold JsDate.MinFromTime, JsDate.msPerMinute. Z.div_mod_to_equations. lia.
  - unfold JsDate.SecFromTime, JsDate.msPerSecond. Z.div_mod_to_equations. lia.
  - unfold JsDate.msFromTime, JsDate.msPerSecond. Z.div_mod_to_equations. lia.
Qed.

Lemma MakeDay_civil Y M D :
  0 <= Y < 10000 -> 1 <= M <= 12 -> 0 <= D < 100 ->
  JsDate.MakeDay Y (M - 1) D = Some (daysFromCivil Y M D).
Proof.
  intros HY HM HD. unfold JsDate.MakeDay.
  assert (2 ^ 53 = 9007199254740992) as P by reflexivity.
  replace ((M - 1) / 12) with 0 by (symmetry; apply Z.div_small; lia).
  rewrite (rounded_exact 0) by (cbn; lia). rewrite plus_exact by lia.
  rewrite Z.mod_small by lia. rewrite Z.add_0_r. fold (leapDay Y).
  pose proof (calendar_agrees Y M D HM) as A.
  pose proof (calendar_agrees Y M 1 HM) as A1.
  assert (-800000 <= daysFromCivil Y M 1 <= 4000000) as B.
  { rewrite daysFromCivil_eq. unfold beforeMarch, marchDays.
    destruct (M <=? 2); cbv zeta; Z.div_mod_to_equations; lia. }
  replace (JsDate.DayFromYear Y + JsDate.monthStart (M - 1) (leapDay Y))
    with (daysFromCivil Y M 1) by lia.
  destruct (Z.leb_spec (Z.abs (daysFromCivil Y M 1 * JsDate.msPerDay)) JsDate.maxTime) as [L|L];
    [|unfold JsDate.msPerDay, JsDate.maxTime in L; lia].
  rewrite plus_exact by lia. rewrite plus_exact by lia. f_equal. lia.
Qed.

Lemma split_cons sep c s :
  Ascii.eqb c sep = false -> Str.split sep s = [s] ->
  Str.split sep (String c s) = [String c s].
Proof. intros N H. cbn [Str.split]. now rewrite N, H. Qed.

Lemma pad4_plain Y : 0 <= Y < 10000 -> plain (pad4 Y) = true.
Proof.
  intros H. pose proof (pad4_reads Y H) as R. unfold readsAs4 in R.
  now apply andb_true_iff in R.
Qed.

Lemma pad2_plain n : 0 <= n < 100 -> plain (pad2 n) = true.
Proof.
  intros H. pose proof (pad2_reads n H) as R. unfold readsAs2 in R.
  now apply andb_true_iff in R.
Qed.

Lemma pad4_number Y : 0 <= Y < 10000 -> truncate (ofString (pad4 Y)) = Some Y.
Proof.
  intros H. pose proof (pad4_reads Y H) as R. unfold readsAs4 in R.
  apply andb_true_iff in R. destruct R as [_ R].
  destruct (truncate (ofString (pad4 Y))); [|discriminate].
  apply Z.eqb_eq in R. now subst.
Qed.

Lemma pad2_number n :
  0 <= n < 100 ->
  truncate (ofString (pad2 n)) = Some n /\
  truncate (sub (ofString (pad2 n)) (ofZ 1)) = Some (n - 1).
Proof.
  intros H. pose proof (pad2_reads n H) as R. unfold readsAs2 in R.
  apply andb_true_iff in R. destruct R as [_ R].
  destruct (truncate (ofString (pad2 n))); [|discriminate].
  destruct (truncate (sub (ofString (pad2 n)) (ofZ 1))); [|discriminate].
  apply andb_true_iff in R. destruct R as [R1 R2].
  apply Z.eqb_eq in R1, R2. now subst.
Qed.

Lemma split_three sep x a b c :
  Ascii.eqb x sep = false ->
  Str.split sep a = [a] -> Str.split sep b = [b] -> Str.split sep c = [c] ->
  Str.split sep (a ++ String x (b ++ String x c))%string
  = [(a ++ String x (b ++ String x c))%string].
Proof.
  intros N Ha Hb Hc. apply split_cat; [exact Ha|]. apply split_cons; [exact N|].
  apply split_cat; [exact Hb|]. apply split_cons; [exact N | exact Hc].
Qed.

Lemma mt4Date_parts Y M D h m s :
  0 <= Y < 10000 -> 0 <= M < 100 -> 0 <= D < 100 ->
  0 <= h < 100 -> 0 <= m < 100 -> 0 <= s < 100 ->
  Str.split " " (mt4Date Y M D h m s) = [dateText Y M D; timeText h m s] /\
  Str.split "." (dateText Y M D) = [pad4 Y; pad2 M; pad2 D] /\
  Str.split ":" (timeText h m s) = [pad2 h; pad2 m; pad2 s].
Proof.
  intros HY HM HD Hh Hm Hs.
  destruct (plain_split _ (pad4_plain Y HY)) as (Y1 & Y2 & Y3).
  destruct (plain_split _ (pad2_plain M HM)) as (M1 & M2 & M3).
  destruct (plain_split _ (pad2_plain D HD)) as (D1 & D2 & D3).
  destruct (plain_split _ (pad2_plain h Hh)) as (h1 & h2 & h3).
  destruct (plain_split _ (pad2_plain m Hm)) as (m1 & m2 & m3).
  destruct (plain_split _ (pad2_plain s Hs)) as (s1 & s2 & s3).
  unfold mt4Date, dateText, timeText. repeat split.
  - rewrite split_app.
    + f_equal. apply split_three; auto.
    + apply split_three; auto.
  - rewrite split_app by auto. f_equal. rewrite split_app by auto. now f_equal.
  - rewrite split_app by auto. f_equal. rewrite split_app by auto. now f_equal.
Qed.

Lemma TimeClip_in t :
  - JsDate.maxTime <= t <= JsDate.maxTime -> JsDate.TimeClip (Some t) = Some t.
Proof.
  intros H. unfold JsDate.TimeClip.
  destruct (Z.leb_spec (Z.abs t) JsDate.maxTime); [reflexivity | lia].
Qed.

Lemma parse_wellFormed Y M D h m s :
  100 <= Y <= 9999 -> 1 <= M <= 12 -> 1 <= D <= 31 ->
  0 <= h <= 23 -> 0 <= m <= 59 -> 0 <= s <= 59 ->
  parseMT4DateToUTC (mt4Date Y M D h m s)
  = Ok (Some (instant Y M D h m s - MT4_UTC_OFFSET * JsDate.msPerHour)).
Proof.
  intros HY HM HD Hh Hm Hs.
  destruct (mt4Date_parts Y M D h m s) as (P & Pd & Pt); try lia.
  unfold parseMT4DateToUTC. rewrite P. cbn [nth nth_error]. rewrite Pd, Pt.
  unfold element. cbn [map nth].
  rewrite (UTC_fields _ _ _ _ _ _ Y (M - 1) D h m s);
    try (apply pad4_number; lia); try (apply pad2_number; lia).
  unfold JsDate.MakeFullYear.
  replace ((0 <=? Y) && (Y <=? 99)) with false
    by (symmetry; apply andb_false_iff; right; apply Z.leb_gt; lia).
  rewrite MakeDay_civil by lia.
  assert (-800000 <= daysFromCivil Y M D <= 4000000) as B.
  { rewrite daysFromCivil_eq. unfold beforeMarch, marchDays.
    destruct (M <=? 2); cbv zeta; Z.div_mod_to_equations; lia. }
  assert (JsDate.MakeDate (Some (daysFromCivil Y M D)) (JsDate.MakeTime h m s 0)
          = Some (instant Y M D h m s)) as E.
  { rewrite MakeTime_exact, MakeDate_exact by
      (unfold JsDate.msPerHour, JsDate.msPerMinute, JsDate.msPerSecond; lia).
    unfold instant, JsDate.msPerDay, JsDate.msPerHour,
      JsDate.msPerMinute, JsDate.msPerSecond. f_equal. lia. }
  rewrite E. f_equal.
  assert (-70000000000000 <= instant Y M D h m s <= 400000000000000) as Bi
    by (unfold instant; lia).
  rewrite TimeClip_in by (unfold JsDate.maxTime; lia).
  change (fun h0 => h0 - MT4_UTC_OFFSET) with (fun h0 => h0 + - MT4_UTC_OFFSET).
  rewrite setUTCHours_shift by (unfold MT4_UTC_OFFSET, JsDate.maxTime; lia).
  rewrite TimeClip_in.
  - f_equal; unfold MT4_UTC_OFFSET, JsDate.msPerHour; lia.
  - unfold MT4_UTC_OFFSET, JsDate.msPerHour, JsDate.maxTime. lia.
Qed.

Lemma convert_shift t :
  - JsDate.maxTime - (TV_UTC_OFFSET + TV_DISPLAY_CORRECTION_HOURS) * JsDate.msPerHour <= t
     <= JsDate.maxTime ->
  convertToPineScriptTimestamp (Some t)
  = fieldsOf (t + (TV_UTC_OFFSET + TV_DISPLAY_CORRECTION_HOURS) * JsDate.msPerHour).
Proof.
  intros H. unfold convertToPineScriptTimestamp, JsDate.getTime.
  rewrite setUTCHours_shift.
  - rewrite TimeClip_in; [reflexivity|].
    unfold TV_UTC_OFFSET, TV_DISPLAY_CORRECTION_HOURS, JsDate.msPerHour, JsDate.maxTime in *.
    lia.
  - unfold TV_UTC_OFFSET, TV_DISPLAY_CORRECTION_HOURS, JsDate.msPerHour, JsDate.maxTime in *.
    lia.
  - unfold TV_UTC_OFFSET, TV_DISPLAY_CORRECTION_HOURS. lia.
Qed.

(** C5 (amended): for a well-formed date whose year is at least 0100,
    [parseMT4DateToUTC] gives the instant the date names less three hours;
    for a time value [t] at least four hours above the least one,
    [convertToPineScriptTimestamp] gives the calendar fields of [t] less
    four hours, the sum of the offset -6 and of the correction +2; and the
    date 2025.06.25 16:09:01 is read as 2025-06-25T13:09:01Z and shown as
    (2025, 6, 25, 9, 9). *)
Theorem timestamp_rules Y M D h m s t :
  100 <= Y <= 9999 -> 1 <= M <= 12 -> 1 <= D <= 31 ->
  0 <= h <= 23 -> 0 <= m <= 59 -> 0 <= s <= 59 ->
  - JsDate.maxTime + 4 * JsDate.msPerHour <= t <= JsDate.maxTime ->
  parseMT4DateToUTC (mt4Date Y M D h m s)
    = Ok (Some (instant Y M D h m s - 3 * JsDate.msPerHour)) /\
  convertToPineScriptTimestamp (Some t) = fieldsOf (t - 4 * JsDate.msPerHour) /\
  TV_UTC_OFFSET + TV_DISPLAY_CORRECTION_HOURS = -6 + 2 /\
  parseMT4DateToUTC "2025.06.25 16:09:01" = Ok (Some (instant 2025 6 25 13 9 1)) /\
  convertToPineScriptTimestamp (Some (instant 2025 6 25 13 9 1))
    = mkTimestamp (Some 2025) (Some 6) (Some 25) (Some 9) (Some 9).
Proof.
  intros HY HM HD Hh Hm Hs Ht. split; [|split; [|split; [|split]]].
  - apply parse_wellFormed; assumption.
  - rewrite convert_shift; [reflexivity|].
    unfold TV_UTC_OFFSET, TV_DISPLAY_CORRECTION_HOURS, JsDate.msPerHour, JsDate.maxTime in *. lia.
  - reflexivity.
  - vm_compute. reflexivity.
  - vm_compute. reflexivity.
Qed.

Lemma timestamp_rules_witness :
  mt4Date 2025 6 25 16 9 1 = "2025.06.25 16:09:01" /\
  parseMT4DateToUTC (mt4Date 2025 6 25 16 9 1)
    = Ok (Some (instant 2025 6 25 16 9 1 - 3 * JsDate.msPerHour)) /\
  convertToPineScriptTimestamp (Some 1750856941000)
    = fieldsOf (1750856941000 - 4 * JsDate.msPerHour).
Proof.
  split; [reflexivity|].
  pose proof (timestamp_rules 2025 6 25 16 9 1 1750856941000) as T.
  unfold JsDate.maxTime, JsDate.msPerHour in T.
  destruct T as (P & C & _); try lia. split; [exact P | exact C].
Defined.

(** C5 as stated fails at a year below 0100, which [Date.UTC] reads as a
    year of the twentieth century, and at the least time values, where the
    date four hours earlier is no date. *)
Lemma timestamp_rules_counterexample :
  mt4Date 50 1 1 0 0 0 = "0050.01.01 00:00:00" /\
  parseMT4DateToUTC "0050.01.01 00:00:00"
    = Ok (Some (instant 1950 1 1 0 0 0 - 3 * JsDate.msPerHour)) /\
  instant 1950 1 1 0 0 0 <> instant 50 1 1 0 0 0 /\
  convertToPineScriptTimestamp (Some (- JsDate.maxTime))
    = mkTimestamp None None None None None.
Proof.
  repeat split; try (vm_compute; reflexivity). vm_compute. discriminate.
Qed.

(** ** The generated script (C10) *)

Lemma written_app needle a b : written needle (a ++ b) = (written needle a + written needle b)%nat.
Proof.
  induction a as [|[s|v] a IH]; cbn; auto. rewrite IH. lia.
Qed.

Lemma labelsOf_Ok type_ trade r :
  labelsOf type_ trade = Ok r ->
  exists o, toTimestamp (openTimeRaw trade) = Ok o /\
    match type_ with
    | winner => exists c, toTimestamp (closeTimeRaw trade) = Ok c
    | _ => True
    end.
Proof.
  unfold labelsOf. destruct (toTimestamp (openTimeRaw trade)) as [o|]; [|discriminate].
  cbn [bind]. intros H. exists o. split; auto. destruct type_; auto.
  destruct (toTimestamp (closeTimeRaw trade)) as [c|]; [eauto | discriminate].
Qed.

(** *** Occurrences in a string that is put together *)

Lemma prefix_nil s : prefix EmptyString s = true.
Proof. destruct s; reflexivity. Qed.

Lemma prefix_app_l n t y : prefix n t = true -> prefix n (t ++ y) = true.
Proof.
  revert t. induction n as [|c n IH]; intros t H; [apply prefix_nil|].
  destruct t as [|d t]; [discriminate|]. cbn in *.
  destruct (Ascii.eqb_spec c d) as [E|E]; try discriminate.
  - destruct (ascii_dec c d); [auto | contradiction].
  - destruct (ascii_dec c d); [contradiction | discriminate].
Qed.

Lemma prefix_split n : forall t y,
  prefix n (t ++ y) = true ->
  prefix n t = true \/ exists u, n = (t ++ u)%string /\ u <> EmptyString /\ prefix u y = true.
Proof.
  induction n as [|c n IH]; intros t y H; [left; apply prefix_nil|].
  destruct t as [|d t].
  - right. exists (String c n). repeat split; [discriminate | exact H].
  - cbn in H |- *. destruct (ascii_dec c d) as [->|N]; [|discriminate].
    destruct (IH t y H) as [L|(u & -> & U & P)]; [left; exact L|].
    right. exists u. auto.
Qed.

Lemma prefix_self t u : prefix t (t ++ u) = true.
Proof.
  induction t as [|c t IH]; [apply prefix_nil|]. cbn.
  destruct (ascii_dec c c); [exact IH | contradiction].
Qed.

Lemma occurrences_nil needle : needle <> EmptyString -> occurrences needle EmptyString = 0%nat.
Proof. destruct needle; [contradiction | reflexivity]. Qed.

(** A text that ends with no beginning of [needle] keeps the occurrences
    of what follows apart from its own. *)
Lemma occurrences_text needle a y :
  needle <> EmptyString -> hangs needle a = false ->
  occurrences needle (a ++ y) = (occurrences needle a + occurrences needle y)%nat.
Proof.
  intros N. induction a as [|c a IH]; intros H.
  - cbn [append]. now rewrite occurrences_nil.
  - cbn [hangs] in H. apply orb_false_iff in H. destruct H as [H1 H2].
    cbn [append occurrences]. rewrite (IH H2).
    change (String c (a ++ y)) with (String c a ++ y)%string.
    replace (prefix needle (String c a ++ y)) with (prefix needle (String c a)); [lia|].
    destruct (prefix needle (String c a)) eqn:P.
    + symmetry. now apply prefix_app_l.
    + destruct (prefix needle (String c a ++ y)) eqn:Q; [|reflexivity].
      apply prefix_split in Q. destruct Q as [Q|(u & E & U & _)]; [congruence|].
      rewrite E in H1 at 1. rewrite prefix_self in H1. discriminate.
Qed.

Lemma tails_app c v u : In u (tails (String c v ++ u)).
Proof.
  revert c. induction v as [|d v IH]; intros c.
  - left. reflexivity.
  - right. apply (IH d).
Qed.

(** A value followed by a text that no end of [needle] can run into. *)
Lemma occurrences_value needle v b z :
  needle <> EmptyString -> blocks needle b = true ->
  occurrences needle (v ++ (b ++ z)) =
    (occurrences needle v + occurrences needle (b ++ z))%nat.
Proof.
  intros N B. induction v as [|c v IH].
  - cbn [append]. now rewrite occurrences_nil.
  - cbn [append occurrences]. rewrite IH.
    change (String c (v ++ (b ++ z))) with (String c v ++ (b ++ z))%string.
    replace (prefix needle (String c v ++ (b ++ z))) with (prefix needle (String c v)); [lia|].
    destruct (prefix needle (String c v)) eqn:P.
    + symmetry. now apply prefix_app_l.
    + destruct (prefix needle (String c v ++ (b ++ z))) eqn:Q; [|reflexivity].
      apply prefix_split in Q. destruct Q as [Q|(u & E & U & Q)]; [congruence|].
      unfold blocks in B. rewrite forallb_forall in B.
      assert (In u (tails needle)) as I by (rewrite E; apply tails_app).
      specialize (B u I). destruct u as [|d u]; [contradiction|]. cbn [Str.isEmpty orb] in B.
      apply andb_true_iff in B. destruct B as [B1 B2].
      apply negb_true_iff in B1, B2.
      apply prefix_split in Q. destruct Q as [Q|(u' & E' & _ & _)]; [congruence|].
      rewrite E' in B2 at 1. rewrite prefix_self in B2. discriminate.
Qed.

Lemma append_empty s : (s ++ EmptyString)%string = s.
Proof. induction s as [|c s IH]; cbn; congruence. Qed.

Lemma render_cons p t : render (p :: t) = (pieceString p ++ render t)%string.
Proof. reflexivity. Qed.

(** In a tight template the occurrences of [needle] in the script are the
    ones written in the text and the ones of the substituted values. *)
Lemma occurrences_render needle t :
  needle <> EmptyString -> tight needle t = true ->
  occurrences needle (render t) = (written needle t + substituted needle t)%nat.
Proof.
  intros N. induction t as [|p t IH]; intros T.
  - cbn. now apply occurrences_nil.
  - rewrite render_cons. destruct p as [a|v]; cbn [tight] in T;
      apply andb_true_iff in T; destruct T as [T1 T2]; cbn [pieceString written substituted].
    + apply negb_true_iff in T1. rewrite occurrences_text by assumption.
      rewrite (IH T2). lia.
    + destruct t as [|[b|w] t]; [| |discriminate].
      * cbn. rewrite append_empty. lia.
      * rewrite render_cons. cbn [pieceString].
        rewrite occurrences_value by assumption.
        change (b ++ render t)%string with (render (Text b :: t)).
        rewrite (IH T2). cbn [written substituted]. lia.
Qed.

Lemma prefix_uses P n : forall s, prefix n s = true -> uses P s = true -> uses P n = true.
Proof.
  induction n as [|c n IH]; intros s H U; [reflexivity|].
  destruct s as [|d s]; [discriminate|]. cbn in H, U |- *.
  destruct (ascii_dec c d) as [->|]; [|discriminate].
  apply andb_true_iff in U. destruct U as [U1 U2]. rewrite U1. cbn. eauto.
Qed.

(** A string over characters of which [needle] has not all holds no
    occurrence of it. *)
Lemma occurrences_uses P needle s :
  uses P s = true -> uses P needle = false -> occurrences needle s = 0%nat.
Proof.
  intros U N. induction s as [|c s IH].
  - destruct needle; [discriminate | reflexivity].
  - cbn [occurrences]. destruct (prefix needle (String c s)) eqn:Q.
    + rewrite (prefix_uses P _ _ Q U) in N. discriminate.
    + cbn in U. apply andb_true_iff in U. destruct U as [_ U]. now rewrite IH.
Qed.

(** *** What the values hold *)

Lemma uses_app P (a b : string) : uses P (a ++ b)%string = uses P a && uses P b.
Proof. induction a as [|c a IH]; cbn; [reflexivity|]. rewrite IH. apply andb_assoc. Qed.

Lemma uses_substring P s : uses P s = true -> forall n m, uses P (substring n m s) = true.
Proof.
  induction s as [|c s IH]; intros H n m.
  - destruct n, m; reflexivity.
  - cbn in H. apply andb_true_iff in H. destruct H as (C & H).
    destruct n as [|n]; [destruct m as [|m]|]; cbn; auto.
    rewrite C. cbn. apply IH. exact H.
Qed.

Lemma numeral_digits d : uses numeral (NilEmpty.string_of_uint d) = true.
Proof. induction d; cbn; auto. Qed.

Lemma numeral_uint d : uses numeral (NilZero.string_of_uint d) = true.
Proof. destruct d; try reflexivity; apply (numeral_digits (_ d)). Qed.

Lemma numeral_showZ z : uses numeral (showZ z) = true.
Proof.
  unfold showZ, NilZero.string_of_int.
  destruct (Z.to_int z) as [d|d]; [apply numeral_uint|].
  cbn. apply numeral_uint.
Qed.

Lemma numeral_zeros n : uses numeral (zeros n) = true.
Proof.
  unfold zeros. destruct n as [|p|p]; try reflexivity. cbn.
  apply Pos.iter_invariant; auto.
Qed.

Lemma numeral_layout d n : uses numeral (layout d n) = true.
Proof.
  unfold layout.
  repeat match goal with
         | |- context [if ?c then _ else _] => destruct c
         end;
    rewrite ?uses_app, ?numeral_zeros, ?numeral_showZ;
    rewrite ?uses_substring by apply numeral_showZ; reflexivity.
Qed.

(** What [Number::toString] and [toFixed] print: digits, signs, the point,
    the exponent mark and the letters of [Infinity] and [NaN]. *)
Lemma numeral_toString x : uses numeral (toString x) = true.
Proof.
  destruct x as [s|s| |s m e]; try reflexivity.
  - destruct s; reflexivity.
  - unfold toString. destruct (fraction m e) as [num den].
    destruct (shortest _ _ _ _ _ _) as [d n].
    rewrite uses_app, numeral_layout. destruct s; reflexivity.
Qed.

Lemma numeral_toFixed2 x : uses numeral (toFixed2 x) = true.
Proof.
  destruct x as [s|s| |s m e]; try reflexivity.
  - destruct s; reflexivity.
  - unfold toFixed2. destruct (fraction m e) as [num den].
    destruct (_ <=? _); [apply numeral_toString|].
    cbv zeta.
    set (ds := if _ <=? 2 then _ else _).
    assert (uses numeral ds = true) as D.
    { unfold ds. destruct (_ <=? 2); rewrite ?uses_app, ?numeral_zeros; apply numeral_showZ. }
    rewrite !uses_app, !uses_substring by exact D. destruct s; reflexivity.
Qed.

Lemma numeral_field v : uses numeral (pieceString (field v)) = true.
Proof. destruct v; [apply numeral_showZ | reflexivity]. Qed.

Lemma notLower_upper s : uses notLower (Str.toUpperCase s) = true.
Proof.
  induction s as [|c s IH]; [reflexivity|].
  cbn [Str.toUpperCase]. rewrite uses_app, IH, andb_true_r.
  destruct c as [[] [] [] [] [] [] [] []]; reflexivity.
Qed.

Lemma token_cases (P : string -> Prop) :
  P "label.new(" -> P "line.new(" -> P "color.green" -> P "color.blue" -> P "color.red" ->
  P "label.style_triangleup" -> P "label.style_triangledown" ->
  forall token, In token markerTokens -> P token.
Proof.
  intros H1 H2 H3 H4 H5 H6 H7 token I.
  repeat (destruct I as [<-|I]; [assumption|]). destruct I.
Qed.

Lemma token_numeral token : In token markerTokens -> uses numeral token = false.
Proof. revert token. apply token_cases; reflexivity. Qed.

Lemma token_lower token : In token markerTokens -> uses notLower token = false.
Proof. revert token. apply token_cases; reflexivity. Qed.

Lemma token_nonempty token : In token markerTokens -> token <> EmptyString.
Proof. revert token. apply token_cases; discriminate. Qed.

Lemma app_assoc_s (a b c : string) : ((a ++ b) ++ c = a ++ (b ++ c))%string.
Proof. induction a as [|x a IH]; cbn; congruence. Qed.

Lemma tooltip_render trade what when price :
  tooltipText trade what when price = render (tooltipPieces trade what when price).
Proof.
  unfold tooltipText, tooltipPieces, render. cbn [map pieceString Str.concat fold_right].
  rewrite append_empty. cbn [append]. rewrite !app_assoc_s. reflexivity.
Qed.

Lemma tooltip_occurrences token trade what when price :
  In token markerTokens -> In what ["Open"; "Close"; "Time"] ->
  occurrences token (tooltipText trade what when price) =
    (occurrences token (ticket trade) + occurrences token when)%nat.
Proof.
  intros T W. rewrite tooltip_render.
  pose proof (token_numeral token T) as N.
  rewrite occurrences_render; [|now apply token_nonempty|].
  - replace (written token (tooltipPieces trade what when price)) with 0%nat.
    + cbn [tooltipPieces substituted].
      rewrite (occurrences_uses numeral token (toString price)) by (auto using numeral_toString).
      rewrite (occurrences_uses numeral token (toFixed2 (profit trade)))
        by (auto using numeral_toFixed2).
      lia.
    + clear N. revert token T. cbn [In] in W.
      destruct W as [<-|[<-|[<-|[]]]]; apply token_cases; vm_compute; reflexivity.
  - clear N. revert token T. cbn [In] in W.
    destruct W as [<-|[<-|[<-|[]]]]; apply token_cases; vm_compute; reflexivity.
Qed.

Lemma render_app a b : render (a ++ b) = (render a ++ render b)%string.
Proof.
  induction a as [|p a IH]; [reflexivity|].
  cbn [app]. rewrite !render_cons, IH. symmetry. apply app_assoc_s.
Qed.

Lemma render_text s : render [Text s] = s.
Proof. apply append_empty. Qed.

Lemma free_occurrences token s :
  In token markerTokens -> tokenFree s = true -> occurrences token s = 0%nat.
Proof.
  intros I F. unfold tokenFree in F. rewrite forallb_forall in F.
  apply Nat.eqb_eq. now apply F.
Qed.

Lemma field_occurrences token v :
  In token markerTokens -> occurrences token (pieceString (field v)) = 0%nat.
Proof.
  intros I. apply (occurrences_uses numeral); [apply numeral_field | now apply token_numeral].
Qed.

Lemma number_occurrences token x :
  In token markerTokens -> occurrences token (toString x) = 0%nat.
Proof.
  intros I. apply (occurrences_uses numeral); [apply numeral_toString | now apply token_numeral].
Qed.

Lemma title_occurrences token s :
  In token markerTokens -> occurrences token (Str.toUpperCase s) = 0%nat.
Proof.
  intros I. apply (occurrences_uses notLower); [apply notLower_upper | now apply token_lower].
Qed.

Lemma timestamp_occurrences token (v : option Z) :
  In token markerTokens ->
  occurrences token (match v with Some z => showZ z | None => "NaN" end) = 0%nat.
Proof. apply (field_occurrences token v). Qed.

Lemma fixed_occurrences token x :
  In token markerTokens -> occurrences token (toFixed2 x) = 0%nat.
Proof.
  intros I. apply (occurrences_uses numeral); [apply numeral_toFixed2 | now apply token_numeral].
Qed.

Ltac isToken :=
  unfold markerTokens; cbn [In]; repeat first [left; reflexivity | right].

Ltac isWhat := cbn [In]; repeat first [left; reflexivity | right].

(** The occurrences of the token [N] in the values of the goal. *)
Ltac valuesOf N :=
  repeat match goal with
         | |- context [occurrences N (tooltipText ?t ?a ?b ?c)] =>
             rewrite (tooltip_occurrences N t a b c) by (isToken || isWhat)
         | |- context [occurrences N (toString ?x)] =>
             rewrite (number_occurrences N x) by isToken
         | |- context [occurrences N (Str.toUpperCase ?x)] =>
             rewrite (title_occurrences N x) by isToken
         | |- context [occurrences N (match ?v with Some z => showZ z | None => _ end)] =>
             rewrite (timestamp_occurrences N v) by isToken
         | H : tokenFree ?s = true |- context [occurrences N ?s] =>
             rewrite (free_occurrences N s) by (isToken || exact H)
         end.

(** The occurrences of a token in the rendering of a template that is
    given piece by piece. *)
Ltac countToken :=
  match goal with
  | |- occurrences ?N (render ?T) = _ =>
      rewrite (occurrences_render N T); [|discriminate|vm_compute; reflexivity];
      let n := eval vm_compute in (written N T) in
      replace (written N T) with n by (vm_compute; reflexivity);
      cbn [substituted field]; valuesOf N; reflexivity
  end.

Lemma script_render pre o c n m1 e m2 x :
  render (pre ++ List.concat [o; c; n] ++ [Text m1] ++ List.concat [e] ++ [Text m2]
          ++ List.concat [x] ++ [Text nl]) =
  (render pre ++ render o ++ render c ++ render n ++ m1 ++ render e ++ m2 ++ render x ++ nl)%string.
Proof.
  cbn [List.concat]. rewrite ?app_nil_r, !render_app, !render_text, !app_assoc_s. reflexivity.
Qed.

(** C10 (amended): when the texts of the report that the tooltips quote,
    the tickets and the open times of the three trades and the close time
    of the winner, hold none of the tokens, the script returned for one
    winner, one breakeven trade and one loser is the preamble, the three
    statements of the winner, the statement of the breakeven trade and
    the one of the loser; [label.new(] occurs in it four times, once in
    each of the two labels of the winner, in the label of the breakeven
    trade and in the one of the loser, and [line.new(] once, in the line
    of the winner; green occurs in the two labels of the winner only,
    blue in the label of the breakeven trade only and red in the one of
    the loser only, twice each; and the style of the triangle up occurs
    once, the one of the triangle down not at all, when the type of the
    loser is buy, the other way round for any other type. *)
Theorem script_of_three item_ w b l script :
  generatePineScript item_ (mkBuckets [w] [b] [l]) = Ok script ->
  forallb tokenFree (quotedTexts winner w ++ quotedTexts breakevenType b ++ quotedTexts loser l)
    = true ->
  exists open_ close_ line_ even_ lost_,
    generateLabels [w] winner = Ok [open_; close_; line_] /\
    generateLabels [b] breakevenType = Ok [even_] /\
    generateLabels [l] loser = Ok [lost_] /\
    script = (render (preamble (Str.toUpperCase item_)) ++
              render open_ ++ render close_ ++ render line_ ++
              (nl ++ "    // Break Even" ++ nl) ++ render even_ ++
              (nl ++ "    // Losers" ++ nl) ++ render lost_ ++ nl)%string /\
    occurrences "label.new(" script = 4%nat /\
    occurrences "line.new(" script = 1%nat /\
    seen script = (4, 2, 2)%nat /\
    map (fun s => occurrences "label.new(" (render s)) [open_; close_; line_; even_; lost_]
      = [1; 1; 0; 1; 1]%nat /\
    map (fun s => occurrences "line.new(" (render s)) [open_; close_; line_; even_; lost_]
      = [0; 0; 1; 0; 0]%nat /\
    map (fun s => seen (render s)) [open_; close_; line_; even_; lost_]
      = [(2, 0, 0); (2, 0, 0); (0, 0, 0); (0, 2, 0); (0, 0, 2)]%nat /\
    occurrences "label.style_triangleup" script
      = (if String.eqb (type l) "buy" then 1 else 0)%nat /\
    occurrences "label.style_triangledown" script
      = (if String.eqb (type l) "buy" then 0 else 1)%nat.
Proof.
  intros H F.
  cbn [quotedTexts app forallb] in F.
  repeat (apply andb_true_iff in F; destruct F as [? F]). clear F.
  unfold generatePineScript, scriptTemplate in H.
  cbn [winners breakeven losers generateLabels] in H.
  cbn [generateLabels].
  destruct (labelsOf winner w) as [sw|] eqn:Hw; [|discriminate].
  destruct (labelsOf breakevenType b) as [sb|] eqn:Hb; [|discriminate].
  destruct (labelsOf loser l) as [sl|] eqn:Hl; [|discriminate].
  cbn [bind] in H |- *. injection H as <-.
  unfold labelsOf in Hw, Hb, Hl.
  destruct (toTimestamp (openTimeRaw w)) as [wo|]; [|discriminate].
  destruct (toTimestamp (closeTimeRaw w)) as [wc|]; [|discriminate].
  destruct (toTimestamp (openTimeRaw b)) as [bo|]; [|discriminate].
  destruct (toTimestamp (openTimeRaw l)) as [lo|]; [|discriminate].
  cbn [bind] in Hw, Hb, Hl.
  injection Hw as <-. injection Hb as <-. injection Hl as <-.
  match goal with
  | |- exists _ _ _ _ _, Ok ([?O; ?C; ?N] ++ []) = _ /\ Ok ([?E] ++ []) = _
                         /\ Ok ([?X] ++ []) = _ /\ _ =>
      exists O, C, N, E, X;
      split; [reflexivity|]; split; [reflexivity|]; split; [reflexivity|];
      split; [exact (script_render (preamble (Str.toUpperCase item_)) O C N
                         (nl ++ "    // Break Even" ++ nl) E (nl ++ "    // Losers" ++ nl) X)|]
  end.
  unfold seen. cbn [List.concat app map].
  destruct (type l =? "buy")%string eqn:Buy;
    repeat split; repeat f_equal; countToken.
Qed.

Lemma script_of_three_witness :
  let w := sampleTrade "1" "eurusd" 50 in
  let b := sampleTrade "2" "eurusd" 0 in
  let l := sampleTrade "3" "eurusd" (-20) in
  exists script,
    generatePineScript "eurusd" (mkBuckets [w] [b] [l]) = Ok script /\
    occurrences "label.new(" script = 4%nat /\
    occurrences "line.new(" script = 1%nat /\
    seen script = (4, 2, 2)%nat /\
    occurrences "label.style_triangleup" script = 1%nat.
Proof.
  intros w b l.
  destruct (script_of_three "eurusd" w b l
              (match generatePineScript "eurusd" (mkBuckets [w] [b] [l]) with
               | Ok s => s
               | Throw => EmptyString
               end))
    as (_ & _ & _ & _ & _ & _ & _ & _ & _ & L1 & L2 & C & _ & _ & _ & U & _).
  - vm_compute. reflexivity.
  - vm_compute. reflexivity.
  - eexists. split; [vm_compute; reflexivity|].
    split; [exact L1|]. split; [exact L2|]. split; [exact C | exact U].
Defined.

(** C10 as stated fails when a text of the report holds a token: the
    ticket is quoted in both tooltips of the winner, and the script of a
    report whose winner has the ticket cell [77001 label.new(] holds
    [label.new(] six times. *)
Lemma script_of_three_counterexample :
  exists w b l script,
    processReport (reportOfThree "77001 label.new(") zero
      = Resolved [("eurusd", mkBuckets [w] [b] [l])] /\
    ticket w = "77001 label.new(" /\
    generatePineScript "eurusd" (mkBuckets [w] [b] [l]) = Ok script /\
    occurrences "label.new(" script = 6%nat.
Proof.
  do 4 eexists. split; [vm_compute; reflexivity|]. split; [reflexivity|].
  split; vm_compute; reflexivity.
Qed.

(** [generatePineScript] returns a script when each timestamp it reads
    holds a space. *)
Lemma toTimestamp_returns s :
  nth_error (Str.split " " s) 1 <> None -> exists t, toTimestamp s = Ok t.
Proof.
  unfold toTimestamp, parseMT4DateToUTC.
  destruct (nth_error (Str.split " " s) 1); [cbn; eauto | congruence].
Qed.

Lemma script_of_three_returns item_ w b l :
  nth_error (Str.split " " (openTimeRaw w)) 1 <> None ->
  nth_error (Str.split " " (closeTimeRaw w)) 1 <> None ->
  nth_error (Str.split " " (openTimeRaw b)) 1 <> None ->
  nth_error (Str.split " " (openTimeRaw l)) 1 <> None ->
  exists script, generatePineScript item_ (mkBuckets [w] [b] [l]) = Ok script.
Proof.
  intros Hwo Hwc Hb Hl.
  destruct (toTimestamp_returns _ Hwo) as (two & Two).
  destruct (toTimestamp_returns _ Hwc) as (twc & Twc).
  destruct (toTimestamp_returns _ Hb) as (tb & Tb).
  destruct (toTimestamp_returns _ Hl) as (tl & Tl).
  unfold generatePineScript, scriptTemplate. cbn [winners breakeven losers generateLabels].
  unfold labelsOf. rewrite Two, Twc, Tb, Tl. cbn [bind]. eauto.
Qed.

(** ** The calendar: years, months and days of a time value *)

Lemma DayFromYear_next y :
  JsDate.DayFromYear (y + 1) = JsDate.DayFromYear y + JsDate.DaysInYear y.
Proof.
  unfold JsDate.DayFromYear, JsDate.DaysInYear.
  destruct (Z.eqb_spec (y mod 4) 0); cbn [negb];
    [destruct (Z.eqb_spec (y mod 100) 0); cbn [negb];
     [destruct (Z.eqb_spec (y mod 400) 0); cbn [negb]|]|];
    Z.div_mod_to_equations; lia.
Qed.

Lemma DaysInYear_bounds y : 365 <= JsDate.DaysInYear y <= 366.
Proof.
  unfold JsDate.DaysInYear.
  destruct (negb _); [lia|]. destruct (negb _); [lia|]. destruct (negb _); lia.
Qed.

Lemma yearUp_largest fuel : forall d y,
  JsDate.DayFromYear y <= d -> d < JsDate.DayFromYear y + 365 * Z.of_nat fuel ->
  JsDate.DayFromYear (JsDate.yearUp fuel d y) <= d
    < JsDate.DayFromYear (JsDate.yearUp fuel d y + 1).
Proof.
  induction fuel as [|fuel IH]; intros d y L U; [lia|].
  cbn [JsDate.yearUp]. destruct (Z.leb_spec (JsDate.DayFromYear (y + 1)) d) as [N|N].
  - apply IH; auto. rewrite DayFromYear_next.
    pose proof (DaysInYear_bounds y). lia.
  - lia.
Qed.

(** [YearFromTime t] is the largest year that starts no later than [t],
    for every time value of a date. *)
Lemma YearFromTime_largest t :
  - JsDate.maxTime <= t <= JsDate.maxTime ->
  JsDate.TimeFromYear (JsDate.YearFromTime t) <= t
    < JsDate.TimeFromYear (JsDate.YearFromTime t + 1).
Proof.
  intros R. unfold JsDate.YearFromTime, JsDate.TimeFromYear.
  set (d := JsDate.Day t).
  assert (-100000000 <= d <= 100000000) as Rd
    by (unfold d, JsDate.Day, JsDate.msPerDay, JsDate.maxTime in *; Z.div_mod_to_equations; lia).
  assert (d * JsDate.msPerDay <= t < (d + 1) * JsDate.msPerDay) as Rt
    by (unfold d, JsDate.Day, JsDate.msPerDay; Z.div_mod_to_equations; lia).
  set (y0 := 1970 + (if 0 <=? d then d / 366 else d / 365)).
  assert (JsDate.DayFromYear y0 <= d < JsDate.DayFromYear y0 + 365 * Z.of_nat 1000) as [L U].
  { unfold y0, JsDate.DayFromYear. destruct (Z.leb_spec 0 d); Z.div_mod_to_equations; lia. }
  pose proof (yearUp_largest 1000 d y0 L U) as [A B].
  unfold JsDate.msPerDay in *. nia.
Qed.

Lemma DayFromYear_mono a b : a <= b -> JsDate.DayFromYear a <= JsDate.DayFromYear b.
Proof. unfold JsDate.DayFromYear. intros H. Z.div_mod_to_equations. lia. Qed.

Lemma TimeFromYear_days y : JsDate.TimeFromYear y = 86400000 * JsDate.DayFromYear y.
Proof. reflexivity. Qed.

Lemma YearFromTime_unique t y :
  - JsDate.maxTime <= t <= JsDate.maxTime ->
  JsDate.TimeFromYear y <= t < JsDate.TimeFromYear (y + 1) ->
  JsDate.YearFromTime t = y.
Proof.
  intros R [L U]. destruct (YearFromTime_largest t R) as [L' U'].
  rewrite TimeFromYear_days in L, U, L', U'.
  generalize dependent (JsDate.YearFromTime t). intros y' L' U'.
  destruct (Z.lt_trichotomy y' y) as [C|[C|C]]; [|exact C|].
  - pose proof (DayFromYear_mono (y' + 1) y ltac:(lia)). lia.
  - pose proof (DayFromYear_mono (y + 1) y' ltac:(lia)). lia.
Qed.

Lemma monthOf_start M leap doy :
  1 <= M <= 12 -> 0 <= leap <= 1 ->
  JsDate.monthStart (M - 1) leap <= doy < JsDate.monthStart (M - 1) leap + daysInMonth M leap ->
  JsDate.monthOf 11 doy leap 0 = M - 1 /\ 0 <= doy < 365 + leap.
Proof.
  intros HM HL R.
  assert (M = 1 \/ M = 2 \/ M = 3 \/ M = 4 \/ M = 5 \/ M = 6 \/ M = 7 \/ M = 8 \/ M = 9
          \/ M = 10 \/ M = 11 \/ M = 12) as C by lia.
  assert (leap = 0 \/ leap = 1) as [-> | ->] by lia;
    repeat (destruct C as [->|C]); try subst M;
    cbn in R; (split; [|lia]); cbn [JsDate.monthOf];
    repeat (match goal with
            | |- context [?a <=? doy] =>
                let a' := eval vm_compute in a in
                change a with a'; destruct (Z.leb_spec a' doy); try lia
            end); reflexivity.
Qed.

(** The calendar fields of the instant that a date names are the fields
    of the date. *)
Lemma fields_of_named Y M D h m s :
  0 <= Y <= 9999 -> 1 <= M <= 12 -> 1 <= D <= daysInMonth M (leapDay Y) ->
  0 <= h <= 23 -> 0 <= m <= 59 -> 0 <= s <= 59 ->
  fieldsOf (instant Y M D h m s)
  = mkTimestamp (Some Y) (Some M) (Some D) (Some h) (Some m).
Proof.
  intros HY HM HD Hh Hm Hs.
  pose proof (calendar_agrees Y M D HM) as A.
  assert (0 <= leapDay Y <= 1) as HL by (unfold leapDay; destruct (_ =? _); lia).
  assert (JsDate.DaysInYear Y = 365 + leapDay Y) as HDY.
  { unfold leapDay. pose proof (DaysInYear_bounds Y).
    destruct (Z.eqb_spec (JsDate.DaysInYear Y) 366); lia. }
  set (doy := JsDate.monthStart (M - 1) (leapDay Y) + D - 1).
  assert (JsDate.monthStart (M - 1) (leapDay Y) <= doy
          < JsDate.monthStart (M - 1) (leapDay Y) + daysInMonth M (leapDay Y)) as Rm
    by (unfold doy; lia).
  destruct (monthOf_start M (leapDay Y) doy HM HL Rm) as [EM0 Rd]. rewrite <- HDY in Rd.
  set (t := instant Y M D h m s).
  assert (t = (JsDate.DayFromYear Y + doy) * 86400000 + h * 3600000 + m * 60000 + s * 1000) as Et
    by (unfold t, instant, doy; lia).
  assert (-800000 <= JsDate.DayFromYear Y <= 3000000) as RY
    by (unfold JsDate.DayFromYear; Z.div_mod_to_equations; lia).
  assert (JsDate.Day t = JsDate.DayFromYear Y + doy) as ED
    by (unfold JsDate.Day, JsDate.msPerDay; rewrite Et; Z.div_mod_to_equations; lia).
  assert (JsDate.YearFromTime t = Y) as EY.
  { apply YearFromTime_unique.
    - unfold JsDate.maxTime. lia.
    - unfold JsDate.TimeFromYear, JsDate.msPerDay. rewrite DayFromYear_next. lia. }
  assert (JsDate.InLeapYear t = leapDay Y) as EL by (unfold JsDate.InLeapYear; now rewrite EY).
  assert (JsDate.DayWithinYear t = doy) as EW by (unfold JsDate.DayWithinYear; rewrite EY, ED; lia).
  assert (JsDate.MonthFromTime t = M - 1) as EM
    by (unfold JsDate.MonthFromTime; rewrite EW, EL; exact EM0).
  unfold fieldsOf. fold t. rewrite EY. f_equal.
  - f_equal. rewrite EM. lia.
  - f_equal. unfold JsDate.DateFromTime. rewrite EW, EL, EM. unfold doy. lia.
  - f_equal. unfold JsDate.HourFromTime, JsDate.msPerHour. rewrite Et.
    Z.div_mod_to_equations. lia.
  - f_equal. unfold JsDate.MinFromTime, JsDate.msPerMinute. rewrite Et.
    Z.div_mod_to_equations. lia.
Qed.
(** * Further properties of the code *)

(** ** When a timestamp can be read *)

Lemma split_second s :
  nth_error (Str.split " " s) 1 = None <-> spaced s = false.
Proof.
  unfold spaced. induction s as [|c s IH].
  - cbn. tauto.
  - cbn [Str.split Str.includes prefix].
    destruct (Str.split " " s) as [|p ps] eqn:E; [now apply split_nonempty in E|].
    destruct (Ascii.eqb_spec c " "%char) as [->|N].
    + cbn. destruct s; cbn; split; discriminate.
    + destruct (Ascii.ascii_dec " " c) as [Q|_]; [congruence|].
      cbn [nth_error orb]. exact IH.
Qed.

(** X1: [parseMT4DateToUTC] throws exactly on the strings that hold no
    space; on every other string it returns a date, valid or not. *)
Theorem parse_throws dateStr :
  parseMT4DateToUTC dateStr = Throw <-> spaced dateStr = false.
Proof.
  rewrite <- split_second. unfold parseMT4DateToUTC.
  destruct (nth_error (Str.split " " dateStr) 1); split; congruence.
Qed.

Lemma parse_returns s : spaced s = true <-> exists d, parseMT4DateToUTC s = Ok d.
Proof.
  pose proof (split_second s) as T. unfold parseMT4DateToUTC.
  destruct (nth_error (Str.split " " s) 1) as [p|], (spaced s); split; intros H; eauto;
    try discriminate; try (destruct H; discriminate).
  - destruct T as [_ T]. discriminate T. reflexivity.
  - destruct T as [T _]. discriminate T. reflexivity.
Qed.

Lemma toTimestamp_spaced s : (exists t, toTimestamp s = Ok t) <-> spaced s = true.
Proof.
  rewrite parse_returns. unfold toTimestamp. split.
  - intros (t & H). apply bind_Ok in H. destruct H as (d & D & _). eauto.
  - intros (d & ->). cbn. eauto.
Qed.

Lemma element_missing l i : (List.length l <= i)%nat -> element l i = NaN.
Proof. intros H. unfold element. apply nth_overflow. now rewrite length_map. Qed.

Lemma UTC_no_day y mo h mi s : JsDate.UTC y mo NaN h mi s = None.
Proof.
  unfold JsDate.UTC, JsDate.ap. cbn [truncate NaN].
  destruct (option_map JsDate.MakeFullYear (truncate y)), (truncate mo); reflexivity.
Qed.

Lemma UTC_no_seconds y mo d h mi : JsDate.UTC y mo d h mi NaN = None.
Proof.
  unfold JsDate.UTC, JsDate.ap. cbn [truncate NaN].
  destruct (option_map JsDate.MakeFullYear (truncate y)), (truncate mo), (truncate d),
    (truncate h), (truncate mi); try reflexivity;
    match goal with |- match ?x with _ => _ end = _ => destruct x; reflexivity end.
Qed.

(** X2: a string with a space whose date part has fewer than three
    components between dots, or whose time part fewer than three between
    colons, is read without an exception as an invalid date, and each of
    the five fields of its display timestamp is [NaN]. *)
Theorem parse_incomplete dateStr datePart timePart rest :
  Str.split " " dateStr = datePart :: timePart :: rest ->
  (List.length (Str.split "." datePart) < 3)%nat \/
  (List.length (Str.split ":" timePart) < 3)%nat ->
  parseMT4DateToUTC dateStr = Ok None /\
  toTimestamp dateStr = Ok (mkTimestamp None None None None None).
Proof.
  intros S H.
  assert (parseMT4DateToUTC dateStr = Ok None) as P.
  { unfold parseMT4DateToUTC. rewrite S. cbn [nth nth_error].
    destruct H as [H|H].
    - rewrite (element_missing (Str.split "." datePart) 2) by lia.
      rewrite UTC_no_day. reflexivity.
    - rewrite (element_missing (Str.split ":" timePart) 2) by lia.
      rewrite UTC_no_seconds. reflexivity. }
  split; [exact P|]. unfold toTimestamp. rewrite P. reflexivity.
Qed.

Lemma parse_incomplete_witness :
  parseMT4DateToUTC "2025.06.25 16:09" = Ok None /\
  toTimestamp "2025.06.25 16:09" = Ok (mkTimestamp None None None None None).
Proof.
  apply (parse_incomplete "2025.06.25 16:09" "2025.06.25" "16:09" []).
  - reflexivity.
  - right. cbn. lia.
Defined.

Lemma split_parts sep s : Forall (fun p => Str.split sep p = [p]) (Str.split sep s).
Proof.
  induction s as [|c s IH]; cbn [Str.split].
  - constructor; [reflexivity | constructor].
  - destruct (Ascii.eqb c sep) eqn:E.
    + constructor; [reflexivity | exact IH].
    + destruct (Str.split sep s) as [|p ps]; [repeat constructor; cbn; now rewrite E|].
      inversion IH as [|? ? P Ps]; subst. constructor; [|exact Ps].
      now apply split_cons.
Qed.

(** X18: only the first two parts of the string, as the spaces cut it,
    are read: whatever follows a second space, a suffix such as PM for
    instance, is ignored without an error and without an effect. *)
Theorem parse_ignores_rest dateStr datePart timePart rest :
  Str.split " " dateStr = datePart :: timePart :: rest ->
  parseMT4DateToUTC dateStr = parseMT4DateToUTC (datePart ++ " " ++ timePart)%string.
Proof.
  intros S. pose proof (split_parts " " dateStr) as P. rewrite S in P.
  inversion P as [|? ? Pd P']; subst. inversion P' as [|? ? Pt _]; subst.
  unfold parseMT4DateToUTC. rewrite S.
  change (datePart ++ " " ++ timePart)%string with (datePart ++ String " " timePart)%string.
  rewrite (split_app " " datePart timePart Pd), Pt. reflexivity.
Qed.

Lemma parse_ignores_rest_witness :
  parseMT4DateToUTC "2025.06.25 04:09:01 PM" = parseMT4DateToUTC "2025.06.25 04:09:01" /\
  parseMT4DateToUTC "2025.06.25 04:09:01" = Ok (Some (instant 2025 6 25 1 9 1)).
Proof.
  split; [|vm_compute; reflexivity].
  apply (parse_ignores_rest "2025.06.25 04:09:01 PM" "2025.06.25" "04:09:01" ["PM"]).
  reflexivity.
Defined.

(** ** The display timestamp of a broker time *)

Lemma leapDay_bounds y : 0 <= leapDay y <= 1.
Proof. unfold leapDay. destruct (_ =? _); lia. Qed.

Lemma leapDay_year y : JsDate.DaysInYear y = 365 + leapDay y.
Proof.
  unfold leapDay. pose proof (DaysInYear_bounds y).
  destruct (Z.eqb_spec (JsDate.DaysInYear y) 366); lia.
Qed.

Ltac leaps leap :=
  assert (leap = 0 \/ leap = 1) as Hleaps by lia; destruct Hleaps; subst leap.

Ltac months M :=
  assert (M = 1 \/ M = 2 \/ M = 3 \/ M = 4 \/ M = 5 \/ M = 6 \/ M = 7 \/ M = 8 \/ M = 9
          \/ M = 10 \/ M = 11 \/ M = 12) as Hmonths by lia;
  repeat (destruct Hmonths as [Hmonths|Hmonths]); subst M.

Lemma daysInMonth_bounds M leap :
  1 <= M <= 12 -> 0 <= leap <= 1 -> 28 <= daysInMonth M leap <= 31.
Proof. intros HM HL. leaps leap; months M; unfold daysInMonth; cbn; lia. Qed.

Lemma monthStart_next M leap :
  2 <= M <= 12 -> 0 <= leap <= 1 ->
  JsDate.monthStart (M - 1) leap = JsDate.monthStart (M - 2) leap + daysInMonth (M - 1) leap.
Proof. intros HM HL. leaps leap; months M; try lia; unfold daysInMonth; cbn; lia. Qed.

Lemma monthStart_bounds M leap :
  1 <= M <= 12 -> 0 <= leap <= 1 -> 0 <= JsDate.monthStart (M - 1) leap <= 335.
Proof. intros HM HL. leaps leap; months M; cbn; lia. Qed.

Lemma dayBefore_days Y M D :
  1 <= M <= 12 -> 1 <= D ->
  let '(Y', M', D') := dayBefore Y M D in
  daysFromCivil Y' M' D' = daysFromCivil Y M D - 1.
Proof.
  intros HM HD. unfold dayBefore.
  destruct (Z.leb_spec 2 D) as [D2|D1]; [|destruct (Z.leb_spec 2 M) as [M2|M1]].
  - rewrite <- !calendar_agrees by lia. lia.
  - rewrite <- !calendar_agrees by lia.
    rewrite (monthStart_next M) by (auto using leapDay_bounds; lia).
    replace (M - 1 - 1) with (M - 2) by lia. lia.
  - assert (M = 1) as -> by lia. assert (D = 1) as -> by lia.
    rewrite <- !calendar_agrees by lia.
    pose proof (DayFromYear_next (Y - 1)) as N.
    replace (Y - 1 + 1) with Y in N by lia. rewrite N, leapDay_year.
    change (12 - 1) with 11. change (1 - 1) with 0. cbn [JsDate.monthStart]. lia.
Qed.

Lemma dayBefore_named Y M D :
  1 <= Y <= 9999 -> 1 <= M <= 12 -> 1 <= D <= daysInMonth M (leapDay Y) ->
  let '(Y', M', D') := dayBefore Y M D in
  0 <= Y' <= 9999 /\ 1 <= M' <= 12 /\ 1 <= D' <= daysInMonth M' (leapDay Y').
Proof.
  intros HY HM HD. unfold dayBefore.
  destruct (Z.leb_spec 2 D) as [D2|D1]; [|destruct (Z.leb_spec 2 M) as [M2|M1]].
  - lia.
  - pose proof (daysInMonth_bounds (M - 1) (leapDay Y) ltac:(lia) (leapDay_bounds Y)). lia.
  - pose proof (leapDay_bounds (Y - 1)) as L. generalize dependent (leapDay (Y - 1)).
    intros leap L. leaps leap; unfold daysInMonth; cbn; lia.
Qed.

Lemma instant_bounds Y M D h m s :
  0 <= Y <= 9999 -> 1 <= M <= 12 -> 1 <= D <= 31 ->
  0 <= h <= 23 -> 0 <= m <= 59 -> 0 <= s <= 59 ->
  - 63000000000000 <= instant Y M D h m s <= 254000000000000.
Proof.
  intros HY HM HD Hh Hm Hs. unfold instant. rewrite <- calendar_agrees by lia.
  pose proof (DayFromYear_mono 0 Y ltac:(lia)) as L.
  pose proof (DayFromYear_mono Y 9999 ltac:(lia)) as U.
  pose proof (monthStart_bounds M (leapDay Y) HM (leapDay_bounds Y)) as S.
  change (JsDate.DayFromYear 0) with (-719528) in L.
  change (JsDate.DayFromYear 9999) with 2932532 in U.
  lia.
Qed.

(** X3: for a broker time [YYYY.MM.DD HH:MM:SS] that names a day of the
    calendar in the years 0100 to 9999, [toTimestamp], which composes
    [parseMT4DateToUTC] with [convertToPineScriptTimestamp], returns the
    same minute seven hours earlier: the same day with the hour less
    seven from 07:00 on, and the day before with the hour plus seventeen
    before 07:00, across the ends of months and years. *)
Theorem display_time Y M D h m s :
  100 <= Y <= 9999 -> 1 <= M <= 12 -> 1 <= D <= daysInMonth M (leapDay Y) ->
  0 <= h <= 23 -> 0 <= m <= 59 -> 0 <= s <= 59 ->
  toTimestamp (mt4Date Y M D h m s) = Ok (sevenHoursEarlier Y M D h m).
Proof.
  intros HY HM HD Hh Hm Hs.
  pose proof (daysInMonth_bounds M (leapDay Y) HM (leapDay_bounds Y)) as B.
  unfold toTimestamp. rewrite parse_wellFormed by lia. cbn [bind]. f_equal.
  pose proof (instant_bounds Y M D h m s ltac:(lia) HM ltac:(lia) Hh Hm Hs) as I.
  rewrite convert_shift
    by (unfold MT4_UTC_OFFSET, TV_UTC_OFFSET, TV_DISPLAY_CORRECTION_HOURS,
          JsDate.maxTime, JsDate.msPerHour; lia).
  unfold sevenHoursEarlier.
  destruct (Z.leb_spec 7 h) as [H7|H7].
  - rewrite <- (fields_of_named Y M D (h - 7) m s) by lia. f_equal.
    unfold instant, MT4_UTC_OFFSET, TV_UTC_OFFSET, TV_DISPLAY_CORRECTION_HOURS,
      JsDate.msPerHour. lia.
  - pose proof (dayBefore_days Y M D HM ltac:(lia)) as E.
    pose proof (dayBefore_named Y M D ltac:(lia) HM HD) as N.
    destruct (dayBefore Y M D) as [[Y' M'] D'].
    rewrite <- (fields_of_named Y' M' D' (h + 17) m s) by lia. f_equal.
    unfold instant, MT4_UTC_OFFSET, TV_UTC_OFFSET, TV_DISPLAY_CORRECTION_HOURS,
      JsDate.msPerHour. rewrite E. lia.
Qed.

Lemma display_time_witness :
  toTimestamp "2024.03.01 02:30:00"
  = Ok (mkTimestamp (Some 2024) (Some 2) (Some 29) (Some 19) (Some 30)).
Proof.
  apply (display_time 2024 3 1 2 30 0); vm_compute; split; discriminate.
Defined.

(** ** When [classifyAndGroupTrades] returns, exactly *)

Lemma byOpenTime_returns x y :
  (exists v, byOpenTime x y = Ok v) <->
  spaced (openTimeRaw x) = true /\ spaced (openTimeRaw y) = true.
Proof.
  unfold byOpenTime. rewrite !parse_returns. split.
  - intros (v & H). apply bind_Ok in H. destruct H as (a & Ha & H).
    apply bind_Ok in H. destruct H as (b & Hb & _). eauto.
  - intros ((a & ->) & (b & ->)). cbn. eauto.
Qed.

Lemma isAfter_returns x y :
  (exists c, isAfter byOpenTime x y = Ok c) <->
  spaced (openTimeRaw x) = true /\ spaced (openTimeRaw y) = true.
Proof.
  rewrite <- byOpenTime_returns. unfold isAfter. split.
  - intros (c & H). apply bind_Ok in H. destruct H as (v & -> & _). eauto.
  - intros (v & ->). cbn. eauto.
Qed.

Lemma insert_spaced x : forall l,
  spaced (openTimeRaw x) = true -> Forall (fun t => spaced (openTimeRaw t) = true) l ->
  exists r, insert byOpenTime x l = Ok r.
Proof.
  induction l as [|y l IH]; intros X L.
  - cbn. eauto.
  - inversion L as [|? ? Y L']; subst. cbn [insert].
    destruct (proj2 (isAfter_returns x y) (conj X Y)) as (c & ->). cbn [bind].
    destruct c; [|eauto]. destruct (IH X L') as (r & ->). cbn. eauto.
Qed.

(** The sort of a bucket throws when the bucket has two trades or more
    and one of them has an open time without a space. *)
Lemma sort_returns l : (exists l', sort byOpenTime l = Ok l') <-> sortable l.
Proof.
  unfold sortable. split.
  - induction l as [|x l IH]; intros (l' & H).
    + left. cbn. lia.
    + cbn [sort] in H. apply bind_Ok in H. destruct H as (s & Hs & H).
      destruct l as [|y l]; [left; cbn; lia|]. right.
      pose proof (sort_perm _ _ _ Hs) as P.
      destruct s as [|z s]; [apply Permutation_sym, Permutation_nil in P; discriminate|].
      cbn [insert] in H. apply bind_Ok in H. destruct H as (c & Hc & _).
      destruct (proj1 (isAfter_returns x z) (ex_intro _ c Hc)) as (X & Z).
      constructor; [exact X|].
      destruct (IH (ex_intro _ _ Hs)) as [L|L]; [|exact L].
      destruct l as [|? ?]; [|cbn in L; lia].
      apply Permutation_length_1_inv in P. injection P as -> _. constructor; auto.
  - intros [L|L].
    + destruct l as [|x [|y l]]; cbn in L; try lia; cbn; eauto.
    + induction L as [|x l X L IH].
      * cbn. eauto.
      * destruct IH as (s & Hs). cbn [sort]. rewrite Hs. cbn [bind].
        apply insert_spaced; auto.
        eapply Permutation_Forall; [apply (sort_perm _ _ _ Hs) | exact L].
Qed.

Lemma firstPass_returns beTolerance ts : forall g m,
  cleanKeys g ->
  ((exists g' m', forEach (firstPass beTolerance) ts (g, m) = Ok (g', m')) <->
   (forall t, In t ts -> isWinner beTolerance t = false -> inherited (item t) = false)).
Proof.
  intros g m C. split.
  - intros (g' & m' & H). eapply firstPass_run_clean; eauto.
  - clear C. revert g m. induction ts as [|t ts IH]; intros g m I.
    + cbn. eauto.
    + cbn [forEach].
      assert (exists g1 m1, firstPass beTolerance (g, m) t = Ok (g1, m1)) as (g1 & m1 & ->).
      { unfold firstPass. specialize (I t (or_introl eq_refl)). unfold isWinner in I.
        destruct (gt (profit t) beTolerance).
        - destruct (mapGet m (dedupKey t)) as [ex|];
            [destruct (gt (profit t) (profit ex))|]; eauto.
        - pose proof (getOwn_ensured g (item t) (I eq_refl)) as P.
          destruct (ge (profit t) (neg beTolerance) && le (profit t) beTolerance);
            [destruct (push_total Breakeven _ _ t P) as (g1 & ->)
            |destruct (push_total Losers _ _ t P) as (g1 & ->)]; cbn; eauto. }
      cbn [bind]. apply IH. intros; apply I; auto. right; auto.
Qed.

Lemma thirdPass_returns g :
  (exists g', thirdPass g = Ok g') <->
  (forall k b, In (k, b) g ->
     sortable (winners b) /\ sortable (breakeven b) /\ sortable (losers b)).
Proof.
  induction g as [|[k0 b0] g IH].
  - split; [intros _ ? ? [] | cbn; eauto].
  - cbn [thirdPass]. split.
    + intros (g' & H).
      apply bind_Ok in H. destruct H as (w & Hw & H).
      apply bind_Ok in H. destruct H as (e & He & H).
      apply bind_Ok in H. destruct H as (l & Hl & H).
      apply bind_Ok in H. destruct H as (r & Hr & _).
      intros k b [[= <- <-]|I].
      * rewrite <- !sort_returns. repeat split; eauto.
      * apply (proj1 IH (ex_intro _ _ Hr) k b I).
    + intros S.
      destruct (S k0 b0 (or_introl eq_refl)) as (Sw & Se & Sl).
      apply sort_returns in Sw, Se, Sl.
      destruct Sw as (w & ->), Se as (e & ->), Sl as (l & ->).
      destruct (proj2 IH) as (r & ->); [intros k b I; apply (S k b); right; exact I|].
      cbn. eauto.
Qed.

Lemma kept_In beTolerance ts t :
  In t (kept beTolerance ts) <->
  In t (survivors beTolerance ts) \/ (In t ts /\ isWinner beTolerance t = false).
Proof.
  unfold kept. rewrite in_app_iff, filter_In, negb_true_iff. tauto.
Qed.

Lemma kept_incl beTolerance ts : incl (kept beTolerance ts) ts.
Proof.
  intros t H. apply kept_In in H. destruct H as [H|[H _]]; auto.
  now apply survivors_incl in H.
Qed.

Lemma placed_kept beTolerance n k ts t :
  n <> Winners -> In t (filter (placed beTolerance n k) ts) ->
  In t (kept beTolerance ts) /\ item t = k.
Proof.
  intros N H. apply filter_In in H. destruct H as (T & P).
  unfold placed in P. apply andb_true_iff in P. destruct P as (Q & B).
  apply String.eqb_eq in Q. split; auto. apply kept_In. right. split; auto.
  unfold isWinner. unfold bucketOf in B.
  destruct (gt (profit t) beTolerance); auto. destruct n; try discriminate. congruence.
Qed.

Lemma survivor_kept beTolerance k ts t :
  In t (filter (hasItem k) (survivors beTolerance ts)) ->
  In t (kept beTolerance ts) /\ item t = k.
Proof.
  intros H. apply filter_In in H. destruct H as (T & P).
  apply String.eqb_eq in P. split; auto. apply kept_In. auto.
Qed.

Lemma present_after_first beTolerance ts k t :
  In t ts -> item t = k -> inherited k = false ->
  grow beTolerance ts k None =
  Some (mkBuckets [] (filter (placed beTolerance Breakeven k) ts)
                     (filter (placed beTolerance Losers k) ts)).
Proof.
  intros T Q I. unfold grow. rewrite I.
  assert (existsb (fun t => String.eqb (item t) k) ts = true) as ->; [|reflexivity].
  apply existsb_exists. exists t. split; auto. now apply String.eqb_eq.
Qed.

Lemma classify_necessary ts beTolerance g :
  classifyAndGroupTrades ts beTolerance = Ok g ->
  (forall t, In t (kept beTolerance ts) -> inherited (item t) = false) /\
  (forall k, sortable (filter (hasItem k) (survivors beTolerance ts)) /\
             sortable (filter (placed beTolerance Breakeven k) ts) /\
             sortable (filter (placed beTolerance Losers k) ts)).
Proof.
  assert (cleanKeys []) as C0 by (intros k; cbn; congruence).
  assert (forall l : list Trade, (forall t, In t l -> sortable l) -> sortable l) as E.
  { intros [|t l] H; [left; cbn; lia | apply (H t); left; auto]. }
  unfold classifyAndGroupTrades. intros H.
  apply bind_Ok in H. destruct H as ([g1 m1] & H1 & H).
  apply bind_Ok in H. destruct H as (g2 & H2 & H3).
  destruct (firstPass_run_clean _ _ _ _ _ _ C0 H1) as (C1 & I1).
  destruct (secondPass_run_clean _ _ _ C1 H2) as (C2 & I2).
  apply firstPass_run in H1. destruct H1 as (-> & N1 & G1).
  pose proof (secondPass_run _ _ _ H2) as (N2 & G2).
  assert (forall t, In t (kept beTolerance ts) -> inherited (item t) = false) as K.
  { intros t T. apply kept_In in T. destruct T as [T|[T W]]; auto. }
  split; [exact K|].
  pose proof (proj1 (thirdPass_returns g2) (ex_intro _ _ H3)) as S.
  assert (forall k t, In t (kept beTolerance ts) -> item t = k ->
            In (k, mkBuckets (filter (hasItem k) (survivors beTolerance ts))
                             (filter (placed beTolerance Breakeven k) ts)
                             (filter (placed beTolerance Losers k) ts)) g2) as P.
  { intros k t T Q. apply getOwn_In; [apply N2, N1; constructor|].
    rewrite G2, G1. cbn [getOwn].
    rewrite (present_after_first beTolerance ts k t (kept_incl _ _ _ T) Q);
      [reflexivity | rewrite <- Q; auto]. }
  intros k. repeat split; apply E; intros t T.
  - destruct (survivor_kept _ _ _ _ T) as (T1 & Q). apply (S _ _ (P k t T1 Q)).
  - destruct (placed_kept _ Breakeven _ _ _ ltac:(discriminate) T) as (T1 & Q).
    apply (S _ _ (P k t T1 Q)).
  - destruct (placed_kept _ Losers _ _ _ ltac:(discriminate) T) as (T1 & Q).
    apply (S _ _ (P k t T1 Q)).
Qed.

Lemma classify_sufficient ts beTolerance :
  (forall t, In t (kept beTolerance ts) -> inherited (item t) = false) ->
  (forall k, sortable (filter (hasItem k) (survivors beTolerance ts)) /\
             sortable (filter (placed beTolerance Breakeven k) ts) /\
             sortable (filter (placed beTolerance Losers k) ts)) ->
  exists g, classifyAndGroupTrades ts beTolerance = Ok g.
Proof.
  assert (cleanKeys []) as C0 by (intros k; cbn; congruence).
  unfold classifyAndGroupTrades. intros K S.
  destruct (proj2 (firstPass_returns beTolerance ts [] [] C0)) as (g1 & m1 & H1).
  { intros t T W. apply K, kept_In. auto. }
  rewrite H1. cbn [bind].
  pose proof (firstPass_run _ _ _ _ _ _ H1) as (-> & N1 & G1).
  destruct (secondPass_total (mapValues (dedupFrom beTolerance ts [])) g1) as (g2 & H2).
  { intros w W. rewrite G1. cbn [getOwn].
    rewrite (present_after_first beTolerance ts (item w) w); try discriminate; auto.
    - now apply survivors_incl in W.
    - apply K, kept_In. auto. }
  rewrite H2. cbn [bind].
  pose proof (secondPass_run _ _ _ H2) as (N2 & G2).
  apply thirdPass_returns. intros k b H.
  apply getOwn_In in H; [|apply N2, N1; constructor].
  rewrite G2, G1 in H. cbn [getOwn] in H. unfold grow in H.
  destruct (existsb _ ts && negb (inherited k)); [|discriminate].
  injection H as <-. cbn. apply S.
Qed.

(** X4: [classifyAndGroupTrades] returns a result, instead of throwing,
    exactly when no trade that is kept, a surviving winner or a trade that
    is no winner candidate, has an instrument named like a member of
    [Object.prototype], and every bucket that comes to hold two trades or
    more holds only open times with a space. *)
Theorem classify_returns ts beTolerance :
  (exists g, classifyAndGroupTrades ts beTolerance = Ok g) <->
  (forall t, In t (kept beTolerance ts) -> inherited (item t) = false) /\
  (forall k, sortable (filter (hasItem k) (survivors beTolerance ts)) /\
             sortable (filter (placed beTolerance Breakeven k) ts) /\
             sortable (filter (placed beTolerance Losers k) ts)).
Proof.
  split.
  - intros (g & H). eapply classify_necessary; eauto.
  - intros (K & S). apply classify_sufficient; auto.
Qed.

(** X5: the result has a group for an instrument exactly when a trade of
    the input names it and it is not named like a member of
    [Object.prototype]: every instrument met has its group, also when
    deduplication leaves none of its trades. *)
Theorem groups_of_instruments ts beTolerance g :
  classifyAndGroupTrades ts beTolerance = Ok g ->
  forall k, (exists b, In (k, b) g) <->
            (exists t, In t ts /\ item t = k) /\ inherited k = false.
Proof.
  intros H k. destruct (classify_spec _ _ _ H) as (N & S). specialize (S k).
  assert (existsb (hasItem k) ts = true <-> exists t, In t ts /\ item t = k) as E.
  { rewrite existsb_exists. unfold hasItem. split; intros (t & T & Q); exists t;
      (split; [exact T|]); now apply String.eqb_eq. }
  split.
  - intros (b & I). apply (getOwn_In g k b N) in I. rewrite I in S.
    destruct S as (S1 & S2 & _). split; [now apply E | exact S2].
  - intros (T & I). destruct (getOwn g k) as [b|] eqn:G.
    + exists b. now apply (getOwn_In g k b N).
    + apply E in T. rewrite T, I in S. discriminate.
Qed.

Lemma groups_of_instruments_witness :
  let e50 := sampleTrade "1" "eurusd" 50 in
  let g80 := sampleTrade "2" "gbpusd" 80 in
  exists g, classifyAndGroupTrades [e50; g80] zero = Ok g /\
            (exists b, In ("eurusd", b) g) /\ ~ (exists b, In ("usdjpy", b) g).
Proof.
  intros e50 g80. eexists. split; [vm_compute; reflexivity|].
  pose proof (groups_of_instruments [e50; g80] zero _ ltac:(vm_compute; reflexivity)) as G.
  split.
  - apply G. split; [|reflexivity]. exists e50. split; [left|]; reflexivity.
  - intros B. apply G in B. destruct B as ((t & [<-|[<-|[]]] & Q) & _); discriminate.
Defined.

(** ** The tolerance *)

Lemma tolerance_spans a : le (neg a) a = true -> ge a zero = true.
Proof.
  destruct a as [[]|[]| |[] m e]; cbn; try reflexivity; discriminate.
Qed.

(** X6: unless the tolerance is at least zero, no trade is ever filed as
    breakeven: with a negative tolerance, which [handleToleranceChange]
    passes on as it is typed, or with [NaN], the breakeven bucket of every
    group is empty. *)
Theorem breakeven_needs_tolerance ts beTolerance g :
  classifyAndGroupTrades ts beTolerance = Ok g ->
  ge beTolerance zero = false ->
  forall k b, In (k, b) g -> breakeven b = [].
Proof.
  intros H T k b I.
  destruct (buckets_placed _ _ _ H k b I) as (_ & B & _).
  destruct (breakeven b) as [|t l]; [reflexivity|].
  inversion B as [|? ? P _]; subst. exfalso.
  unfold placed, bucketOf in P. apply andb_true_iff in P. destruct P as (_ & P).
  destruct (gt (profit t) beTolerance); [discriminate|].
  destruct (ge (profit t) (neg beTolerance) && le (profit t) beTolerance) eqn:R;
    [|discriminate].
  apply andb_true_iff in R. destruct R as (R1 & R2). rewrite ge_le in R1.
  rewrite (tolerance_spans beTolerance) in T; [discriminate|].
  eapply le_trans; eauto.
Qed.

Lemma breakeven_needs_tolerance_witness :
  let t := sampleTrade "1" "eurusd" 0 in
  App.orZero (parseFloat "-5") = ofZ (-5) /\
  classifyAndGroupTrades [t] (ofZ (-5)) = Ok [("eurusd", mkBuckets [t] [] [])] /\
  ge (ofZ (-5)) zero = false /\
  forall k b, In (k, b) [("eurusd", mkBuckets [t] [] [])] -> breakeven b = [].
Proof.
  intros t. split; [vm_compute; reflexivity|].
  split; [vm_compute; reflexivity|]. split; [vm_compute; reflexivity|].
  apply (breakeven_needs_tolerance [t] (ofZ (-5))); vm_compute; reflexivity.
Defined.

Lemma rank_neg a :
  rank (neg a) = let '(x, y, z) := rank a in (- x, - y, - z).
Proof.
  destruct a as [[]|[]| |[] m e]; cbn; rewrite ?Z.opp_involutive; reflexivity.
Qed.

Lemma neg_antitone a b : le a b = true -> le (neg b) (neg a) = true.
Proof.
  rewrite !le_cases, !isNaN_neg, !rank_neg.
  intros (Ha & Hb & H). split; [exact Hb|]. split; [exact Ha|].
  destruct (rank a) as [[a1 a2] a3], (rank b) as [[b1 b2] b3]. cbn in *.
  destruct H as [H|H]; [left; lia | right; injection H as -> -> ->; reflexivity].
Qed.

Lemma breakeven_widens t1 t2 t :
  le t1 t2 = true ->
  bucketOf t1 t = Breakeven -> bucketOf t2 t = Breakeven.
Proof.
  intros T. unfold bucketOf.
  destruct (gt (profit t) t1); [discriminate|].
  destruct (ge (profit t) (neg t1) && le (profit t) t1) eqn:B; [|discriminate].
  intros _. apply andb_true_iff in B. destruct B as (B1 & B2). rewrite ge_le in B1.
  pose proof (le_trans _ _ _ B2 T) as U.
  pose proof (le_trans _ _ _ (neg_antitone _ _ T) B1) as L.
  rewrite (le_not_gt _ _ U), ge_le, L, U. reflexivity.
Qed.

(** X7: a wider tolerance never takes a trade out of breakeven: when the
    same trades are classified with two tolerances, the first no greater
    than the second, each breakeven trade of a group under the first is a
    breakeven trade of the same group under the second. *)
Theorem tolerance_widens ts narrow wide g1 g2 :
  classifyAndGroupTrades ts narrow = Ok g1 ->
  classifyAndGroupTrades ts wide = Ok g2 ->
  le narrow wide = true ->
  forall k b1, In (k, b1) g1 ->
    exists b2, In (k, b2) g2 /\ incl (breakeven b1) (breakeven b2).
Proof.
  intros H1 H2 T k b1 I1.
  destruct (classify_spec _ _ _ H1) as (N1 & S1).
  destruct (classify_spec _ _ _ H2) as (N2 & S2).
  specialize (S1 k). specialize (S2 k).
  rewrite (proj2 (getOwn_In g1 k b1 N1) I1) in S1. destruct S1 as (E & Q & _ & B1 & _).
  cbn in B1.
  destruct (getOwn g2 k) as [b2|] eqn:G2; [|rewrite E, Q in S2; discriminate].
  destruct S2 as (_ & _ & _ & B2 & _). cbn in B2.
  exists b2. split; [now apply (getOwn_In g2 k b2 N2)|].
  intros t It.
  apply (Permutation_in _ (sort_perm _ _ _ B2)).
  apply (Permutation_in _ (Permutation_sym (sort_perm _ _ _ B1))) in It.
  apply filter_In in It. destruct It as (It & P). apply filter_In. split; [exact It|].
  unfold placed in *. apply andb_true_iff in P. destruct P as (P1 & P2).
  rewrite P1. cbn.
  rewrite (breakeven_widens narrow wide t T); [reflexivity|].
  destruct (bucketOf narrow t); auto; discriminate.
Qed.

Lemma tolerance_widens_witness :
  let t := sampleTrade "1" "eurusd" 3 in
  classifyAndGroupTrades [t] (ofZ 2) = Ok [("eurusd", mkBuckets [t] [] [])] /\
  classifyAndGroupTrades [t] (ofZ 5) = Ok [("eurusd", mkBuckets [] [t] [])] /\
  classifyAndGroupTrades [t] (ofZ 10) = Ok [("eurusd", mkBuckets [] [t] [])] /\
  forall k b1, In (k, b1) [("eurusd", mkBuckets [] [t] [])] ->
    exists b2, In (k, b2) [("eurusd", mkBuckets [] [t] [])] /\
               incl (breakeven b1) (breakeven b2).
Proof.
  intros t. split; [vm_compute; reflexivity|]. split; [vm_compute; reflexivity|].
  split; [vm_compute; reflexivity|].
  apply (tolerance_widens [t] (ofZ 5) (ofZ 10)); vm_compute; reflexivity.
Defined.

(** ** The dedup key *)

Lemma plainKey_app (a b : string) : plainKey (a ++ b)%string = plainKey a && plainKey b.
Proof. induction a as [|c a IH]; cbn; [reflexivity|]. rewrite IH. apply andb_assoc. Qed.

Lemma plainKey_substring s : plainKey s = true -> forall n m, plainKey (substring n m s) = true.
Proof.
  induction s as [|c s IH]; intros H n m.
  - destruct n, m; reflexivity.
  - cbn in H. apply andb_true_iff in H. destruct H as (C & H).
    destruct n as [|n]; [destruct m as [|m]|]; cbn; auto.
    rewrite C. cbn. apply IH. exact H.
Qed.

Lemma plainKey_digits d : plainKey (NilEmpty.string_of_uint d) = true.
Proof. induction d; cbn; auto. Qed.

Lemma plainKey_uint d : plainKey (NilZero.string_of_uint d) = true.
Proof. destruct d; try reflexivity; apply (plainKey_digits (_ d)). Qed.

Lemma plainKey_showZ z : plainKey (showZ z) = true.
Proof.
  unfold showZ, NilZero.string_of_int.
  destruct (Z.to_int z) as [d|d]; [apply plainKey_uint|].
  cbn. apply plainKey_uint.
Qed.

Lemma plainKey_zeros n : plainKey (zeros n) = true.
Proof.
  unfold zeros. destruct n as [|p|p]; try reflexivity. cbn.
  apply Pos.iter_invariant; auto.
Qed.

Lemma plainKey_layout d n : plainKey (layout d n) = true.
Proof.
  unfold layout.
  repeat match goal with
         | |- context [if ?c then _ else _] => destruct c
         end;
    rewrite ?plainKey_app, ?plainKey_zeros, ?plainKey_showZ;
    rewrite ?plainKey_substring by apply plainKey_showZ; reflexivity.
Qed.

(** What [Number::toString] prints holds no underscore. *)
Lemma plainKey_toString x : plainKey (toString x) = true.
Proof.
  destruct x as [s|s| |s m e]; try reflexivity.
  - destruct s; reflexivity.
  - unfold toString. destruct (fraction m e) as [num den].
    destruct (shortest _ _ _ _ _ _) as [d n].
    rewrite plainKey_app, plainKey_layout. destruct s; reflexivity.
Qed.

Lemma key_parts (a : string) : forall a' p p' : string,
  plainKey p = true -> plainKey p' = true ->
  (a ++ "_" ++ p = a' ++ "_" ++ p')%string -> a = a' /\ p = p'.
Proof.
  assert (forall a p : string, plainKey (a ++ String "_" p)%string = false) as U.
  { intros a0 p0. rewrite plainKey_app. cbn. apply andb_false_r. }
  induction a as [|c a IH]; intros [|c' a'] p p' P P' H; cbn in H.
  - injection H as ->. auto.
  - injection H as <- ->. rewrite U in P. discriminate.
  - injection H as -> <-. rewrite U in P'. discriminate.
  - injection H as <- H. destruct (IH _ _ _ P P' H) as (-> & ->). auto.
Qed.

(** X8: the dedup key of the template literal tells its two parts apart:
    two trades have the same key exactly when their open time strings
    are equal and their open prices are printed alike, whatever
    underscores the open times hold. *)
Theorem dedupKey_parts t1 t2 :
  dedupKey t1 = dedupKey t2 <->
  openTimeRaw t1 = openTimeRaw t2 /\ toString (openPrice t1) = toString (openPrice t2).
Proof.
  unfold dedupKey. split.
  - apply key_parts; apply plainKey_toString.
  - intros (-> & ->). reflexivity.
Qed.

(** X9: deduplication drops a winner candidate only for another one of
    the same open time string and the same printed open price: a
    candidate that shares this pair with no other candidate of the input
    is in the winners bucket of its instrument. *)
Theorem lone_candidate_kept ts beTolerance g t :
  classifyAndGroupTrades ts beTolerance = Ok g ->
  In t ts -> isWinner beTolerance t = true ->
  (forall c, In c ts -> isWinner beTolerance c = true ->
     openTimeRaw c = openTimeRaw t ->
     toString (openPrice c) = toString (openPrice t) -> c = t) ->
  exists b, In (item t, b) g /\ In t (winners b).
Proof.
  intros H T W U.
  destruct (candidate_kept beTolerance ts t T W) as (w & G & _ & _).
  destruct (wellKeyed_final beTolerance ts) as (N & I).
  pose proof G as G'. apply mapGet_In in G'; auto.
  destruct (I _ _ G') as (K & Ww & Tw).
  assert (w = t) as ->.
  { unfold dedupKey in K. apply key_parts in K; try apply plainKey_toString.
    destruct K as (K1 & K2). apply U; auto. }
  destruct (winners_of_key _ _ _ _ H t G) as (_ & B). exact B.
Qed.

Lemma lone_candidate_kept_witness :
  let a := sampleTrade "1" "eurusd" 50 in
  let b := timedTrade "2" "2025.06.25 16:09:01" in
  exists g, classifyAndGroupTrades [a; b] zero = Ok g /\
            exists w, In (item a, w) g /\ In a (winners w).
Proof.
  intros a b. eexists. split; [vm_compute; reflexivity|].
  apply (lone_candidate_kept [a; b] zero).
  - vm_compute. reflexivity.
  - left. reflexivity.
  - vm_compute. reflexivity.
  - intros c [<-|[<-|[]]] W; [reflexivity | vm_compute in W; discriminate].
Defined.

(** ** Classifying a result again *)

Lemma NoDup_apart {A} (l1 l2 : list A) x : NoDup (l1 ++ l2) -> In x l1 -> In x l2 -> False.
Proof.
  induction l1 as [|y l1 IH]; cbn; intros N I1 I2; [destruct I1|].
  inversion N as [|? ? Ny Nl]; subst. destruct I1 as [->|I1]; [|auto].
  apply Ny. apply in_or_app. auto.
Qed.

Lemma survivors_keys beTolerance ts : NoDup (map dedupKey (survivors beTolerance ts)).
Proof.
  destruct (wellKeyed_final beTolerance ts) as (N & I).
  unfold survivors, mapValues. rewrite map_map.
  rewrite (map_ext_in _ fst); [exact N|].
  intros [k v] H. cbn. apply (I k v H).
Qed.

(** Deduplication keeps every candidate of a list in which no two
    candidates share their key. *)
Lemma dedup_distinct beTolerance l :
  NoDup (map dedupKey (filter (isWinner beTolerance) l)) ->
  Permutation (survivors beTolerance l) (filter (isWinner beTolerance) l).
Proof.
  intros N.
  destruct (dedupFrom_accounts beTolerance l []) as (dropped & P). cbn [mapValues map app] in P.
  fold (survivors beTolerance l) in P.
  destruct dropped as [|d dropped]; [rewrite app_nil_r in P; now symmetry|]. exfalso.
  assert (In d (filter (isWinner beTolerance) l)) as D.
  { apply (Permutation_in _ (Permutation_sym P)). apply in_or_app. right. left. reflexivity. }
  apply filter_In in D. destruct D as (D & W).
  destruct (candidate_kept beTolerance l d D W) as (w & G & _ & _).
  destruct (wellKeyed_final beTolerance l) as (Nm & I).
  apply mapGet_In in G; [|exact Nm]. destruct (I _ _ G) as (K & _ & _).
  apply (NoDup_apart (map dedupKey (survivors beTolerance l))
           (map dedupKey (d :: dropped)) (dedupKey d)).
  - rewrite <- map_app. eapply Permutation_NoDup; [|exact N].
    apply Permutation_map. exact P.
  - rewrite <- K. apply in_map. unfold survivors, mapValues.
    apply in_map_iff. exists (dedupKey d, w). auto.
  - left. reflexivity.
Qed.

Lemma filter_none {A} (f : A -> bool) l : (forall x, In x l -> f x = false) -> filter f l = [].
Proof.
  induction l as [|x l IH]; cbn; intros H; [reflexivity|].
  rewrite (H x (or_introl eq_refl)). apply IH. auto.
Qed.

Lemma filter_all {A} (f : A -> bool) l : (forall x, In x l -> f x = true) -> filter f l = l.
Proof.
  induction l as [|x l IH]; cbn; intros H; [reflexivity|].
  rewrite (H x (or_introl eq_refl)). f_equal. apply IH. auto.
Qed.

Lemma filter_filter {A} (f h : A -> bool) l :
  (forall x, f x = true -> h x = true) -> filter f (filter h l) = filter f l.
Proof.
  intros H. induction l as [|x l IH]; cbn; [reflexivity|].
  destruct (h x) eqn:E; cbn; [now rewrite IH|].
  destruct (f x) eqn:F; [|exact IH]. apply H in F. congruence.
Qed.

Lemma winners_of_kept beTolerance ts :
  filter (isWinner beTolerance) (kept beTolerance ts) = survivors beTolerance ts.
Proof.
  unfold kept. rewrite filter_app, filter_all, filter_none, app_nil_r; auto.
  - intros x H. apply filter_In in H. destruct H as (_ & H).
    now apply negb_true_iff in H.
  - intros x H. eapply survivors_winners; eauto.
Qed.

Lemma placed_of_kept beTolerance n k ts :
  n <> Winners ->
  filter (placed beTolerance n k) (kept beTolerance ts) = filter (placed beTolerance n k) ts.
Proof.
  intros N.
  assert (forall t, placed beTolerance n k t = true -> isWinner beTolerance t = false) as P.
  { intros t H. unfold placed, bucketOf in H. apply andb_true_iff in H. destruct H as (_ & H).
    unfold isWinner. destruct (gt (profit t) beTolerance); auto.
    destruct n; try discriminate. congruence. }
  unfold kept. rewrite filter_app, filter_none, filter_filter; auto.
  - intros x H. apply negb_true_iff. auto.
  - intros x H. apply survivors_winners in H.
    destruct (placed beTolerance n k x) eqn:E; auto. apply P in E. congruence.
Qed.

Lemma sortable_perm l l' : Permutation l l' -> sortable l -> sortable l'.
Proof.
  intros P [S|S]; [left | right].
  - now rewrite <- (Permutation_length P).
  - eapply Permutation_Forall; eauto.
Qed.

(** X17: classification is idempotent up to the order within the buckets:
    the trades of a result, classified again with the same tolerance, are
    all kept, none is dropped as a duplicate, and each stays in the bucket
    of the group in which it was. *)
Theorem classify_again ts beTolerance g :
  classifyAndGroupTrades ts beTolerance = Ok g ->
  exists g',
    classifyAndGroupTrades (allTrades g) beTolerance = Ok g' /\
    Permutation (allTrades g') (allTrades g) /\
    forall k b', In (k, b') g' ->
      exists b, In (k, b) g /\
        Permutation (winners b') (winners b) /\
        Permutation (breakeven b') (breakeven b) /\
        Permutation (losers b') (losers b).
Proof.
  intros H.
  pose proof (allTrades_kept _ _ _ H) as A.
  destruct (classify_necessary _ _ _ H) as (K & S).
  assert (Permutation (survivors beTolerance (allTrades g)) (survivors beTolerance ts)) as W.
  { rewrite dedup_distinct.
    - rewrite (filter_perm _ _ _ A). now rewrite winners_of_kept.
    - eapply Permutation_NoDup; [|apply (survivors_keys beTolerance ts)].
      apply Permutation_map. rewrite (filter_perm _ _ _ A). now rewrite winners_of_kept. }
  assert (forall n k, n <> Winners ->
            Permutation (filter (placed beTolerance n k) (allTrades g))
                        (filter (placed beTolerance n k) ts)) as P.
  { intros n k N. rewrite (filter_perm _ _ _ A). now rewrite placed_of_kept. }
  destruct (classify_sufficient (allTrades g) beTolerance) as (g' & H').
  - intros t T. apply K. apply (Permutation_in _ A). eapply kept_incl; eauto.
  - intros k. destruct (S k) as (Sw & Se & Sl). repeat split.
    + eapply sortable_perm; [|exact Sw]. symmetry. now apply filter_perm.
    + eapply sortable_perm; [|exact Se]. symmetry. apply P. discriminate.
    + eapply sortable_perm; [|exact Sl]. symmetry. apply P. discriminate.
  - exists g'. split; [exact H'|]. split.
    + rewrite (allTrades_kept _ _ _ H'). unfold kept at 1.
      rewrite dedup_distinct.
      * symmetry. apply filter_split.
      * eapply Permutation_NoDup; [|apply (survivors_keys beTolerance ts)].
        apply Permutation_map. rewrite (filter_perm _ _ _ A). now rewrite winners_of_kept.
    + intros k b' I'.
      destruct (classify_spec _ _ _ H') as (N' & S').
      specialize (S' k). rewrite (proj2 (getOwn_In g' k b' N') I') in S'.
      destruct S' as (E' & Q' & Sw' & Se' & Sl'). cbn in Sw', Se', Sl'.
      destruct (classify_spec _ _ _ H) as (N & S0). specialize (S0 k).
      assert (existsb (hasItem k) ts = true) as E.
      { apply existsb_exists in E'. destruct E' as (t & T & Q).
        apply existsb_exists. exists t. split; [|exact Q].
        eapply kept_incl. apply (Permutation_in _ A). exact T. }
      destruct (getOwn g k) as [b|] eqn:G; [|rewrite E, Q' in S0; discriminate].
      destruct S0 as (_ & _ & Sw & Se & Sl). cbn in Sw, Se, Sl.
      exists b. split; [now apply (getOwn_In g k b N)|].
      repeat split.
      * rewrite <- (sort_perm _ _ _ Sw'), <- (sort_perm _ _ _ Sw). now apply filter_perm.
      * rewrite <- (sort_perm _ _ _ Se'), <- (sort_perm _ _ _ Se). apply P. discriminate.
      * rewrite <- (sort_perm _ _ _ Sl'), <- (sort_perm _ _ _ Sl). apply P. discriminate.
Qed.

Lemma classify_again_witness :
  let t50 := sampleTrade "1" "eurusd" 50 in
  let t80 := sampleTrade "2" "eurusd" 80 in
  let l := sampleTrade "3" "gbpusd" (-20) in
  exists g g',
    classifyAndGroupTrades [t50; t80; l] zero = Ok g /\
    classifyAndGroupTrades (allTrades g) zero = Ok g' /\
    Permutation (allTrades g') (allTrades g).
Proof.
  intros t50 t80 l. eexists.
  destruct (classify_again [t50; t80; l] zero
              [("eurusd", mkBuckets [t80] [] []); ("gbpusd", mkBuckets [] [] [l])])
    as (g' & H' & P & _).
  - vm_compute. reflexivity.
  - exists g'. split; [vm_compute; reflexivity|]. split; [exact H' | exact P].
Defined.

(** ** A resolved report *)

Lemma winners_in_all g : incl (allWinners g) (allTrades g).
Proof.
  intros t H. unfold allWinners in H. apply in_flat_map in H. destruct H as (e & E & T).
  unfold allTrades. apply in_flat_map. exists e. split; auto.
  unfold bucketsOf. apply in_or_app. auto.
Qed.

Lemma resolved_nonempty doc beTolerance g :
  processReport doc beTolerance = Resolved g -> allTrades g <> [].
Proof.
  unfold processReport. destruct (findTable doc) as [t|]; [|discriminate].
  destruct (map _ (closedRows (rows t) 0 false)) as [|x ts] eqn:E; [discriminate|].
  cbn [List.length Nat.eqb].
  destruct (classifyAndGroupTrades (x :: ts) beTolerance) as [g'|] eqn:C; [|discriminate].
  intros [= <-] A.
  destruct (input_accounted _ _ _ C) as (dropped & P & D).
  rewrite A in P. cbn in P.
  destruct dropped as [|d dropped].
  - apply Permutation_sym, Permutation_nil in P. discriminate.
  - inversion D as [|? ? (_ & w & W & _) _]; subst.
    apply winners_in_all in W. rewrite A in W. destruct W.
Qed.

(** X10: a report that [processReport] resolves holds a trade: the result
    has a group, and the buckets of its groups are not all empty, though
    deduplication may leave single groups without a trade. *)
Theorem resolved_has_trades doc beTolerance g :
  processReport doc beTolerance = Resolved g ->
  g <> [] /\ allTrades g <> [].
Proof.
  intros H. apply resolved_nonempty in H. split; [|exact H].
  intros ->. apply H. reflexivity.
Qed.

Lemma resolved_has_trades_witness :
  exists g, processReport (reportWith "0.10" "12.50") zero = Resolved g /\
            g <> [] /\ allTrades g <> [].
Proof.
  eexists. split; [vm_compute; reflexivity|].
  apply (resolved_has_trades (reportWith "0.10" "12.50") zero). vm_compute. reflexivity.
Defined.

(** ** The scripts *)

Lemma labelsOf_returns type_ trade :
  (exists r, labelsOf type_ trade = Ok r) <->
  spaced (openTimeRaw trade) = true /\
  match type_ with
  | winner => spaced (closeTimeRaw trade) = true
  | _ => True
  end.
Proof.
  rewrite <- !toTimestamp_spaced. split.
  - intros (r & H). apply labelsOf_Ok in H. destruct H as (o & O & C).
    split; [eauto|]. destruct type_; auto. rewrite <- toTimestamp_spaced. exact C.
  - intros ((o & O) & C). unfold labelsOf. rewrite O. cbn [bind].
    destruct type_; eauto.
    rewrite <- toTimestamp_spaced in C. destruct C as (c & ->). cbn. eauto.
Qed.

Lemma generateLabels_returns type_ trades :
  (exists r, generateLabels trades type_ = Ok r) <->
  Forall (fun t => spaced (openTimeRaw t) = true) trades /\
  match type_ with
  | winner => Forall (fun t => spaced (closeTimeRaw t) = true) trades
  | _ => True
  end.
Proof.
  induction trades as [|t ts IH].
  - cbn. split; [|eauto]. intros _. split; auto. destruct type_; auto.
  - cbn [generateLabels]. split.
    + intros (r & H). apply bind_Ok in H. destruct H as (s & S & H).
      apply bind_Ok in H. destruct H as (m & M & _).
      destruct (proj1 (labelsOf_returns type_ t) (ex_intro _ _ S)) as (O & C).
      destruct (proj1 IH (ex_intro _ _ M)) as (Os & Cs).
      split; [constructor; auto|]. destruct type_; auto.
    + intros (O & C). inversion O as [|? ? Ot Os]; subst.
      destruct (proj2 (labelsOf_returns type_ t)) as (s & ->).
      { split; auto. destruct type_; auto. now inversion C. }
      destruct (proj2 IH) as (m & ->).
      { split; auto. destruct type_; auto. now inversion C. }
      cbn. eauto.
Qed.

Lemma script_sufficient item_ data :
  Forall (fun t => spaced (openTimeRaw t) = true) (bucketsOf data) ->
  Forall (fun t => spaced (closeTimeRaw t) = true) (winners data) ->
  exists script, generatePineScript item_ data = Ok script.
Proof.
  unfold generatePineScript, scriptTemplate, bucketsOf. rewrite !Forall_app.
  intros (W1 & E1 & L1) W2.
  destruct (proj2 (generateLabels_returns winner (winners data))) as (w & ->); auto.
  destruct (proj2 (generateLabels_returns breakevenType (breakeven data))) as (e & ->); auto.
  destruct (proj2 (generateLabels_returns loser (losers data))) as (l & ->); auto.
  cbn. eauto.
Qed.

(** X11: [generatePineScript] returns a script, instead of throwing,
    exactly when the open time of every trade of the three buckets and
    the close time of every winner hold a space; the close times of the
    other trades are not read. *)
Theorem script_returns item_ data :
  (exists script, generatePineScript item_ data = Ok script) <->
  Forall (fun t => spaced (openTimeRaw t) = true) (bucketsOf data) /\
  Forall (fun t => spaced (closeTimeRaw t) = true) (winners data).
Proof.
  split; [|intros (O & C); now apply script_sufficient].
  unfold generatePineScript, scriptTemplate, bucketsOf. rewrite !Forall_app.
  intros (script & H). apply bind_Ok in H. destruct H as (tpl & H & _).
  apply bind_Ok in H. destruct H as (w & W & H).
  apply bind_Ok in H. destruct H as (e & E & H).
  apply bind_Ok in H. destruct H as (l & L & _).
  destruct (proj1 (generateLabels_returns winner _) (ex_intro _ _ W)) as (W1 & W2).
  destruct (proj1 (generateLabels_returns breakevenType _) (ex_intro _ _ E)) as (E1 & _).
  destruct (proj1 (generateLabels_returns loser _) (ex_intro _ _ L)) as (L1 & _).
  auto.
Qed.

Lemma labelsOf_tokens type_ trade r :
  labelsOf type_ trade = Ok r -> tokens (List.concat r) = tokensOf type_.
Proof.
  intros H. destruct (labelsOf_Ok _ _ _ H) as (o & O & C).
  unfold labelsOf in H. rewrite O in H. cbn [bind] in H.
  destruct type_; [destruct C as (c & C); rewrite C in H; cbn [bind] in H| |];
    injection H as <-; vm_compute; reflexivity.
Qed.

Lemma generateLabels_written needle type_ trades : forall r,
  generateLabels trades type_ = Ok r ->
  forall n, (forall t s, labelsOf type_ t = Ok s -> written needle (List.concat s) = n) ->
  written needle (List.concat r) = (n * List.length trades)%nat.
Proof.
  induction trades as [|t ts IH]; intros r H n P.
  - injection H as <-. cbn. lia.
  - cbn [generateLabels] in H. apply bind_Ok in H. destruct H as (s & S & H).
    apply bind_Ok in H. destruct H as (m & M & [= <-]).
    rewrite concat_app, written_app, (P _ _ S), (IH _ M n P). cbn [List.length]. lia.
Qed.

Lemma written_text needle s t :
  written needle (Text s :: t) = (occurrences needle s + written needle t)%nat.
Proof. reflexivity. Qed.

(** X12: whatever the three buckets hold, the template of the script that
    [generatePineScript] returns writes [label.new(] twice for each
    winner and once for each other trade, [line.new(] once for each
    winner, and the colour green four times for each winner, blue twice
    for each breakeven trade and red twice for each loser. *)
Theorem script_counts item_ data script :
  generatePineScript item_ data = Ok script ->
  exists tpl,
    scriptTemplate item_ data = Ok tpl /\ script = render tpl /\
    written "label.new(" tpl =
      (2 * List.length (winners data) + List.length (breakeven data)
         + List.length (losers data))%nat /\
    written "line.new(" tpl = List.length (winners data) /\
    colours tpl = ((4 * List.length (winners data))%nat,
                   (2 * List.length (breakeven data))%nat,
                   (2 * List.length (losers data))%nat).
Proof.
  unfold generatePineScript. intros H. apply bind_Ok in H. destruct H as (tpl & H & [= <-]).
  exists tpl. split; [exact H|]. split; [reflexivity|].
  unfold scriptTemplate in H. cbv zeta in H.
  remember (preamble (Str.toUpperCase item_)) as pre eqn:Pre in H.
  apply bind_Ok in H. destruct H as (w & W & H).
  apply bind_Ok in H. destruct H as (e & E & H).
  apply bind_Ok in H. destruct H as (l & L & H).
  injection H as <-.
  pose proof generateLabels_written as G.
  assert (tokens pre = (0, 0, (0, 0, 0))%nat) as P by (rewrite Pre; vm_compute; reflexivity).
  unfold tokens, colours in P. injection P as P1 P2 P3 P4 P5.
  unfold colours.
  repeat (rewrite written_app || rewrite written_text). rewrite P1, P2, P3, P4, P5.
  rewrite (G "label.new(" _ _ _ W 2%nat), (G "label.new(" _ _ _ E 1%nat),
          (G "label.new(" _ _ _ L 1%nat),
          (G "line.new(" _ _ _ W 1%nat), (G "line.new(" _ _ _ E 0%nat),
          (G "line.new(" _ _ _ L 0%nat),
          (G "color.green" _ _ _ W 4%nat), (G "color.green" _ _ _ E 0%nat),
          (G "color.green" _ _ _ L 0%nat),
          (G "color.blue" _ _ _ W 0%nat), (G "color.blue" _ _ _ E 2%nat),
          (G "color.blue" _ _ _ L 0%nat),
          (G "color.red" _ _ _ W 0%nat), (G "color.red" _ _ _ E 0%nat),
          (G "color.red" _ _ _ L 2%nat);
    try (intros t s S; apply labelsOf_tokens in S; unfold tokens, colours in S;
         cbn [tokensOf] in S; congruence).
  cbn [written].
  repeat match goal with
         | |- context [occurrences ?a ?b] =>
             let v := eval vm_compute in (occurrences a b) in
             change (occurrences a b) with v
         end.
  split; [lia|]. split; [lia|]. f_equal; [f_equal|]; lia.
Qed.

Lemma script_counts_witness :
  let w1 := sampleTrade "1" "eurusd" 50 in
  let w2 := sampleTrade "2" "eurusd" 80 in
  let l := sampleTrade "3" "eurusd" (-20) in
  exists script tpl,
    generatePineScript "eurusd" (mkBuckets [w1; w2] [] [l]) = Ok script /\
    script = render tpl /\
    written "label.new(" tpl = 5%nat /\ written "line.new(" tpl = 2%nat /\
    colours tpl = (8, 0, 2)%nat.
Proof.
  intros w1 w2 l.
  destruct (script_counts "eurusd" (mkBuckets [w1; w2] [] [l])
              (match generatePineScript "eurusd" (mkBuckets [w1; w2] [] [l]) with
               | Ok s => s
               | Throw => EmptyString
               end))
    as (tpl & _ & R & C1 & C2 & C3).
  - vm_compute. reflexivity.
  - eexists. exists tpl. split; [vm_compute; reflexivity|]. auto.
Defined.

(** X19: each loser has one statement, and the style written in it goes
    by the side of that trade alone: the triangle up for the type buy,
    the triangle down for every other type, in the order of the bucket. *)
Theorem loser_styles trades r :
  generateLabels trades loser = Ok r ->
  Forall2 (fun t tpl =>
             valueAfter ", style=" tpl =
             Some (if String.eqb (type t) "buy"
                   then "label.style_triangleup" else "label.style_triangledown"))
          trades r.
Proof.
  revert r. induction trades as [|t ts IH]; intros r H.
  - injection H as <-. constructor.
  - cbn [generateLabels] in H. apply bind_Ok in H. destruct H as (s & S & H).
    apply bind_Ok in H. destruct H as (m & M & [= <-]).
    destruct (labelsOf_Ok _ _ _ S) as (o & O & _).
    unfold labelsOf in S. rewrite O in S. cbn [bind] in S. injection S as <-.
    cbn [app]. constructor; [|apply IH; exact M].
    cbn. reflexivity.
Qed.

Lemma loser_styles_witness :
  let a := sampleTrade "1" "eurusd" (-20) in
  let b := timedTrade "2" "2025.06.25 16:09:01" in
  Forall2 (fun t tpl =>
             valueAfter ", style=" tpl =
             Some (if String.eqb (type t) "buy"
                   then "label.style_triangleup" else "label.style_triangledown"))
          [a; b]
          (match generateLabels [a; b] loser with
           | Ok r => r
           | Throw => []
           end).
Proof.
  intros a b. apply (loser_styles [a; b]). vm_compute. reflexivity.
Defined.

(** X13: from the trades to the scripts: when no instrument is named like
    a member of [Object.prototype] and the open and the close time of
    every trade hold a space, [classifyAndGroupTrades] returns a result
    and [generatePineScript] returns a script for each of its groups. *)
Theorem scripts_for_all ts beTolerance :
  (forall t, In t ts ->
     inherited (item t) = false /\ spaced (openTimeRaw t) = true /\
     spaced (closeTimeRaw t) = true) ->
  exists g, classifyAndGroupTrades ts beTolerance = Ok g /\
            forall k b, In (k, b) g -> exists script, generatePineScript k b = Ok script.
Proof.
  intros A.
  assert (forall f : Trade -> bool,
            Forall (fun t => spaced (openTimeRaw t) = true) (filter f ts)) as F.
  { intros f. apply Forall_forall. intros t T. apply filter_In in T. apply A, T. }
  destruct (classify_sufficient ts beTolerance) as (g & H).
  - intros t T. apply A. eapply kept_incl; eauto.
  - intros k. repeat split; right; auto.
    apply Forall_forall. intros t T. apply filter_In in T. destruct T as (T & _).
    apply survivors_incl in T. now apply A.
  - exists g. split; [exact H|]. intros k b I.
    assert (incl (bucketsOf b) ts) as B.
    { intros t T. apply (kept_incl beTolerance).
      eapply Permutation_in; [apply (allTrades_kept _ _ _ H)|].
      unfold allTrades. apply in_flat_map. exists (k, b). auto. }
    apply script_sufficient; apply Forall_forall; intros t T; apply A, B; auto.
    unfold bucketsOf. apply in_or_app. auto.
Qed.

Lemma scripts_for_all_witness :
  let w := sampleTrade "1" "eurusd" 50 in
  let l := sampleTrade "2" "gbpusd" (-20) in
  exists g, classifyAndGroupTrades [w; l] zero = Ok g /\
            forall k b, In (k, b) g -> exists script, generatePineScript k b = Ok script.
Proof.
  intros w l. apply (scripts_for_all [w; l] zero).
  intros t [<-|[<-|[]]]; vm_compute; auto.
Defined.

(** ** App.tsx: the colour of a profit *)

Lemma gt_le_trans (a b c : number) : gt b a = true -> le b c = true -> gt c a = true.
Proof.
  intros G H. apply le_cases in H. destruct H as (Hb & Hc & H).
  destruct (gt_notNaN _ _ G) as [_ Ha]. apply gt_below in G.
  apply below_gt; auto. destruct H as [H|H].
  - eapply below_trans; eauto.
  - rewrite <- H. exact G.
Qed.

Lemma neg_below_zero a : ge a zero = true -> le (neg a) zero = true.
Proof. destruct a as [[]|[]| |[] m e]; cbn; try reflexivity; discriminate. Qed.

Lemma lt_not_gt (a b : number) : lt a b = true -> gt a b = false.
Proof. intros H. apply le_not_gt. apply gt_le. exact H. Qed.

(** X14: with a tolerance of at least zero, the colour that [TradeItem]
    gives a profit agrees with the bucket for winners and losers: every
    winner is shown in green and every loser in red, but for a loser
    whose profit is [NaN], shown in blue; a breakeven trade is shown in
    blue only when its profit is zero, and in green or red otherwise. *)
Theorem colour_of_bucket ts beTolerance g :
  classifyAndGroupTrades ts beTolerance = Ok g ->
  ge beTolerance zero = true ->
  forall k b, In (k, b) g ->
    Forall (fun t => App.profitClass t = "text-green-400") (winners b) /\
    Forall (fun t => App.profitClass t =
                     if isNaN (profit t) then "text-blue-400" else "text-red-400")
           (losers b) /\
    Forall (fun t => App.profitClass t = "text-blue-400" <-> equal (profit t) zero = true)
           (breakeven b).
Proof.
  intros H T k b I.
  destruct (buckets_placed _ _ _ H k b I) as (W & E & L).
  repeat split; apply Forall_forall; intros t It.
  - rewrite Forall_forall in W. specialize (W t It).
    unfold placed, bucketOf in W. apply andb_true_iff in W. destruct W as (_ & W).
    destruct (gt (profit t) beTolerance) eqn:G.
    + unfold App.profitClass. rewrite (le_gt_trans zero beTolerance (profit t)); auto.
    + destruct (_ && _); discriminate.
  - rewrite Forall_forall in L. specialize (L t It).
    unfold placed in L. apply andb_true_iff in L. destruct L as (_ & L).
    destruct (isNaN (profit t)) eqn:N.
    + unfold App.profitClass. destruct (profit t); try discriminate. reflexivity.
    + destruct (bucket_rule beTolerance t T N) as (_ & _ & R).
      assert (lt (profit t) (neg beTolerance) = true) as Lt.
      { apply R. destruct (bucketOf beTolerance t); auto; discriminate. }
      assert (lt (profit t) zero = true) as Z.
      { apply (gt_le_trans (profit t) (neg beTolerance) zero); auto.
        now apply neg_below_zero. }
      unfold App.profitClass. rewrite (lt_not_gt _ _ Z), Z. reflexivity.
  - rewrite Forall_forall in E. specialize (E t It).
    unfold placed, bucketOf in E. apply andb_true_iff in E. destruct E as (_ & E).
    destruct (gt (profit t) beTolerance); [discriminate|].
    destruct (ge (profit t) (neg beTolerance) && le (profit t) beTolerance) eqn:R;
      [|discriminate].
    apply andb_true_iff in R. destruct R as (_ & R). apply le_cases in R.
    destruct R as (N & _). unfold App.profitClass.
    destruct (profit t) as [s|s| |s m e]; try discriminate; cbn.
    + split; reflexivity.
    + destruct s; cbn; split; discriminate.
    + destruct s; cbn; split; discriminate.
Qed.

Lemma colour_of_bucket_witness :
  let w := sampleTrade "1" "eurusd" 50 in
  let l := sampleTrade "2" "eurusd" (-20) in
  classifyAndGroupTrades [w; l] zero = Ok [("eurusd", mkBuckets [w] [] [l])] /\
  App.profitClass w = "text-green-400" /\ App.profitClass l = "text-red-400".
Proof.
  intros w l. split; [vm_compute; reflexivity|].
  destruct (colour_of_bucket [w; l] zero [("eurusd", mkBuckets [w] [] [l])]
              ltac:(vm_compute; reflexivity) ltac:(vm_compute; reflexivity)
              "eurusd" (mkBuckets [w] [] [l]) (or_introl eq_refl)) as (W & L & _).
  inversion W as [|? ? W1 _]. inversion L as [|? ? L1 _]. split; [exact W1 | exact L1].
Defined.

(** ** App.tsx: the state between two events *)

Lemma orZero_number x : isNaN (App.orZero x) = false.
Proof. destruct x; reflexivity. Qed.

Lemma settled_process parse content tolerance st :
  settled parse st -> settled parse (App.handleProcessReport parse content tolerance st).
Proof.
  intros S. unfold App.handleProcessReport.
  destruct (Str.isEmpty content); [exact S|].
  destruct S as (_ & N & _).
  destruct (processReport (parse content) tolerance) as [g|e] eqn:P; cbn;
    (split; [reflexivity|]); (split; [exact N|]); (split; [auto|]); split;
    try discriminate.
  - intros g' [= <-]. split; [eapply resolved_nonempty; eauto|].
    exists content, tolerance. split; [reflexivity | exact P].
  - intros m [= <-]. eauto.
Qed.

Lemma settled_step parse st e : settled parse st -> settled parse (App.step parse st e).
Proof.
  intros S. destruct e as [name|content tolerance|value]; cbn [App.step].
  - exact S.
  - now apply settled_process.
  - unfold App.handleToleranceChange.
    assert (settled parse (App.setBeTolerance (App.orZero (parseFloat value)) st)) as S'.
    { destruct S as (L & N & E & M & G).
      split; [exact L|]. split; [apply orZero_number|]. auto. }
    cbn [App.lastProcessedContent App.setBeTolerance].
    destruct (App.lastProcessedContent st); [now apply settled_process | exact S'].
Qed.

(** X15: after any sequence of events from the initial state, whatever
    the files hold and whatever is typed as the tolerance: the spinner is
    off; the tolerance of the state is a number, never [NaN]; the error
    and the results are not both shown; the error, when shown, is one of
    the three messages of [processReport]; the results, when shown, hold
    a trade and are what [processReport] resolved to on the content that
    was processed last. *)
Theorem app_settled parseFromString events :
  settled parseFromString (App.run parseFromString events App.initial).
Proof.
  unfold App.run.
  assert (settled parseFromString App.initial) as S.
  { unfold settled. cbn. repeat split; auto; discriminate. }
  revert S. generalize App.initial. induction events as [|e events IH]; intros st S.
  - exact S.
  - cbn [fold_left]. apply IH. now apply settled_step.
Qed.

(** X16: the content that a tolerance change processes again is the one
    that was resolved last, not the one that was loaded last: when a file
    is chosen and its content is rejected, the error is shown under the
    name of that file; a tolerance typed then brings back the results of
    the content resolved before, at the typed tolerance, still under the
    name of the rejected file. *)
Theorem stale_results parseFromString st name content tolerance value before e g :
  App.lastProcessedContent st = Some before -> before <> EmptyString ->
  content <> EmptyString ->
  processReport (parseFromString content) tolerance = Rejected e ->
  processReport (parseFromString before) (App.orZero (parseFloat value)) = Resolved g ->
  let failed :=
    App.run parseFromString [App.FileChosen name; App.FileLoaded content tolerance] st in
  let typed := App.step parseFromString failed (App.ToleranceTyped value) in
  (App.fileName failed = Some name /\ App.groupedTrades failed = None /\
   App.error failed = Some (message e)) /\
  (App.fileName typed = Some name /\ App.groupedTrades typed = Some g /\
   App.error typed = None).
Proof.
  intros L B C R G. cbn [App.run fold_left App.step].
  unfold App.handleToleranceChange, App.handleProcessReport.
  destruct content as [|c0 content]; [congruence|]. cbn [Str.isEmpty].
  rewrite R. cbn. rewrite L.
  destruct before as [|b0 before]; [congruence|]. cbn [Str.isEmpty].
  rewrite G. cbn. auto.
Qed.

Lemma stale_results_witness :
  let loaded :=
    App.run sampleParser [App.FileChosen "a.htm"; App.FileLoaded "report" zero]
            App.initial in
  let typed :=
    App.run sampleParser [App.FileChosen "b.htm"; App.FileLoaded "other" zero;
                          App.ToleranceTyped "1"] loaded in
  App.lastProcessedContent loaded = Some "report" /\
  App.fileName typed = Some "b.htm" /\
  App.groupedTrades typed = App.groupedTrades loaded /\
  App.groupedTrades typed <> None.
Proof.
  intros loaded typed.
  destruct (stale_results sampleParser loaded "b.htm" "other" zero "1" "report"
              MissingSectionError
              (match App.groupedTrades loaded with Some g => g | None => [] end))
    as (_ & F & G & _);
    try (vm_compute; reflexivity); try discriminate.
  split; [vm_compute; reflexivity|]. split; [exact F|].
  split; [|vm_compute; discriminate].
  change (App.groupedTrades typed) with
    (App.groupedTrades
       (App.step sampleParser
          (App.run sampleParser [App.FileChosen "b.htm"; App.FileLoaded "other" zero] loaded)
          (App.ToleranceTyped "1"))).
  rewrite G. vm_compute. reflexivity.
Defined.
